(** * MongoDB MCP server: tool execution pipeline and HTTP transports

    A shallow embedding of the tool classes under [src/tools/mongodb] and of
    the three HTTP front-ends ([http-server.ts] and its SSE and Streamable
    HTTP variants), with the properties the specification states about
    them.  The base classes of the tools ([tool.ts], [mongodbTool.ts]) and
    the [Session] and [Server] classes are not among the sources; what the
    tools need of them follows the specification and is marked as such. *)

From Stdlib Require Import String Ascii List ZArith Bool Arith Lia DecimalString.
Import ListNotations.

Set Implicit Arguments.
Set Warnings "-register-all".
Open Scope string_scope.
Open Scope list_scope.

(** ** JavaScript values *)

(** A JavaScript value as the tools see it: plain JSON data, or a native BSON
    object (an [ObjectId], a [Date], ...) named by its BSON type and its
    printed form.  JavaScript numbers are restricted to integers. *)
Inductive Value : Type :=
| VNull
| VBool (b : bool)
| VNum (n : Z)
| VStr (s : string)
| VArr (items : list Value)
| VObj (fields : list (string * Value))
| VBson (bsontype : string) (repr : string).

(** The double-quote character, spliced into template literals. *)
Definition dq : string := String (ascii_of_nat 34) EmptyString.

(** The backtick character. *)
Definition bq : string := String (ascii_of_nat 96) EmptyString.

(** A template literal: the concatenation of its pieces. *)
Definition template (pieces : list string) : string :=
  String.concat EmptyString pieces.

(** [String(n)] for a natural number. *)
Definition string_of_nat (n : nat) : string :=
  NilEmpty.string_of_uint (Nat.to_uint n).

(** A possibly-undefined string inside a template literal. *)
Definition show_optional (o : option string) : string :=
  match o with
  | Some s => s
  | None => "undefined"
  end.

(** [needle] occurs in [hay]. *)
Definition occurs_in (needle hay : string) : Prop :=
  exists pre post, hay = (pre ++ needle ++ post)%string.

(** Property lookup on an object; [None] is JavaScript's [undefined]. *)
Fixpoint assoc (k : string) (fields : list (string * Value)) : option Value :=
  match fields with
  | [] => None
  | (k', v) :: rest => if String.eqb k k' then Some v else assoc k rest
  end.

Definition prop (k : string) (v : Value) : option Value :=
  match v with
  | VObj fields => assoc k fields
  | _ => None
  end.

(** ** Errors and results *)

(** The error taxonomy of the execution pipeline. *)
Inductive ErrorKind : Type :=
| UnknownTool
| InvalidArguments
| OperationNotPermitted
| DatabaseNotSpecified
| BackendUnavailable
| DomainError
| ExecutionFailed
| InternalError.

(** What a [catch] clause inspects of a thrown JavaScript value:
    [error instanceof Error], the [codeName] property when the value has one,
    and its message ([String(error)] for a non-Error). *)
Record JsError : Type := mkJsError {
  instanceofError : bool;
  codeName : option string;
  message : string
}.

(** A thrown value: one raised by the session helpers, tagged with its kind,
    or any other JavaScript value. *)
Inductive Thrown : Type :=
| PipelineError (k : ErrorKind) (msg : string)
| JsThrown (e : JsError).

(** [new Error(msg)] *)
Definition new_Error (msg : string) : Thrown :=
  JsThrown (mkJsError true None msg).

Definition thrown_message (t : Thrown) : string :=
  match t with
  | PipelineError _ msg => msg
  | JsThrown e => message e
  end.

(** [error instanceof Error && "codeName" in error], giving the code name. *)
Definition error_codeName (t : Thrown) : option string :=
  match t with
  | PipelineError _ _ => None
  | JsThrown e => if instanceofError e then codeName e else None
  end.

(** [CallToolResult]: the text of each content block, in order. *)
Record CallToolResult : Type := mkResult { content : list string }.

(** A protocol result with its classification. *)
Inductive ProtocolResult : Type :=
| Success (r : CallToolResult)
| ErrorResult (k : ErrorKind) (r : CallToolResult).

Definition result_kind (r : ProtocolResult) : option ErrorKind :=
  match r with
  | Success _ => None
  | ErrorResult k _ => Some k
  end.

Definition result_content (r : ProtocolResult) : list string :=
  match r with
  | Success r => content r
  | ErrorResult _ r => content r
  end.

(** ** The backend connection provider *)

Inductive OperationType : Type := create | read | update | delete | metadata.

(** Options object of [provider.find]. *)
Record FindOptions : Type := mkFindOptions {
  projection : option Value;
  limit : Z;
  sort : option Value
}.

(** One per-operation call on the provider, with the arguments it receives. *)
Inductive BackendOp : Type :=
| OpFind (db coll : string) (filter : option Value) (opts : FindOptions)
| OpAggregate (db coll : string) (pipeline : Value)
| OpExplainAggregate (db coll : string) (pipeline : list Value) (verbosity : string)
| OpExplainFind (db coll : string) (filter : option Value) (opts : FindOptions)
    (verbosity : string)
| OpExplainCount (db coll : string) (query : option Value) (verbosity : string)
| OpInsertMany (db coll : string) (documents : list Value)
| OpCreateCollection (db coll : string)
| OpDropDatabase (db : string)
| OpDropCollection (db coll : string)
| OpRenameCollection (db coll newName : string) (dropTarget : bool)
| OpListCollections (db : string)
| OpGetIndexes (db coll : string)
| OpRunCommand (db : string) (command : Value).

Record InsertManyResult : Type := mkInsertManyResult {
  insertedCount : nat;
  insertedIds : list string
}.

Record IndexDefinition : Type := mkIndexDefinition {
  index_name : string;
  index_key : Value
}.

(** The backend is an opaque collaborator: [connect] either resolves ([None])
    or rejects with a message, and each operation returns its reply or throws. *)
Record Provider : Type := mkProvider {
  connect : option string;
  respond_documents : BackendOp -> JsError + list Value;
  respond_document : BackendOp -> JsError + Value;
  respond_insert : BackendOp -> JsError + InsertManyResult;
  respond_bool : BackendOp -> JsError + bool;
  respond_name : BackendOp -> JsError + string;
  respond_names : BackendOp -> JsError + list string;
  respond_indexes : BackendOp -> JsError + list IndexDefinition
}.

Inductive ProviderState : Type := Disconnected | Connecting | Connected.

(** The session binds the provider, its connection state and the configured
    default database. *)
Record Session : Type := mkSession {
  serviceProvider : Provider;
  connState : ProviderState;
  defaultDatabase : option string
}.

(** ** Effects: session state, an event trace, and exceptions *)

Inductive Event : Type :=
| EvConnect
| EvOp (op : BackendOp)
| EvConsoleLog (label : string)
| EvInvoke (tool : string).

Definition M (A : Type) : Type := Session -> Session * list Event * (Thrown + A).

Definition ret {A} (a : A) : M A := fun s => (s, [], inr a).

Definition throw {A} (e : Thrown) : M A := fun s => (s, [], inl e).

Definition bind {A B} (m : M A) (k : A -> M B) : M B := fun s =>
  match m s with
  | (s1, t1, inl e) => (s1, t1, inl e)
  | (s1, t1, inr a) =>
      match k a s1 with
      | (s2, t2, r) => (s2, t1 ++ t2, r)
      end
  end.

Definition try_catch {A} (m : M A) (handler : Thrown -> M A) : M A := fun s =>
  match m s with
  | (s1, t1, inl e) =>
      match handler e s1 with
      | (s2, t2, r) => (s2, t1 ++ t2, r)
      end
  | (s1, t1, inr a) => (s1, t1, inr a)
  end.

Definition emit (ev : Event) : M unit := fun s => (s, [ev], inr tt).

Definition get_session : M Session := fun s => (s, [], inr s).

Definition set_connState (c : ProviderState) : M unit := fun s =>
  (mkSession (serviceProvider s) c (defaultDatabase s), [], inr tt).

Declare Scope m_scope.
Delimit Scope m_scope with m.
Notation "x <- m ;; k" := (bind m (fun x => k))
  (at level 61, m at next level, right associativity) : m_scope.
Notation "m ;; k" := (bind m (fun _ => k))
  (at level 61, right associativity) : m_scope.
Open Scope m_scope.

Definition trace_of {A} (r : Session * list Event * (Thrown + A)) : list Event :=
  snd (fst r).

Definition outcome_of {A} (r : Session * list Event * (Thrown + A)) : Thrown + A :=
  snd r.

Definition session_of {A} (r : Session * list Event * (Thrown + A)) : Session :=
  fst (fst r).

Definition is_op (ev : Event) : bool :=
  match ev with
  | EvOp _ => true
  | _ => false
  end.

(** The backend operations issued in a trace, in order. *)
Definition ops_of (t : list Event) : list BackendOp :=
  flat_map (fun ev => match ev with EvOp op => [op] | _ => [] end) t.

Definition connects_of (t : list Event) : nat :=
  length (filter (fun ev => match ev with EvConnect => true | _ => false end) t).

Definition invoked (t : list Event) : list string :=
  flat_map (fun ev => match ev with EvInvoke n => [n] | _ => [] end) t.

(** A call on the provider: recorded in the trace, then answered. *)
Definition backend_call {A} (op : BackendOp) (answer : JsError + A) : M A :=
  emit (EvOp op) ;;
  match answer with
  | inl e => throw (JsThrown e)
  | inr a => ret a
  end.

(** ** Session helpers

    [mongodbTool.ts], which defines [ensureConnected], [getEffectiveDatabase]
    and [DbOperationArgs], is not part of the sources at hand. *)

(** Modelled from the spec: the settling of the connect attempt in flight,
    part of [ensureConnected] below.  The provider becomes connected, or the
    attempt fails with [BackendUnavailable] and nothing is retried. *)
Definition await_connect (p : Provider) : M Provider :=
  match connect p with
  | None => set_connState Connected ;; ret p
  | Some msg =>
      set_connState Disconnected ;; throw (PipelineError BackendUnavailable msg)
  end.

(** Modelled from the spec: [ensureConnected] of the missing [mongodbTool.ts]
    (pipeline step 4).  A disconnected provider is connected now; a connect
    already in flight is awaited, not started again; a connection failure is
    the error [BackendUnavailable]. *)
Definition ensureConnected : M Provider :=
  s <- get_session ;;
  match connState s with
  | Connected => ret (serviceProvider s)
  | Connecting => await_connect (serviceProvider s)
  | Disconnected =>
      set_connState Connecting ;;
      emit EvConnect ;;
      await_connect (serviceProvider s)
  end.

(** Modelled from the spec: [getEffectiveDatabase] of the missing
    [mongodbTool.ts] (section 4.3).  The requested database if present and
    non-empty, else the session's configured default, else the error
    [DatabaseNotSpecified]. *)
Definition getEffectiveDatabase (requested : option string) : M string :=
  s <- get_session ;;
  match requested with
  | Some (String c rest) => ret (String c rest)
  | _ =>
      match defaultDatabase s with
      | Some d => ret d
      | None =>
          throw (PipelineError DatabaseNotSpecified
                   "No database specified and no default database configured")
      end
  end.

(** ** Argument schemas (zod) *)

Definition Schema (A : Type) : Type := option Value -> option A.

Definition z_string : Schema string := fun v =>
  match v with
  | Some (VStr s) => Some s
  | _ => None
  end.

Definition z_boolean : Schema bool := fun v =>
  match v with
  | Some (VBool b) => Some b
  | _ => None
  end.

Definition z_number : Schema Z := fun v =>
  match v with
  | Some (VNum n) => Some n
  | _ => None
  end.

Definition z_unknown : Schema (option Value) := fun v => Some v.

(** [z.record(z.string(), z.unknown())]: any plain object. *)
Definition z_record : Schema Value := fun v =>
  match v with
  | Some (VObj fields) => Some (VObj fields)
  | _ => None
  end.

Definition z_literal (lit : string) : Schema string := fun v =>
  match v with
  | Some (VStr s) => if String.eqb s lit then Some s else None
  | _ => None
  end.

Definition z_optional {A} (inner : Schema A) : Schema (option A) := fun v =>
  match v with
  | None => Some None
  | Some _ => option_map Some (inner v)
  end.

Definition z_default {A} (inner : Schema A) (d : A) : Schema A := fun v =>
  match v with
  | None => Some d
  | Some _ => inner v
  end.

Fixpoint all_valid {A} (inner : Schema A) (items : list Value) : option (list A) :=
  match items with
  | [] => Some []
  | x :: rest =>
      match inner (Some x), all_valid inner rest with
      | Some a, Some l => Some (a :: l)
      | _, _ => None
      end
  end.

Definition z_array {A} (inner : Schema A) : Schema (list A) := fun v =>
  match v with
  | Some (VArr items) => all_valid inner items
  | _ => None
  end.

Definition z_union {A} (first second : Schema A) : Schema A := fun v =>
  match first v with
  | Some a => Some a
  | None => second v
  end.

(** An object schema reads each key of the raw object. *)
Definition field {A} (k : string) (inner : Schema A) (raw : Value) : option A :=
  match raw with
  | VObj fields => inner (assoc k fields)
  | _ => None
  end.

Definition obind {A B} (o : option A) (k : A -> option B) : option B :=
  match o with
  | Some a => k a
  | None => None
  end.

Notation "x <-? o ;; k" := (obind o (fun x => k))
  (at level 61, o at next level, right associativity).

(** JavaScript truthiness of a value. *)
Definition truthy (v : Value) : bool :=
  match v with
  | VNull => false
  | VBool b => b
  | VNum n => negb (Z.eqb n 0)
  | VStr EmptyString => false
  | _ => true
  end.

(** Operations of the JavaScript and bson libraries the tools call. *)
Record Library : Type := mkLibrary {
  JSON_stringify : Value -> string;
  EJSON_parse : string -> JsError + Value;
  EJSON_stringify : Value -> string
}.

Definition lib_call {A} (r : JsError + A) : M A :=
  match r with
  | inl e => throw (JsThrown e)
  | inr a => ret a
  end.

(** The descriptor of one tool. *)
Record Tool : Type := mkTool {
  name : string;
  operationType : OperationType;
  argT : Type;
  argsShape : Value -> option argT;
  execute : argT -> M CallToolResult;
  handleError : Thrown -> argT -> M ProtocolResult
}.

(** Modelled from the spec: the generic [handleError] of the missing
    [tool.ts] (pipeline step 7).  An error of the session helpers keeps its
    kind; any other error is [ExecutionFailed], its text embedding the
    error's message. *)
Definition super_handleError (toolName : string) (error : Thrown)
  : M ProtocolResult :=
  match error with
  | PipelineError k msg => ret (ErrorResult k (mkResult [msg]))
  | JsThrown e =>
      ret (ErrorResult ExecutionFailed
             (mkResult [template ["Error running "; toolName; ": "; message e]]))
  end.

(** A result returned by a tool's own error translator. *)
Definition translated (text : string) : M ProtocolResult :=
  ret (ErrorResult DomainError (mkResult [text])).

(** ** The tools *)

(** Modelled from the spec: [DbOperationArgs] of the missing [mongodbTool.ts],
    an optional [database] (the effective database falls back to the
    session's default) and a [collection]. *)
Record DbOperationArgs : Type := mkDbOperationArgs {
  database : option string;
  collection : string
}.

Definition DbOperationArgs_database : Schema (option string) := z_optional z_string.

Definition DbOperationArgs_collection : Schema string := z_string.

Definition DbOperationArgs_shape (raw : Value) : option DbOperationArgs :=
  d <-? field "database" DbOperationArgs_database raw ;;
  c <-? field "collection" DbOperationArgs_collection raw ;;
  Some (mkDbOperationArgs d c).

(** [FindArgs] of [read/find.ts]. *)
Record FindArgs : Type := mkFindArgs {
  find_filter : option Value;
  find_projection : option Value;
  find_limit : Z;
  find_sort : option Value
}.

Definition FindArgs_shape (raw : Value) : option FindArgs :=
  f <-? field "filter" (z_optional z_record) raw ;;
  p <-? field "projection" (z_optional z_record) raw ;;
  l <-? field "limit" (z_default z_number 0%Z) raw ;;
  s <-? field "sort" (z_optional z_record) raw ;;
  Some (mkFindArgs f p l s).

(** [AggregateArgs] of [read/aggregate.ts]. *)
Definition AggregateArgs_shape (raw : Value) : option (list Value) :=
  field "pipeline" (z_array z_record) raw.

(** The rest of a find-method's arguments once [filter] is taken out. *)
Definition find_rest (a : FindArgs) : FindOptions :=
  mkFindOptions (find_projection a) (find_limit a) (find_sort a).

Section Tools.

Variable lib : Library.

(** The schema [CountArgs] of [read/count.ts], a file that is not at hand;
    [explain] reads the [query] of the arguments it validates. *)
Variable CountArgs_shape : Value -> option (option Value).

(** *** metadata/listCollections.ts *)

Definition ListCollectionsTool_execute (database : option string)
  : M CallToolResult :=
  provider <- ensureConnected ;;
  effectiveDatabase <- getEffectiveDatabase database ;;
  collections <- backend_call (OpListCollections effectiveDatabase)
      (respond_names provider (OpListCollections effectiveDatabase)) ;;
  if Nat.eqb (length collections) 0 then
    ret (mkResult
      [template ["No collections found for database "; dq; show_optional database; dq;
                 ". To create a collection, use the "; dq; "create-collection"; dq;
                 " tool."]])
  else
    ret (mkResult
      (map (fun collection_name => template ["Name: "; dq; collection_name; dq])
           collections)).

Definition ListCollectionsTool : Tool := {|
  name := "list-collections";
  operationType := metadata;
  argsShape := field "database" DbOperationArgs_database;
  execute := ListCollectionsTool_execute;
  handleError := fun error _ => super_handleError "list-collections" error
|}.

(** *** The db-stats tool *)

Definition dbStats_command : Value := VObj [("dbStats", VNum 1); ("scale", VNum 1)].

Definition DbStatsTool_execute (database : option string) : M CallToolResult :=
  provider <- ensureConnected ;;
  effectiveDatabase <- getEffectiveDatabase database ;;
  result <- backend_call (OpRunCommand effectiveDatabase dbStats_command)
      (respond_document provider (OpRunCommand effectiveDatabase dbStats_command)) ;;
  ret (mkResult
    [template ["Statistics for database "; effectiveDatabase];
     EJSON_stringify lib result]).

Definition DbStatsTool : Tool := {|
  name := "db-stats";
  operationType := metadata;
  argsShape := field "database" DbOperationArgs_database;
  execute := DbStatsTool_execute;
  handleError := fun error _ => super_handleError "db-stats" error
|}.

(** *** The collection-indexes tool *)

Definition CollectionIndexesTool_execute (args : DbOperationArgs)
  : M CallToolResult :=
  provider <- ensureConnected ;;
  effectiveDatabase <- getEffectiveDatabase (database args) ;;
  indexes <- backend_call (OpGetIndexes effectiveDatabase (collection args))
      (respond_indexes provider (OpGetIndexes effectiveDatabase (collection args))) ;;
  ret (mkResult
    (template ["Found "; string_of_nat (length indexes); " indexes in the collection ";
               dq; collection args; dq; ":"]
     :: map (fun indexDefinition =>
               template ["Name "; dq; index_name indexDefinition; dq; ", definition: ";
                         JSON_stringify lib (index_key indexDefinition)])
            indexes)).

Definition CollectionIndexesTool_handleError (error : Thrown) (args : DbOperationArgs)
  : M ProtocolResult :=
  match error_codeName error with
  | Some code =>
      if code =? "NamespaceNotFound" then
        effectiveDatabase <- getEffectiveDatabase (database args) ;;
        translated
          (template ["The indexes for "; dq; effectiveDatabase; "."; collection args; dq;
                     " cannot be determined because the collection does not exist."])
      else super_handleError "collection-indexes" error
  | None => super_handleError "collection-indexes" error
  end.

Definition CollectionIndexesTool : Tool := {|
  name := "collection-indexes";
  operationType := read;
  argsShape := DbOperationArgs_shape;
  execute := CollectionIndexesTool_execute;
  handleError := CollectionIndexesTool_handleError
|}.

(** *** metadata/explain.ts *)

(** One element of the validated [method] array. *)
Inductive Method : Type :=
| MethodAggregate (pipeline : list Value)
| MethodFind (arguments : FindArgs)
| MethodCount (query : option Value).

Definition method_name (m : Method) : string :=
  match m with
  | MethodAggregate _ => "aggregate"
  | MethodFind _ => "find"
  | MethodCount _ => "count"
  end.

Definition Method_variant {A} (lit : string) (inner : Value -> option A)
  (wrap : A -> Method) : Schema Method := fun v =>
  match v with
  | Some (VObj fields) =>
      _ <-? z_literal lit (assoc "name" fields) ;;
      match assoc "arguments" fields with
      | Some (VObj a) => option_map wrap (inner (VObj a))
      | _ => None
      end
  | _ => None
  end.

Definition Method_shape : Schema Method :=
  z_union (Method_variant "aggregate" AggregateArgs_shape MethodAggregate)
    (z_union (Method_variant "find" FindArgs_shape MethodFind)
       (Method_variant "count" CountArgs_shape MethodCount)).

Record ExplainArgs : Type := mkExplainArgs {
  explain_db : DbOperationArgs;
  explain_method : list Method
}.

Definition ExplainArgs_shape (raw : Value) : option ExplainArgs :=
  d <-? DbOperationArgs_shape raw ;;
  m <-? field "method" (z_array Method_shape) raw ;;
  Some (mkExplainArgs d m).

(** [ExplainVerbosity.queryPlanner] of the driver. *)
Definition defaultVerbosity : string := "queryPlanner".

Definition no_method_message : string :=
  template ["No method provided. Expected one of the following: "; bq; "aggregate"; bq;
            ", "; bq; "find"; bq; ", or "; bq; "count"; bq].

Definition ExplainTool_execute (args : ExplainArgs) : M CallToolResult :=
  let collection := collection (explain_db args) in
  provider <- ensureConnected ;;
  effectiveDatabase <- getEffectiveDatabase (database (explain_db args)) ;;
  match nth_error (explain_method args) 0 with
  | None => throw (new_Error no_method_message)
  | Some method =>
      result <-
        match method with
        | MethodAggregate pipeline =>
            let op := OpExplainAggregate effectiveDatabase collection pipeline
                        defaultVerbosity in
            backend_call op (respond_document provider op)
        | MethodFind arguments =>
            let op := OpExplainFind effectiveDatabase collection (find_filter arguments)
                        (find_rest arguments) defaultVerbosity in
            backend_call op (respond_document provider op)
        | MethodCount query =>
            let op := OpExplainCount effectiveDatabase collection query
                        defaultVerbosity in
            backend_call op (respond_document provider op)
        end ;;
      ret (mkResult
        [template ["Here is some information about the winning plan chosen by the query optimizer for running the given ";
                   bq; method_name method; bq; " operation in "; dq; effectiveDatabase;
                   "."; collection; dq;
                   ". This information can be used to understand how the query was executed and to optimize the query performance."];
         JSON_stringify lib result])
  end.

Definition ExplainTool : Tool := {|
  name := "explain";
  operationType := metadata;
  argsShape := ExplainArgs_shape;
  execute := ExplainTool_execute;
  handleError := fun error _ => super_handleError "explain" error
|}.

(** *** update/renameCollection.ts *)

Record RenameCollectionArgs : Type := mkRenameCollectionArgs {
  rename_db : DbOperationArgs;
  newName : string;
  dropTarget : bool
}.

Definition RenameCollectionArgs_shape (raw : Value) : option RenameCollectionArgs :=
  d <-? DbOperationArgs_shape raw ;;
  n <-? field "newName" z_string raw ;;
  t <-? field "dropTarget" (z_default z_boolean false) raw ;;
  Some (mkRenameCollectionArgs d n t).

Definition RenameCollectionTool_execute (args : RenameCollectionArgs)
  : M CallToolResult :=
  let collection := collection (rename_db args) in
  provider <- ensureConnected ;;
  effectiveDatabase <- getEffectiveDatabase (database (rename_db args)) ;;
  let op := OpRenameCollection effectiveDatabase collection (newName args)
              (dropTarget args) in
  result_collectionName <- backend_call op (respond_name provider op) ;;
  ret (mkResult
    [template ["Collection "; dq; collection; dq; " renamed to "; dq;
               result_collectionName; dq; " in database "; dq; effectiveDatabase; dq;
               "."]]).

(** The text of the [NamespaceExists] case of [handleError]. *)
Definition rename_exists_text (effectiveDatabase : string)
  (args : RenameCollectionArgs) : string :=
  template ["Cannot rename "; dq; effectiveDatabase; "."; collection (rename_db args);
            dq; " to "; dq; newName args; dq;
            " because the target collection already exists. If you want to overwrite it, set the ";
            dq; "dropTarget"; dq; " argument to true."].

Definition RenameCollectionTool_handleError (error : Thrown)
  (args : RenameCollectionArgs) : M ProtocolResult :=
  match error_codeName error with
  | Some code =>
      effectiveDatabase <- getEffectiveDatabase (database (rename_db args)) ;;
      if code =? "NamespaceNotFound" then
        translated
          (template ["Cannot rename "; dq; effectiveDatabase; ".";
                     collection (rename_db args); dq; " because it doesn't exist."])
      else if code =? "NamespaceExists" then
        translated (rename_exists_text effectiveDatabase args)
      else super_handleError "rename-collection" error
  | None => super_handleError "rename-collection" error
  end.

Definition RenameCollectionTool : Tool := {|
  name := "rename-collection";
  operationType := update;
  argsShape := RenameCollectionArgs_shape;
  execute := RenameCollectionTool_execute;
  handleError := RenameCollectionTool_handleError
|}.

(** *** read/find.ts *)

Record FindToolArgs : Type := mkFindToolArgs {
  find_db : DbOperationArgs;
  find_args : FindArgs
}.

Definition FindToolArgs_shape (raw : Value) : option FindToolArgs :=
  d <-? DbOperationArgs_shape raw ;;
  a <-? FindArgs_shape raw ;;
  Some (mkFindToolArgs d a).

(** [filter ? EJSON.parse(JSON.stringify(filter)) : filter] *)
Definition parse_filter (filter : option Value) : M (option Value) :=
  match filter with
  | Some f =>
      if truthy f then
        parsed <- lib_call (EJSON_parse lib (JSON_stringify lib f)) ;;
        ret (Some parsed)
      else ret (Some f)
  | None => ret None
  end.

Definition documents_content (collection : string) (documents : list Value)
  : CallToolResult :=
  mkResult
    (template ["Found "; string_of_nat (length documents);
               " documents in the collection "; dq; collection; dq; ":"]
     :: map (EJSON_stringify lib) documents).

Definition FindTool_execute (args : FindToolArgs) : M CallToolResult :=
  let collection := collection (find_db args) in
  provider <- ensureConnected ;;
  effectiveDatabase <- getEffectiveDatabase (database (find_db args)) ;;
  emit (EvConsoleLog "effectiveDatabase") ;;
  emit (EvConsoleLog "collection") ;;
  emit (EvConsoleLog "projection") ;;
  emit (EvConsoleLog "limit") ;;
  emit (EvConsoleLog "sort") ;;
  parsedFilter <- parse_filter (find_filter (find_args args)) ;;
  emit (EvConsoleLog "filter") ;;
  let op := OpFind effectiveDatabase collection parsedFilter
              (find_rest (find_args args)) in
  documents <- backend_call op (respond_documents provider op) ;;
  emit (EvConsoleLog "These are the documents") ;;
  ret (documents_content collection documents).

Definition FindTool : Tool := {|
  name := "find";
  operationType := read;
  argsShape := FindToolArgs_shape;
  execute := FindTool_execute;
  handleError := fun error _ => super_handleError "find" error
|}.

(** *** The drop-collection tool *)

Definition DropCollectionTool_execute (args : DbOperationArgs) : M CallToolResult :=
  provider <- ensureConnected ;;
  effectiveDatabase <- getEffectiveDatabase (database args) ;;
  let op := OpDropCollection effectiveDatabase (collection args) in
  result <- backend_call op (respond_bool provider op) ;;
  ret (mkResult
    [template [if result : bool then "Successfully dropped" else "Failed to drop";
               " collection "; dq; collection args; dq; " from database "; dq;
               effectiveDatabase; dq]]).

Definition DropCollectionTool : Tool := {|
  name := "drop-collection";
  operationType := delete;
  argsShape := DbOperationArgs_shape;
  execute := DropCollectionTool_execute;
  handleError := fun error _ => super_handleError "drop-collection" error
|}.

(** *** read/aggregate.ts *)

Record AggregateToolArgs : Type := mkAggregateToolArgs {
  aggregate_db : DbOperationArgs;
  aggregate_pipeline : list Value
}.

Definition AggregateToolArgs_shape (raw : Value) : option AggregateToolArgs :=
  d <-? DbOperationArgs_shape raw ;;
  p <-? AggregateArgs_shape raw ;;
  Some (mkAggregateToolArgs d p).

(** [pipeline ? EJSON.parse(JSON.stringify(pipeline)) : pipeline] *)
Definition parse_pipeline (pipeline : list Value) : M Value :=
  if truthy (VArr pipeline) then
    lib_call (EJSON_parse lib (JSON_stringify lib (VArr pipeline)))
  else ret (VArr pipeline).

Definition AggregateTool_execute (args : AggregateToolArgs) : M CallToolResult :=
  let collection := collection (aggregate_db args) in
  provider <- ensureConnected ;;
  effectiveDatabase <- getEffectiveDatabase (database (aggregate_db args)) ;;
  parsedPipeline <- parse_pipeline (aggregate_pipeline args) ;;
  let op := OpAggregate effectiveDatabase collection parsedPipeline in
  documents <- backend_call op (respond_documents provider op) ;;
  ret (documents_content collection documents).

Definition AggregateTool : Tool := {|
  name := "aggregate";
  operationType := read;
  argsShape := AggregateToolArgs_shape;
  execute := AggregateTool_execute;
  handleError := fun error _ => super_handleError "aggregate" error
|}.

(** *** create/insertMany.ts *)

Record InsertManyArgs : Type := mkInsertManyArgs {
  insert_db : DbOperationArgs;
  documents : list Value
}.

Definition InsertManyArgs_shape (raw : Value) : option InsertManyArgs :=
  d <-? DbOperationArgs_shape raw ;;
  docs <-? field "documents" (z_array z_record) raw ;;
  Some (mkInsertManyArgs d docs).

Definition InsertManyTool_execute (args : InsertManyArgs) : M CallToolResult :=
  let collection := collection (insert_db args) in
  provider <- ensureConnected ;;
  effectiveDatabase <- getEffectiveDatabase (database (insert_db args)) ;;
  let op := OpInsertMany effectiveDatabase collection (documents args) in
  result <- backend_call op (respond_insert provider op) ;;
  ret (mkResult
    [template ["Inserted "; bq; string_of_nat (insertedCount result); bq;
               " document(s) into collection "; dq; collection; dq];
     template ["Inserted IDs: "; String.concat ", " (insertedIds result)]]).

Definition InsertManyTool : Tool := {|
  name := "insert-many";
  operationType := create;
  argsShape := InsertManyArgs_shape;
  execute := InsertManyTool_execute;
  handleError := fun error _ => super_handleError "insert-many" error
|}.

(** *** create/createCollection.ts *)

Definition CreateCollectionTool_execute (args : DbOperationArgs) : M CallToolResult :=
  provider <- ensureConnected ;;
  effectiveDatabase <- getEffectiveDatabase (database args) ;;
  let op := OpCreateCollection effectiveDatabase (collection args) in
  backend_call op (respond_document provider op) ;;
  ret (mkResult
    [template ["Collection "; dq; collection args; dq; " created in database "; dq;
               effectiveDatabase; dq; "."]]).

Definition CreateCollectionTool : Tool := {|
  name := "create-collection";
  operationType := create;
  argsShape := DbOperationArgs_shape;
  execute := CreateCollectionTool_execute;
  handleError := fun error _ => super_handleError "create-collection" error
|}.

(** *** delete/dropDatabase.ts *)

Definition DropDatabaseTool_execute (database : option string) : M CallToolResult :=
  provider <- ensureConnected ;;
  effectiveDatabase <- getEffectiveDatabase database ;;
  let op := OpDropDatabase effectiveDatabase in
  result_ok <- backend_call op (respond_bool provider op) ;;
  ret (mkResult
    [template [if result_ok : bool then "Successfully dropped" else "Failed to drop";
               " database "; dq; effectiveDatabase; dq]]).

Definition DropDatabaseTool : Tool := {|
  name := "drop-database";
  operationType := delete;
  argsShape := field "database" DbOperationArgs_database;
  execute := DropDatabaseTool_execute;
  handleError := fun error _ => super_handleError "drop-database" error
|}.

(** The tool classes at hand, in the order of their categories. *)
Definition SourceTools : list Tool :=
  [ListCollectionsTool; DbStatsTool; ExplainTool; CollectionIndexesTool; FindTool;
   AggregateTool; InsertManyTool; CreateCollectionTool; RenameCollectionTool;
   DropCollectionTool; DropDatabaseTool].

End Tools.

(** The code names each tool's own [handleError] answers itself. *)
Definition claimed_codeNames (toolName : string) : list string :=
  if toolName =? "rename-collection" then ["NamespaceNotFound"; "NamespaceExists"]
  else if toolName =? "collection-indexes" then ["NamespaceNotFound"]
  else [].

Definition translator_claims (toolName : string) (error : Thrown) : bool :=
  match error_codeName error with
  | Some code => existsb (String.eqb code) (claimed_codeNames toolName)
  | None => false
  end.

(** ** The execution pipeline *)

(** The configuration object, with the fields the sources read. *)
Record UserConfig : Type := mkUserConfig {
  apiBaseUrl : string;
  apiClientId : option string;
  apiClientSecret : option string;
  connectionString : option string;
  readOnly : bool;
  disabledTools : list string
}.

(** Categories that change backend state. *)
Definition is_write (c : OperationType) : bool :=
  match c with
  | read | metadata => false
  | create | update | delete => true
  end.

(** Modelled from the spec: the tool registry of the missing [tool.ts] and
    [server.ts] (section 4.1): the registered descriptors without those whose
    name is in the disabled set, in registration order, resolved by name. *)
Definition registry (cfg : UserConfig) (tools : list Tool) : list Tool :=
  filter (fun t => negb (existsb (String.eqb (name t)) (disabledTools cfg))) tools.

Definition resolve (reg : list Tool) (toolName : string) : option Tool :=
  find (fun t => String.eqb (name t) toolName) reg.

Definition error_result (k : ErrorKind) (text : string) : ProtocolResult :=
  ErrorResult k (mkResult [text]).

(** The [database] argument of a raw call, when it is a string. *)
Definition requested_database (raw : Value) : option string :=
  match prop "database" raw with
  | Some (VStr d) => Some d
  | _ => None
  end.

(** Modelled from the spec: pipeline steps 6 and 7 of the missing [tool.ts].
    The execute function is invoked; what it returns is passed through; what
    it raises goes to the tool's [handleError]; an error escaping the handler
    is [InternalError]. *)
Definition run_tool (t : Tool) (args : argT t) : M ProtocolResult :=
  emit (EvInvoke (name t)) ;;
  try_catch (r <- execute t args ;; ret (Success r))
    (fun error =>
       try_catch (handleError t error args)
         (fun escaped => ret (error_result InternalError (thrown_message escaped)))).

(** Modelled from the spec: the result of a failed step 4 or 5 (section 7),
    an ordinary result of the error's kind carrying its text. *)
Definition step_failed (error : Thrown) : ProtocolResult :=
  match error with
  | PipelineError k msg => error_result k msg
  | JsThrown e => error_result InternalError (message e)
  end.

(** Modelled from the spec: pipeline steps 4 and 5 of the missing [tool.ts].
    The session's provider is connected, then the effective database of the
    call is resolved. *)
Definition connect_and_resolve (raw : Value) : M string :=
  ensureConnected ;; getEffectiveDatabase (requested_database raw).

(** Modelled from the spec: pipeline steps 4 to 7 of the missing [tool.ts].
    A failure of step 4 or 5 is the result of the call and execute is not
    invoked; otherwise the call goes on to [run_tool].  The execute functions
    at hand take the arguments only and call [ensureConnected] and
    [getEffectiveDatabase] again at their head. *)
Definition proceed (t : Tool) (raw : Value) (args : argT t) : M ProtocolResult :=
  ready <- try_catch (db <- connect_and_resolve raw ;; ret (inr db))
             (fun error => ret (inl (step_failed error))) ;;
  match ready with
  | inl failure => ret failure
  | inr _ => run_tool t args
  end.

(** Modelled from the spec: the execution pipeline of the missing [tool.ts]
    (section 4.2): steps 1 to 3 here, then steps 4 to 7 in [proceed]. *)
Definition callTool (cfg : UserConfig) (tools : list Tool) (toolName : string)
  (raw : Value) : M ProtocolResult :=
  match resolve (registry cfg tools) toolName with
  | None => ret (error_result UnknownTool (template ["Unknown tool: "; toolName]))
  | Some t =>
      match argsShape t raw with
      | None =>
          ret (error_result InvalidArguments
                 (template ["Invalid arguments for tool "; name t]))
      | Some args =>
          if readOnly cfg && is_write (operationType t) then
            ret (error_result OperationNotPermitted
                   (template ["Tool "; name t; " is not permitted in read-only mode"]))
          else proceed t raw args
      end
  end.

(** ** Sample collaborators, for evaluating the definitions *)

Definition sample_library : Library := {|
  JSON_stringify := fun _ => "{}";
  EJSON_parse := fun text => inr (VStr text);
  EJSON_stringify := fun _ => "{}"
|}.

Definition sample_count_shape (raw : Value) : option (option Value) :=
  field "query" (z_optional z_record) raw.

Definition exists_error : JsError :=
  mkJsError true (Some "NamespaceExists") "MongoServerError: target namespace exists".

(** A provider that connects and answers every operation, except that a
    rename onto the collection [taken] is refused. *)
Definition sample_provider : Provider := {|
  connect := None;
  respond_documents := fun _ => inr [];
  respond_document := fun _ => inr (VObj []);
  respond_insert := fun _ => inr (mkInsertManyResult 0 []);
  respond_bool := fun _ => inr true;
  respond_name := fun op =>
    match op with
    | OpRenameCollection _ _ "taken" false => inl exists_error
    | OpRenameCollection _ _ n _ => inr n
    | _ => inr "collection"
    end;
  respond_names := fun _ => inr [];
  respond_indexes := fun _ => inr []
|}.

Definition sample_session (default : option string) : Session :=
  mkSession sample_provider Disconnected default.

Definition sample_config (ro : bool) : UserConfig :=
  mkUserConfig "https://cloud.mongodb.com/" None None (Some "mongodb://localhost") ro [].

(** ** The HTTP front-ends

    [http-server.ts] and its two later variants, one serving Server-Sent
    Events on [/sse], one serving Streamable HTTP on [/mcp].  Objects made
    with [new] are told apart by the number they are allocated under. *)

Inductive LogLevel : Type := info | error | emergency.

Inductive LogId : Type :=
| serverInitialized
| serverStartFailure
| serverCloseRequested
| serverClosed
| serverCloseFailure.

(** A [Server] with the session and the protocol server it was built from. *)
Record ServerObj : Type := mkServerObj {
  server_id : nat;
  server_session : nat;
  server_mcpServer : nat
}.

Inductive HttpEvent : Type :=
| NewSession (id : nat)
| NewMcpServer (id : nat)
| TelemetryCreate (session : nat)
| NewServer (server : ServerObj)
| ValidateConfiguration (server : nat)
| NewSSEServerTransport (id : nat)
| NewStreamableHTTPServerTransport (id : nat) (sessionIdGenerator : option nat)
| ServerConnect (server transport : nat)
| ServerClose (server : nat)
| TransportHandleRequest (transport : nat)
| TransportClose (transport : nat)
| Listen
| HttpServerClose
| WriteHead (status : nat)
| StatusJson (status : nat) (body : string)
| Log (level : LogLevel) (id : LogId) (msg : string)
| ConsoleLog (msg : string)
| ConsoleError (msg : string)
| ProcessExit (code : nat).

(** A request (or response) whose listeners are registered, with what the
    listeners hold on to. *)
Record Connection : Type := mkConnection {
  conn_req : nat;
  conn_transport : nat;
  conn_server : option ServerObj
}.

Record HttpState : Type := mkHttpState {
  next_id : nat;
  globalServer : option ServerObj;
  isServerInitialized : bool;
  connections : list Connection;
  exited : option nat
}.

Definition H (A : Type) : Type := HttpState -> A * HttpState * list HttpEvent.

Definition hret {A} (a : A) : H A := fun s => (a, s, []).

Definition hbind {A B} (m : H A) (k : A -> H B) : H B := fun s =>
  match m s with
  | (a, s1, t1) =>
      match k a s1 with
      | (b, s2, t2) => (b, s2, t1 ++ t2)
      end
  end.

Declare Scope h_scope.
Delimit Scope h_scope with h.
Notation "x <- m ;; k" := (hbind m (fun x => k))
  (at level 61, m at next level, right associativity) : h_scope.
Notation "m ;; k" := (hbind m (fun _ => k))
  (at level 61, right associativity) : h_scope.

Definition hemit (ev : HttpEvent) : H unit := fun s => (tt, s, [ev]).

Definition hget : H HttpState := fun s => (s, s, []).

(** Allocation of a new object. *)
Definition fresh : H nat := fun s =>
  (next_id s,
   mkHttpState (S (next_id s)) (globalServer s) (isServerInitialized s)
     (connections s) (exited s),
   []).

Definition set_global (server : ServerObj) : H unit := fun s =>
  (tt, mkHttpState (next_id s) (Some server) true (connections s) (exited s), []).

Definition set_connections (l : list Connection) : H unit := fun s =>
  (tt, mkHttpState (next_id s) (globalServer s) (isServerInitialized s) l (exited s),
   []).

(** [process.exit(code)] *)
Definition process_exit (code : nat) : H unit := fun s =>
  (tt,
   mkHttpState (next_id s) (globalServer s) (isServerInitialized s) (connections s)
     (Some code),
   [ProcessExit code]).

Definition logger (level : LogLevel) (id : LogId) (msg : string) : H unit :=
  hemit (Log level id msg).

Section HttpHandlers.

Local Open Scope h_scope.

(** The four constructions every front-end repeats: a session, a protocol
    server, the telemetry, and the [Server] binding them. *)
Definition new_Server : H ServerObj :=
  session <- fresh ;;
  hemit (NewSession session) ;;
  mcpServer <- fresh ;;
  hemit (NewMcpServer mcpServer) ;;
  hemit (TelemetryCreate session) ;;
  id <- fresh ;;
  let server := mkServerObj id session mcpServer in
  hemit (NewServer server) ;;
  hret server.

(** An asynchronous call of a collaborator, with the outcome the environment
    gives it: [None] when it resolves, the error's text when it rejects. *)
Definition external (ev : HttpEvent) (outcome : option string) : H (option string) :=
  hemit ev ;; hret outcome.

(** *** The global server of the SSE and Streamable HTTP variants *)

Definition initializeGlobalServer (validate : option string)
  : H (string + ServerObj) :=
  s <- hget ;;
  match isServerInitialized s, globalServer s with
  | true, Some g => hret (inr g)
  | _, _ =>
      server <- new_Server ;;
      failure <- external (ValidateConfiguration (server_id server)) validate ;;
      match failure with
      | None =>
          set_global server ;;
          logger info serverInitialized "Global MCP server initialized successfully" ;;
          hret (inr server)
      | Some err =>
          logger error serverStartFailure
            (template ["Failed to initialize global MCP server: "; err]) ;;
          hret (inl err)
      end
  end.

(** The [shutdown] function of both variants.  [httpClosed] tells whether the
    callback of [httpServer.close] runs while the close of the global server
    is awaited. *)
Definition shutdown (signal : string) (httpClosed : bool) (close : option string)
  : H unit :=
  logger info serverCloseRequested
    (template [signal; " received - shutting down gracefully"]) ;;
  hemit HttpServerClose ;;
  s <- hget ;;
  failure <-
    match globalServer s with
    | Some g => external (ServerClose (server_id g)) close
    | None => hret None
    end ;;
  (if httpClosed then logger info serverClosed "HTTP server closed" else hret tt) ;;
  match failure with
  | None =>
      logger info serverClosed "MCP server closed successfully" ;;
      process_exit 0
  | Some err =>
      logger error serverCloseFailure (template ["Error closing MCP server: "; err]) ;;
      process_exit 1
  end.

(** The body of [startHttpServer] up to [app.listen], shared by both
    variants; the routes are the cases of [sse_step] and [mcp_step]. *)
Definition startHttpServer (validate : option string) : H bool :=
  started <- initializeGlobalServer validate ;;
  match started with
  | inr _ =>
      hemit Listen ;;
      hret true
  | inl err =>
      logger emergency serverStartFailure
        (template ["Fatal error starting HTTP server: "; err]) ;;
      hemit (ConsoleError "Failed to start HTTP server:") ;;
      process_exit 1 ;;
      hret false
  end.

Inductive SignalName : Type := SIGINT | SIGTERM.

Definition signal_name (sig : SignalName) : string :=
  match sig with
  | SIGINT => "SIGINT"
  | SIGTERM => "SIGTERM"
  end.

Definition lookup_connection (req : nat) (l : list Connection) : option Connection :=
  find (fun c => Nat.eqb (conn_req c) req) l.

Definition remove_connection (req : nat) (l : list Connection) : list Connection :=
  filter (fun c => negb (Nat.eqb (conn_req c) req)) l.

(** *** The SSE variant *)

(** The [close] and [error] handlers of a request close the server made for
    that request. *)
Definition close_connection_server (server : ServerObj) (close : option string)
  : H unit :=
  failure <- external (ServerClose (server_id server)) close ;;
  match failure with
  | None => hret tt
  | Some err =>
      logger error serverCloseFailure
        (template ["Error closing server for SSE client: "; err])
  end.

(** [app.get('/sse')].  The 200 head is written before the server is built
    and connected; the [close] and [error] listeners of the request are
    registered once [connect] has resolved.  A rejected [connect] is caught
    with the head already sent, so that no error response follows. *)
Definition sse_get (connect : option string) : H unit :=
  req <- fresh ;;
  s <- hget ;;
  match globalServer s, isServerInitialized s with
  | Some _, true =>
      logger info serverInitialized "New SSE client connecting..." ;;
      hemit (WriteHead 200) ;;
      transport <- fresh ;;
      hemit (NewSSEServerTransport transport) ;;
      server <- new_Server ;;
      failure <- external (ServerConnect (server_id server) transport) connect ;;
      match failure with
      | None =>
          logger info serverInitialized "MCP server connected via SSE for client" ;;
          s1 <- hget ;;
          set_connections (connections s1 ++ [mkConnection req transport (Some server)])
      | Some err =>
          logger error serverStartFailure
            (template ["Failed to setup SSE connection: "; err])
      end
  | _, _ =>
      logger error serverStartFailure "Global MCP server not initialized" ;;
      hemit (StatusJson 500 "MCP server not initialized")
  end.

(** [req.on('close')]: the listener registered for the request, if any.  It
    closes the server and takes no listener off. *)
Definition sse_req_close (req : nat) (close : option string) : H unit :=
  s <- hget ;;
  match lookup_connection req (connections s) with
  | Some (mkConnection _ _ (Some server)) =>
      logger info serverClosed "SSE client disconnected" ;;
      close_connection_server server close
  | _ => hret tt
  end.

(** [req.on('error')] *)
Definition sse_req_error (req : nat) (err : string) (close : option string) : H unit :=
  s <- hget ;;
  match lookup_connection req (connections s) with
  | Some (mkConnection _ _ (Some server)) =>
      logger error serverStartFailure (template ["SSE client error: "; err]) ;;
      close_connection_server server close
  | _ => hret tt
  end.

Inductive SseInput : Type :=
| GetSse (connect : option string)
| ReqClose (req : nat) (close : option string)
| ReqError (req : nat) (err : string) (close : option string)
| SseSignal (sig : SignalName) (httpClosed : bool) (close : option string).

Definition sse_handle (i : SseInput) : H unit :=
  match i with
  | GetSse connect => sse_get connect
  | ReqClose req close => sse_req_close req close
  | ReqError req err close => sse_req_error req err close
  | SseSignal sig httpClosed close => shutdown (signal_name sig) httpClosed close
  end.

(** A process that has exited handles nothing further. *)
Definition guarded (h : H unit) : H unit := fun s =>
  match exited s with
  | Some _ => (tt, s, [])
  | None => h s
  end.

(** The inputs of a process, served in the order they arrive, each handler
    running to its end before the next input is taken. *)
Fixpoint serve {I} (handle : I -> H unit) (inputs : list I) : H unit :=
  match inputs with
  | [] => hret tt
  | i :: rest => guarded (handle i) ;; serve handle rest
  end.

Definition initial_state : HttpState := mkHttpState 0 None false [] None.

(** The SSE process: start-up, then the inputs in the order they arrive. *)
Definition sse_process (validate : option string) (inputs : list SseInput) : H unit :=
  startHttpServer validate ;; serve sse_handle inputs.

(** *** The Streamable HTTP variant *)

Definition getServer : H ServerObj := new_Server.

Definition mcp_failed (headersSent : bool) : H unit :=
  hemit (ConsoleError "Error handling MCP request:") ;;
  if headersSent then hret tt else hemit (StatusJson 500 "Internal server error").

(** [app.post('/mcp')]; [headersSent] is read only when [handleRequest]
    rejects. *)
Definition mcp_post (connect handle : option string) (headersSent : bool) : H unit :=
  res <- fresh ;;
  hemit (ConsoleLog "Received MCP request:") ;;
  server <- getServer ;;
  transport <- fresh ;;
  hemit (NewStreamableHTTPServerTransport transport None) ;;
  s <- hget ;;
  set_connections (connections s ++ [mkConnection res transport None]) ;;
  failure <- external (ServerConnect (server_id server) transport) connect ;;
  match failure with
  | Some _ => mcp_failed false
  | None =>
      failure' <- external (TransportHandleRequest transport) handle ;;
      match failure' with
      | Some _ => mcp_failed headersSent
      | None => hret tt
      end
  end.

(** [res.on('close')] *)
Definition mcp_res_close (res : nat) : H unit :=
  s <- hget ;;
  match lookup_connection res (connections s) with
  | Some c =>
      hemit (TransportClose (conn_transport c)) ;;
      set_connections (remove_connection res (connections s))
  | None => hret tt
  end.

Definition mcp_method_not_allowed (msg : string) : H unit :=
  hemit (ConsoleLog msg) ;; hemit (WriteHead 405).

Inductive McpInput : Type :=
| PostMcp (connect handle : option string) (headersSent : bool)
| ResClose (res : nat)
| GetMcp
| DeleteMcp
| McpSignal (sig : SignalName) (httpClosed : bool) (close : option string).

Definition mcp_handle (i : McpInput) : H unit :=
  match i with
  | PostMcp connect handle headersSent => mcp_post connect handle headersSent
  | ResClose res => mcp_res_close res
  | GetMcp => mcp_method_not_allowed "Received GET MCP request"
  | DeleteMcp => mcp_method_not_allowed "Received DELETE MCP request"
  | McpSignal sig httpClosed close => shutdown (signal_name sig) httpClosed close
  end.

Definition mcp_process (validate : option string) (inputs : list McpInput) : H unit :=
  startHttpServer validate ;; serve mcp_handle inputs.

(** *** The first wrapper, [http-server.ts]

    One [Server] is built in [startHttpServer]; the handlers capture it. *)

Definition wrapper_start : H ServerObj :=
  server <- new_Server ;;
  hemit Listen ;;
  hret server.

(** [app.get('/sse')] *)
Definition wrapper_sse_get (server : ServerObj) (connect : option string) : H unit :=
  transport <- fresh ;;
  hemit (NewSSEServerTransport transport) ;;
  failure <- external (ServerConnect (server_id server) transport) connect ;;
  match failure with
  | None => logger info serverInitialized "MCP server connected via SSE"
  | Some err =>
      logger error serverStartFailure (template ["Failed to connect MCP server: "; err]) ;;
      hemit (StatusJson 500 "Failed to initialize MCP server")
  end.

(** The handlers of SIGINT and SIGTERM, which differ in their first message. *)
Definition wrapper_signal (server : ServerObj) (sig : SignalName) (httpClosed : bool)
  (close : option string) : H unit :=
  logger info serverCloseRequested
    (match sig with
     | SIGINT => "HTTP server close requested"
     | SIGTERM => "HTTP server termination requested"
     end) ;;
  hemit HttpServerClose ;;
  failure <- external (ServerClose (server_id server)) close ;;
  (if httpClosed then logger info serverClosed "HTTP server closed" else hret tt) ;;
  match failure with
  | None =>
      logger info serverClosed "MCP server closed successfully" ;;
      process_exit 0
  | Some err =>
      logger error serverCloseFailure (template ["Error closing MCP server: "; err]) ;;
      process_exit 1
  end.

Inductive WrapperInput : Type :=
| WrapperGetSse (connect : option string)
| WrapperPostTool
| WrapperSignal (sig : SignalName) (httpClosed : bool) (close : option string).

Definition wrapper_handle (server : ServerObj) (i : WrapperInput) : H unit :=
  match i with
  | WrapperGetSse connect => wrapper_sse_get server connect
  | WrapperPostTool => hemit (StatusJson 501 "Direct tool execution not implemented")
  | WrapperSignal sig httpClosed close => wrapper_signal server sig httpClosed close
  end.

Definition wrapper_process (inputs : list WrapperInput) : H unit :=
  server <- wrapper_start ;; serve (wrapper_handle server) inputs.

End HttpHandlers.

Definition http_trace {A} (r : A * HttpState * list HttpEvent) : list HttpEvent := snd r.

Definition http_state {A} (r : A * HttpState * list HttpEvent) : HttpState :=
  snd (fst r).

(** The sessions constructed in a trace, in order. *)
Definition sessions_created (t : list HttpEvent) : list nat :=
  flat_map (fun ev => match ev with NewSession id => [id] | _ => [] end) t.

(** The servers closed in a trace, in order. *)
Definition servers_closed (t : list HttpEvent) : list nat :=
  flat_map (fun ev => match ev with ServerClose id => [id] | _ => [] end) t.

(** [a] occurs in the trace, and [b] occurs later. *)
Definition precedes (a b : HttpEvent) (t : list HttpEvent) : Prop :=
  exists l1 l2 l3, t = l1 ++ a :: l2 ++ b :: l3.

(** *** The info endpoint *)

(** [helpers/packageInfo.js] is not at hand; the handlers read two fields. *)
Record PackageInfo : Type := mkPackageInfo {
  mcpServerName : string;
  version : string
}.

(** [!!s] for an optional string. *)
Definition truthy_string (o : option string) : bool :=
  match o with
  | Some (String _ _) => true
  | _ => false
  end.

(** [!!(config.apiClientId && config.apiClientSecret)] *)
Definition hasAtlasCredentials (config : UserConfig) : bool :=
  if truthy_string (apiClientId config) then truthy_string (apiClientSecret config)
  else false.

(** [!!config.connectionString] *)
Definition hasConnectionString (config : UserConfig) : bool :=
  truthy_string (connectionString config).

(** The [config] object of the info payload, the same in the three files. *)
Definition info_config (config : UserConfig) : Value :=
  VObj [("hasAtlasCredentials", VBool (hasAtlasCredentials config));
        ("hasConnectionString", VBool (hasConnectionString config));
        ("readOnly", VBool (readOnly config));
        ("disabledTools", VArr (map VStr (disabledTools config)))].

(** [app.get('/info')] of [http-server.ts] *)
Definition wrapper_info (pkg : PackageInfo) (config : UserConfig) : Value :=
  VObj [("name", VStr (mcpServerName pkg));
        ("version", VStr (version pkg));
        ("description", VStr "MongoDB MCP Server HTTP Wrapper");
        ("config", info_config config)].

(** [app.get('/info')] of the SSE variant *)
Definition sse_info (pkg : PackageInfo) (config : UserConfig) : Value :=
  VObj [("name", VStr (mcpServerName pkg));
        ("version", VStr (version pkg));
        ("description", VStr "MongoDB MCP Server HTTP Wrapper");
        ("transport", VStr "SSE (Server-Sent Events)");
        ("endpoints", VObj [("health", VStr "/health"); ("info", VStr "/info");
                            ("sse", VStr "/sse")]);
        ("config", info_config config)].

(** [app.get('/info')] of the Streamable HTTP variant *)
Definition mcp_info (pkg : PackageInfo) (config : UserConfig) : Value :=
  VObj [("name", VStr (mcpServerName pkg));
        ("version", VStr (version pkg));
        ("description", VStr "MongoDB MCP Server HTTP Wrapper");
        ("transport", VStr "Streamable HTTP");
        ("endpoints", VObj [("health", VStr "/health"); ("info", VStr "/info");
                            ("mcp", VStr "/mcp")]);
        ("config", info_config config)].

Definition info_endpoints : list (PackageInfo -> UserConfig -> Value) :=
  [wrapper_info; sse_info; mcp_info].

(** Two configurations that differ at most in the secret values. *)
Definition same_but_secrets (c1 c2 : UserConfig) : Prop :=
  apiBaseUrl c1 = apiBaseUrl c2 /\
  readOnly c1 = readOnly c2 /\
  disabledTools c1 = disabledTools c2.

(** ** Concurrent callers of one session's connect *)

(** Modelled from the spec: a tool call asking the session for its
    connection (section 4.2, step 4): about to call, awaiting a connect
    attempt, holding the connected instance, or failed with
    [BackendUnavailable]. *)

Inductive Caller : Type :=
| Ready
| Awaiting (attempt : nat)
| Got (instance : nat)
| Failed.

(** Modelled from the spec: the provider state of section 3 with the
    memoized connect: the connected instance, the attempt in flight, the
    number of attempts made, their outcomes, and the callers. *)
Record MemoState : Type := mkMemoState {
  memo_provider : option nat;
  memo_inflight : option nat;
  memo_attempts : nat;
  memo_settled : list (nat * option nat);
  memo_callers : list Caller
}.

Inductive Action : Type :=
| Call (i : nat)
| Settle (ok : bool)
| Resume (i : nat).

Fixpoint set_nth {A} (i : nat) (x : A) (l : list A) : list A :=
  match l, i with
  | [], _ => []
  | _ :: rest, 0 => x :: rest
  | y :: rest, S j => y :: set_nth j x rest
  end.

Fixpoint outcome_of_attempt (a : nat) (settled : list (nat * option nat))
  : option (option nat) :=
  match settled with
  | [] => None
  | (b, o) :: rest => if Nat.eqb a b then Some o else outcome_of_attempt a rest
  end.

Definition with_caller (s : MemoState) (i : nat) (c : Caller) : MemoState :=
  mkMemoState (memo_provider s) (memo_inflight s) (memo_attempts s) (memo_settled s)
    (set_nth i c (memo_callers s)).

(** Modelled from the spec: one step of the event loop, for the connect
    memoization of the missing [session.ts] and [mongodbTool.ts] (section 3,
    section 4.2 step 4, section 5).  Calls interleave at their suspension
    points only; a call that finds the provider disconnected starts a connect
    attempt unless one is in flight, in which case it awaits that attempt;
    every caller awaiting an attempt resumes with that attempt's outcome.  An
    action that is not enabled does nothing. *)
Definition memo_step (s : MemoState) (a : Action) : MemoState :=
  match a with
  | Call i =>
      match nth_error (memo_callers s) i with
      | Some Ready =>
          match memo_provider s, memo_inflight s with
          | Some p, _ => with_caller s i (Got p)
          | None, Some attempt => with_caller s i (Awaiting attempt)
          | None, None =>
              mkMemoState None (Some (memo_attempts s)) (S (memo_attempts s))
                (memo_settled s)
                (set_nth i (Awaiting (memo_attempts s)) (memo_callers s))
          end
      | _ => s
      end
  | Settle ok =>
      match memo_inflight s with
      | Some attempt =>
          if ok then
            mkMemoState (Some attempt) None (memo_attempts s)
              ((attempt, Some attempt) :: memo_settled s) (memo_callers s)
          else
            mkMemoState None None (memo_attempts s)
              ((attempt, None) :: memo_settled s) (memo_callers s)
      | None => s
      end
  | Resume i =>
      match nth_error (memo_callers s) i with
      | Some (Awaiting attempt) =>
          match outcome_of_attempt attempt (memo_settled s) with
          | Some (Some p) => with_caller s i (Got p)
          | Some None => with_caller s i Failed
          | None => s
          end
      | _ => s
      end
  end.

Definition memo_run (schedule : list Action) (s : MemoState) : MemoState :=
  fold_left memo_step schedule s.

(** A disconnected session with [n] tool calls about to ask for the
    connection. *)
Definition memo_init (n : nat) : MemoState :=
  mkMemoState None None 0 [] (repeat Ready n).

Definition connect_succeeds (a : Action) : bool :=
  match a with
  | Settle false => false
  | _ => true
  end.

(** ** Predicates and sample values used in the statements *)

(** What the two session helpers at the head of every execute function do. *)
Inductive Prelude (requested : option string) (s : Session)
  : Session -> list Event -> Thrown + string -> Prop :=
| Prelude_unavailable msg s1 t :
    connect (serviceProvider s) = Some msg ->
    s1 = mkSession (serviceProvider s) Disconnected (defaultDatabase s) ->
    connects_of t <= 1 ->
    ops_of t = [] -> invoked t = [] ->
    Prelude requested s s1 t (inl (PipelineError BackendUnavailable msg))
| Prelude_unspecified msg s1 t :
    s1 = mkSession (serviceProvider s) Connected (defaultDatabase s) ->
    defaultDatabase s = None ->
    (requested = None \/ requested = Some EmptyString) ->
    connects_of t <= 1 ->
    ops_of t = [] -> invoked t = [] ->
    Prelude requested s s1 t (inl (PipelineError DatabaseNotSpecified msg))
| Prelude_resolved db s1 t :
    s1 = mkSession (serviceProvider s) Connected (defaultDatabase s) ->
    getEffectiveDatabase requested s1 = (s1, [], inr db) ->
    connects_of t <= 1 ->
    ops_of t = [] -> invoked t = [] ->
    Prelude requested s s1 t (inr db).

Definition prelude (requested : option string) : M (Provider * string) :=
  provider <- ensureConnected ;;
  effectiveDatabase <- getEffectiveDatabase requested ;;
  ret (provider, effectiveDatabase).

Definition oid_filter : Value :=
  VObj [("_id", VObj [("$oid", VStr "507f1f77bcf86cd799439011")])].

Definition find_users_raw : Value :=
  VObj [("collection", VStr "users"); ("filter", oid_filter);
        ("pipeline", VArr [VObj [("$match", oid_filter)]])].

Definition insert_raw : Value :=
  VObj [("database", VStr "shop"); ("collection", VStr "orders");
        ("documents", VArr [VObj [("sku", VStr "a1")]])].

(** The configuration with the read-only mode switched off. *)
Definition read_write (cfg : UserConfig) : UserConfig :=
  mkUserConfig (apiBaseUrl cfg) (apiClientId cfg) (apiClientSecret cfg)
    (connectionString cfg) false (disabledTools cfg).

(** The claim of C4 as the specification words it: with no database in the
    call and no default in the session, the pipeline answers
    [DatabaseNotSpecified] and execute has not been invoked. *)
Definition resolves_before_execute (cfg : UserConfig) (tools : list Tool)
  (toolName : string) (raw : Value) (s : Session) : Prop :=
  let r := callTool cfg tools toolName raw s in
  (exists text, outcome_of r = inr (error_result DatabaseNotSpecified text)) /\
  invoked (trace_of r) = [].

Definition find_users_no_database : Value := VObj [("collection", VStr "users")].

Definition generic_result (toolName : string) (e : JsError) : ProtocolResult :=
  error_result ExecutionFailed (template ["Error running "; toolName; ": "; message e]).

Definition rename_onto_taken : RenameCollectionArgs :=
  mkRenameCollectionArgs (mkDbOperationArgs (Some "shop") "orders") "taken" false.

Definition config_with_secrets (id secret conn : option string) : UserConfig :=
  mkUserConfig "https://cloud.mongodb.com/" id secret conn true ["drop-database"].

Definition sample_package : PackageInfo := mkPackageInfo "MongoDB MCP Server" "0.1.0".

Definition no_exit (t : list HttpEvent) : Prop := forall code, ~ In (ProcessExit code) t.

(** What a signal handler does once its first message is logged. *)
Definition shutdown_events (first : HttpEvent) (httpClosed : bool)
  (close : option string) (g : nat) : list HttpEvent :=
  [first; HttpServerClose; ServerClose g] ++
  (if httpClosed then [Log info serverClosed "HTTP server closed"] else []) ++
  match close with
  | None => [Log info serverClosed "MCP server closed successfully"; ProcessExit 0]
  | Some err =>
      [Log error serverCloseFailure (template ["Error closing MCP server: "; err]);
       ProcessExit 1]
  end.

Definition exit_code (close : option string) : nat :=
  match close with
  | None => 0
  | Some _ => 1
  end.

(** The server built at start-up: the first three allocations. *)
Definition startup_server : ServerObj := mkServerObj 2 0 1.

Definition startup_events : list HttpEvent :=
  [NewSession 0; NewMcpServer 1; TelemetryCreate 0; NewServer startup_server;
   ValidateConfiguration 2;
   Log info serverInitialized "Global MCP server initialized successfully"; Listen].

(** A handler that leaves the globals alone and does not exit. *)
Definition quiet (h : H unit) : Prop :=
  forall s,
    globalServer (http_state (h s)) = globalServer s /\
    isServerInitialized (http_state (h s)) = isServerInitialized s /\
    exited (http_state (h s)) = exited s /\
    next_id s <= next_id (http_state (h s)) /\
    no_exit (http_trace (h s)).

(** The process has exited only through a signal handler, which asked the
    server [g] to close after closing the HTTP server and before exiting. *)
Definition ExitInv (g : nat) (s : HttpState) (t : list HttpEvent) : Prop :=
  (exited s = None -> no_exit t) /\
  (forall code, In (ProcessExit code) t ->
     precedes HttpServerClose (ServerClose g) t /\
     precedes (ServerClose g) (ProcessExit code) t).

Definition GlobalInv (s : HttpState) (t : list HttpEvent) : Prop :=
  globalServer s = Some startup_server /\ ExitInv 2 s t.

Definition conn_session (c : Connection) : option nat :=
  option_map server_session (conn_server c).

Definition conn_mcpServer (c : Connection) : option nat :=
  option_map server_mcpServer (conn_server c).

Definition conn_server_id (c : Connection) : option nat :=
  option_map server_id (conn_server c).

(** The servers constructed in a trace, in order. *)
Definition servers_created (t : list HttpEvent) : list ServerObj :=
  flat_map (fun ev => match ev with NewServer so => [so] | _ => [] end) t.

(** The servers that transports were connected to, in order. *)
Definition servers_connected (t : list HttpEvent) : list nat :=
  flat_map (fun ev => match ev with ServerConnect srv _ => [srv] | _ => [] end) t.

Definition protocol_servers_created (t : list HttpEvent) : list nat :=
  flat_map (fun ev => match ev with NewMcpServer id => [id] | _ => [] end) t.

(** The transports closed in a trace, in order. *)
Definition transports_closed (t : list HttpEvent) : list nat :=
  flat_map (fun ev => match ev with TransportClose tr => [tr] | _ => [] end) t.

(** The three objects of a server were allocated after start-up and before
    the allocation [n]. *)
Definition built_after_startup (n : nat) (srv : ServerObj) : Prop :=
  3 <= server_session srv < n /\
  3 <= server_mcpServer srv < n /\
  3 <= server_id srv < n.

(** A registered SSE connection holds the server that its own request built
    and connected its transport to. *)
Definition own_server (s : HttpState) (t : list HttpEvent) (c : Connection) : Prop :=
  conn_req c < next_id s /\
  exists srv,
    conn_server c = Some srv /\
    built_after_startup (next_id s) srv /\
    In srv (servers_created t) /\
    In (ServerConnect (server_id srv) (conn_transport c)) t.

(** No two of the servers share a session, a protocol server or an
    allocation, and all were allocated before [n]. *)
Definition separate_servers (n : nat) (l : list ServerObj) : Prop :=
  Forall (fun srv => server_session srv < n /\ server_mcpServer srv < n /\
                     server_id srv < n) l /\
  NoDup (map server_session l) /\
  NoDup (map server_mcpServer l) /\
  NoDup (map server_id l).

(** The state of the SSE variant and its trace since the process began:
    [later] are the servers built after start-up, one for each request on
    [/sse]. *)
Definition SseInv (s : HttpState) (t : list HttpEvent) : Prop :=
  globalServer s = Some startup_server /\
  isServerInitialized s = true /\
  3 <= next_id s /\
  (exists later,
     servers_created t = startup_server :: later /\
     sessions_created t = map server_session (startup_server :: later) /\
     protocol_servers_created t = map server_mcpServer (startup_server :: later) /\
     servers_connected t = map server_id later /\
     separate_servers (next_id s) (startup_server :: later)) /\
  Forall (own_server s t) (connections s) /\
  NoDup (map conn_req (connections s)) /\
  NoDup (map conn_session (connections s)) /\
  NoDup (map conn_mcpServer (connections s)) /\
  NoDup (map conn_server_id (connections s)) /\
  (exited s = None -> ~ In (server_id startup_server) (servers_closed t)).




(** What [app.post('/mcp')] does after connecting the server. *)
Definition mcp_post_tail (connect handle : option string) (headersSent : bool)
  (transport : nat) : list HttpEvent :=
  match connect with
  | Some _ =>
      [ConsoleError "Error handling MCP request:";
       StatusJson 500 "Internal server error"]
  | None =>
      TransportHandleRequest transport ::
      match handle with
      | None => []
      | Some _ =>
          ConsoleError "Error handling MCP request:" ::
          (if headersSent then [] else [StatusJson 500 "Internal server error"])
      end
  end.

Definition McpInv (s : HttpState) (t : list HttpEvent) : Prop :=
  Forall (fun c => conn_req c < next_id s) (connections s) /\
  Forall (fun id => id < next_id s) (sessions_created t) /\
  NoDup (sessions_created t).

Definition caller_in_phase (attempted connected : bool) (c : Caller) : Prop :=
  match c with
  | Ready => True
  | Awaiting a => a = 0 /\ attempted = true
  | Got p => p = 0 /\ connected = true
  | Failed => False
  end.

(** While connects succeed a session is in one of three phases: nothing
    attempted, the one attempt in flight, or connected by it. *)
Inductive MemoPhase (s : MemoState) : Prop :=
| Phase_idle :
    memo_provider s = None -> memo_inflight s = None -> memo_attempts s = 0 ->
    memo_settled s = [] ->
    Forall (caller_in_phase false false) (memo_callers s) ->
    MemoPhase s
| Phase_connecting :
    memo_provider s = None -> memo_inflight s = Some 0 -> memo_attempts s = 1 ->
    memo_settled s = [] ->
    Forall (caller_in_phase true false) (memo_callers s) ->
    MemoPhase s
| Phase_connected :
    memo_provider s = Some 0 -> memo_inflight s = None -> memo_attempts s = 1 ->
    memo_settled s = [(0, Some 0)] ->
    Forall (caller_in_phase true true) (memo_callers s) ->
    MemoPhase s.

(** ** What a backend operation is aimed at *)

(** The database an operation names. *)
Definition op_database (op : BackendOp) : string :=
  match op with
  | OpFind db _ _ _ => db
  | OpAggregate db _ _ => db
  | OpExplainAggregate db _ _ _ => db
  | OpExplainFind db _ _ _ _ => db
  | OpExplainCount db _ _ _ => db
  | OpInsertMany db _ _ => db
  | OpCreateCollection db _ => db
  | OpDropDatabase db => db
  | OpDropCollection db _ => db
  | OpRenameCollection db _ _ _ => db
  | OpListCollections db => db
  | OpGetIndexes db _ => db
  | OpRunCommand db _ => db
  end.

(** The collection an operation names, when it names one. *)
Definition op_collection (op : BackendOp) : option string :=
  match op with
  | OpFind _ coll _ _ => Some coll
  | OpAggregate _ coll _ => Some coll
  | OpExplainAggregate _ coll _ _ => Some coll
  | OpExplainFind _ coll _ _ _ => Some coll
  | OpExplainCount _ coll _ _ => Some coll
  | OpInsertMany _ coll _ => Some coll
  | OpCreateCollection _ coll => Some coll
  | OpDropCollection _ coll => Some coll
  | OpRenameCollection _ coll _ _ => Some coll
  | OpGetIndexes _ coll => Some coll
  | OpDropDatabase _ | OpListCollections _ | OpRunCommand _ _ => None
  end.

(** The rest of an execute function after its two session helpers: it leaves
    the session alone, connects nothing and issues at most one operation. *)
Definition one_shot {A} (k : Provider -> string -> M A) : Prop :=
  forall p db s1,
    session_of (k p db s1) = s1 /\
    length (ops_of (trace_of (k p db s1))) <= 1 /\
    connects_of (trace_of (k p db s1)) = 0.

(** The rest of an execute function aims its operations at the database it
    is given and at the collection [coll]. *)
Definition aimed_at {A} (coll : option string) (k : Provider -> string -> M A)
  : Prop :=
  forall p db s1 op,
    In op (ops_of (trace_of (k p db s1))) ->
    op_database op = db /\ op_collection op = coll.

Definition is_object (v : Value) : bool :=
  match v with
  | VObj _ => true
  | _ => false
  end.

(** ** The health endpoint *)

(** [app.get('/health')] of the SSE and of the Streamable HTTP variant; the
    timestamp is the clock's. *)
Definition health (timestamp : string) (s : HttpState) : Value :=
  VObj [("status", VStr "healthy");
        ("timestamp", VStr timestamp);
        ("mcpServerReady", VBool (isServerInitialized s))].

(** [app.get('/health')] of [http-server.ts] *)
Definition wrapper_health (timestamp : string) : Value :=
  VObj [("status", VStr "healthy"); ("timestamp", VStr timestamp)].

(** A [close] event or, with the text of the error, an [error] event of the
    request [req], each with what the close of the server answers. *)
Definition request_event (req : nat) (ev : option string * option string) : SseInput :=
  match ev with
  | (None, close) => ReqClose req close
  | (Some err, close) => ReqError req err close
  end.

(** The number of POSTs on [/mcp] among the inputs up to the first signal. *)
Fixpoint posts_served (inputs : list McpInput) : nat :=
  match inputs with
  | [] => 0
  | PostMcp _ _ _ :: rest => S (posts_served rest)
  | McpSignal _ _ _ :: _ => 0
  | _ :: rest => posts_served rest
  end.

(** The events of a start-up whose configuration validation fails. *)
Definition failed_startup_events (err : string) : list HttpEvent :=
  [NewSession 0; NewMcpServer 1; TelemetryCreate 0; NewServer startup_server;
   ValidateConfiguration 2;
   Log error serverStartFailure
     (template ["Failed to initialize global MCP server: "; err]);
   Log emergency serverStartFailure
     (template ["Fatal error starting HTTP server: "; err]);
   ConsoleError "Failed to start HTTP server:";
   ProcessExit 1].

(** The globals are set and no JSON error response has been sent. *)
Definition ReadyInv (s : HttpState) (t : list HttpEvent) : Prop :=
  globalServer s = Some startup_server /\
  isServerInitialized s = true /\
  forall code body, ~ In (StatusJson code body) t.

(** Every server closed so far is the one built at start-up. *)
Definition OnlyGlobalClosed (s : HttpState) (t : list HttpEvent) : Prop :=
  globalServer s = Some startup_server /\
  forall id, In (ServerClose id) t -> id = server_id startup_server.

(** The JSON responses sent with [res.status(code).json(body)], in order. *)
Definition json_responses (t : list HttpEvent) : list (nat * string) :=
  flat_map (fun ev => match ev with StatusJson code body => [(code, body)] | _ => [] end)
    t.

Definition refusing_provider : Provider := {|
  connect := None;
  respond_documents := fun _ => inr [];
  respond_document := fun _ => inr (VObj []);
  respond_insert := fun _ => inr (mkInsertManyResult 0 []);
  respond_bool := fun _ => inr false;
  respond_name := fun _ => inr "collection";
  respond_names := fun _ => inr [];
  respond_indexes := fun _ => inr []
|}.

Definition missing_error : JsError :=
  mkJsError true (Some "NamespaceNotFound") "MongoServerError: ns not found".

Definition missing_provider : Provider := {|
  connect := None;
  respond_documents := fun _ => inr [];
  respond_document := fun _ => inr (VObj []);
  respond_insert := fun _ => inr (mkInsertManyResult 0 []);
  respond_bool := fun _ => inr true;
  respond_name := fun _ => inl missing_error;
  respond_names := fun _ => inr [];
  respond_indexes := fun _ => inl missing_error
|}.

Definition explain_op (db coll : string) (m : Method) : BackendOp :=
  match m with
  | MethodAggregate pipeline => OpExplainAggregate db coll pipeline defaultVerbosity
  | MethodFind a => OpExplainFind db coll (find_filter a) (find_rest a) defaultVerbosity
  | MethodCount query => OpExplainCount db coll query defaultVerbosity
  end.

(** * Properties of the tools and of the pipeline *)

(** ** Evaluation of the monad *)

Arguments ops_of : simpl never.
Arguments invoked : simpl never.
Arguments connects_of : simpl never.
Arguments template : simpl never.
Arguments no_method_message : simpl never.

Ltac run_monad :=
  unfold bind, try_catch, get_session, set_connState, emit, ret, throw, lib_call,
    backend_call in *;
  cbn in *.

Lemma prelude_cases (requested : option string) (s : Session) :
  exists s1 t r,
    prelude requested s = (s1, t, r) /\
    Prelude requested s s1 t
      (match r with inl e => inl e | inr (_, db) => inr db end) /\
    (forall p db, r = inr (p, db) -> p = serviceProvider s).
Proof.
  destruct s as [p c d].
  unfold prelude, ensureConnected, getEffectiveDatabase, await_connect.
  destruct c, (connect p) eqn:Hc, requested as [[|a r]|], d;
    run_monad; rewrite ?Hc; run_monad;
    do 3 eexists; (split; [reflexivity|]); split;
    try (intros ? ? [= <- _]; reflexivity);
    try (intros ? ? [=]);
    solve
      [ eapply Prelude_unavailable; cbn; eauto
      | eapply Prelude_unspecified; cbn; eauto
      | eapply Prelude_resolved; cbn; eauto ].
Qed.

Lemma execute_prelude {A} (requested : option string)
  (k : Provider -> string -> M A) (s : Session) :
  (provider <- ensureConnected ;;
   effectiveDatabase <- getEffectiveDatabase requested ;;
   k provider effectiveDatabase) s =
  match prelude requested s with
  | (s1, t1, inl e) => (s1, t1, inl e)
  | (s1, t1, inr (p, db)) =>
      match k p db s1 with
      | (s2, t2, r) => (s2, t1 ++ t2, r)
      end
  end.
Proof.
  destruct s as [p c d].
  unfold prelude, ensureConnected, getEffectiveDatabase, await_connect.
  destruct c, (connect p) eqn:Hc, requested as [[|a r]|], d;
    run_monad; rewrite ?Hc; run_monad;
    try reflexivity;
    match goal with
    | |- context [k ?x ?y ?z] => destruct (k x y z) as [[? ?] ?]; reflexivity
    end.
Qed.

Lemma ops_of_app (t1 t2 : list Event) : ops_of (t1 ++ t2) = ops_of t1 ++ ops_of t2.
Proof. unfold ops_of. apply flat_map_app. Qed.

Lemma invoked_app (t1 t2 : list Event) : invoked (t1 ++ t2) = invoked t1 ++ invoked t2.
Proof. unfold invoked. apply flat_map_app. Qed.

Lemma Prelude_ops requested s s1 t r : Prelude requested s s1 t r -> ops_of t = [].
Proof. destruct 1; assumption. Qed.

Lemma Prelude_invoked requested s s1 t r : Prelude requested s s1 t r -> invoked t = [].
Proof. destruct 1; assumption. Qed.

(** Splits the run of an execute function into its prelude and the rest. *)
Ltac split_prelude requested s :=
  rewrite execute_prelude;
  let s1 := fresh "s1" in
  let t := fresh "t" in
  let r := fresh "r" in
  let Hrun := fresh "Hrun" in
  let Hpre := fresh "Hpre" in
  let Hprov := fresh "Hprov" in
  destruct (prelude_cases requested s) as (s1 & t & r & Hrun & Hpre & Hprov);
  rewrite Hrun;
  destruct r as [?e | [?p ?db]].

(** ** The explain tool *)

Lemma explain_ignores_rest (lib : Library) (d : DbOperationArgs) (m : Method)
  (rest : list Method) (s : Session) :
  ExplainTool_execute lib (mkExplainArgs d (m :: rest)) s =
  ExplainTool_execute lib (mkExplainArgs d [m]) s.
Proof. reflexivity. Qed.

Lemma explain_at_most_one_op (lib : Library) (args : ExplainArgs) (s : Session) :
  length (ops_of (trace_of (ExplainTool_execute lib args s))) <= 1.
Proof.
  unfold ExplainTool_execute.
  split_prelude (database (explain_db args)) s.
  - cbn. rewrite (Prelude_ops Hpre). cbn. lia.
  - destruct (nth_error (explain_method args) 0) as [[pl | fa | q]|];
      run_monad;
      try match goal with
        | |- context [respond_document ?p ?op] => destruct (respond_document p op)
        end;
      cbn; unfold trace_of; cbn; rewrite ops_of_app, (Prelude_ops Hpre);
      unfold ops_of; cbn; lia.
Qed.

Lemma explain_empty (lib : Library) (d : DbOperationArgs) (s : Session) :
  let r := ExplainTool_execute lib (mkExplainArgs d []) s in
  ops_of (trace_of r) = [] /\
  outcome_of r =
    match outcome_of (prelude (database d) s) with
    | inl e => inl e
    | inr _ => inl (new_Error no_method_message)
    end.
Proof.
  unfold ExplainTool_execute. cbn [explain_db explain_method nth_error].
  split_prelude (database d) s; unfold trace_of, outcome_of; cbn.
  - split; [exact (Prelude_ops Hpre) | reflexivity].
  - rewrite app_nil_r.
    split; [exact (Prelude_ops Hpre) | reflexivity].
Qed.

Lemma run_tool_run (t : Tool) (args : argT t) (s : Session) :
  run_tool t args s =
  match execute t args s with
  | (s1, t1, inr r) => (s1, EvInvoke (name t) :: t1, inr (Success r))
  | (s1, t1, inl e) =>
      match handleError t e args s1 with
      | (s2, t2, inr pr) => (s2, EvInvoke (name t) :: t1 ++ t2, inr pr)
      | (s2, t2, inl escaped) =>
          (s2, EvInvoke (name t) :: t1 ++ t2,
           inr (error_result InternalError (thrown_message escaped)))
      end
  end.
Proof.
  unfold run_tool. run_monad.
  destruct (execute t args s) as [[s1 t1] [e | r]].
  - destruct (handleError t e args s1) as [[s2 t2] [e' | pr]]; cbn;
      rewrite ?app_nil_r; reflexivity.
  - cbn. rewrite app_nil_r. reflexivity.
Qed.

(** C9: the explain tool runs at most the first element of its method array.
    With an empty array execute issues no backend operation and throws: the
    error of the session helpers if connecting or resolving the database
    failed, the error "No method provided" otherwise, which the generic
    handler turns into an [ExecutionFailed] result embedding that message.
    With further elements after the first, execute behaves exactly as on the
    first alone, and it never issues more than one backend operation.  The
    schema does accept an empty array. *)
Theorem explain_first_method_only (lib : Library)
  (countArgs : Value -> option (option Value)) (d : DbOperationArgs) (s : Session) :
  ExplainArgs_shape countArgs
    (VObj [("collection", VStr (collection d)); ("method", VArr [])]) =
    Some (mkExplainArgs (mkDbOperationArgs None (collection d)) []) /\
  (let r := ExplainTool_execute lib (mkExplainArgs d []) s in
   ops_of (trace_of r) = [] /\
   outcome_of r =
     match outcome_of (prelude (database d) s) with
     | inl e => inl e
     | inr _ => inl (new_Error no_method_message)
     end) /\
  (let r := run_tool (ExplainTool lib countArgs) (mkExplainArgs d []) s in
   ops_of (trace_of r) = [] /\
   match outcome_of (prelude (database d) s) with
   | inl e => exists k, outcome_of r = inr (error_result k (thrown_message e))
   | inr _ =>
       outcome_of r =
         inr (error_result ExecutionFailed
                (template ["Error running "; "explain"; ": "; no_method_message]))
   end) /\
  (forall (m : Method) (rest : list Method),
     ExplainTool_execute lib (mkExplainArgs d (m :: rest)) s =
     ExplainTool_execute lib (mkExplainArgs d [m]) s) /\
  (forall methods : list Method,
     length (ops_of (trace_of (ExplainTool_execute lib (mkExplainArgs d methods) s)))
     <= 1).
Proof.
  split; [reflexivity|].
  split; [apply explain_empty|].
  split; [|split; [intros; apply explain_ignores_rest
                  | intros; apply explain_at_most_one_op]].
  cbn zeta. rewrite run_tool_run.
  pose proof (explain_empty lib d s) as [Hops Hout]. cbn zeta in Hops, Hout.
  change (execute (ExplainTool lib countArgs)) with (ExplainTool_execute lib).
  destruct (ExplainTool_execute lib (mkExplainArgs d []) s) as [[s1 t1] o].
  unfold trace_of, outcome_of in *. cbn [fst snd] in *. subst o.
  destruct (prelude_cases (database d) s) as (s0 & t0 & r0 & Hrun & Hpre & _).
  rewrite Hrun. cbn [snd].
  destruct r0 as [e | [p db]].
  - inversion Hpre; subst; cbn;
      (split; [change (EvInvoke "explain" :: t1 ++ [])
                 with ([EvInvoke "explain"] ++ t1 ++ []);
               rewrite !ops_of_app, Hops; reflexivity
              | eexists; reflexivity]).
  - cbn. split; [|reflexivity].
    change (EvInvoke "explain" :: t1 ++ []) with ([EvInvoke "explain"] ++ t1 ++ []).
    rewrite !ops_of_app, Hops. reflexivity.
Qed.

(** ** Find and aggregate: the Extended-JSON round trip *)

Lemma z_optional_record_object (v : option Value) (f : Value) :
  z_optional z_record v = Some (Some f) -> exists fields, f = VObj fields.
Proof.
  destruct v as [[]|]; cbn; intros [=]; subst; eauto.
Qed.

Lemma validated_filter_truthy (raw : Value) (args : FindToolArgs) (f : Value) :
  FindToolArgs_shape raw = Some args ->
  find_filter (find_args args) = Some f ->
  truthy f = true.
Proof.
  unfold FindToolArgs_shape, FindArgs_shape, obind.
  destruct (DbOperationArgs_shape raw); [|discriminate].
  destruct (field "filter" (z_optional z_record) raw) as [flt|] eqn:Hf; [|discriminate].
  destruct (field "projection" (z_optional z_record) raw); [|discriminate].
  destruct (field "limit" (z_default z_number 0%Z) raw); [|discriminate].
  destruct (field "sort" (z_optional z_record) raw); [|discriminate].
  intros [= <-]. cbn. intros ->.
  destruct raw; try discriminate. cbn in Hf.
  apply z_optional_record_object in Hf as [obj ->]. reflexivity.
Qed.

Lemma find_ops (lib : Library) (args : FindToolArgs) (s : Session) :
  ops_of (trace_of (FindTool_execute lib args s)) =
  match outcome_of (prelude (database (find_db args)) s),
        outcome_of (parse_filter lib (find_filter (find_args args)) s) with
  | inr (_, db), inr parsedFilter =>
      [OpFind db (collection (find_db args)) parsedFilter (find_rest (find_args args))]
  | _, _ => []
  end.
Proof.
  unfold FindTool_execute.
  split_prelude (database (find_db args)) s; unfold trace_of, outcome_of; cbn [fst snd].
  - exact (Prelude_ops Hpre).
  - unfold parse_filter.
    destruct (find_filter (find_args args)) as [f|]; [destruct (truthy f)|];
      run_monad;
      try destruct (EJSON_parse lib (JSON_stringify lib f)); cbn;
      try match goal with
        | |- context [respond_documents ?p ?op] => destruct (respond_documents p op)
        end;
      cbn; rewrite ?ops_of_app, (Prelude_ops Hpre); reflexivity.
Qed.

Lemma aggregate_ops (lib : Library) (args : AggregateToolArgs) (s : Session) :
  ops_of (trace_of (AggregateTool_execute lib args s)) =
  match outcome_of (prelude (database (aggregate_db args)) s),
        EJSON_parse lib (JSON_stringify lib (VArr (aggregate_pipeline args))) with
  | inr (_, db), inr parsedPipeline =>
      [OpAggregate db (collection (aggregate_db args)) parsedPipeline]
  | _, _ => []
  end.
Proof.
  unfold AggregateTool_execute.
  split_prelude (database (aggregate_db args)) s; unfold trace_of, outcome_of;
    cbn [fst snd].
  - exact (Prelude_ops Hpre).
  - unfold parse_pipeline. run_monad.
    destruct (EJSON_parse lib (JSON_stringify lib (VArr (aggregate_pipeline args))));
      cbn;
      try match goal with
        | |- context [respond_documents ?p ?op] => destruct (respond_documents p op)
        end;
      cbn; rewrite ?ops_of_app, (Prelude_ops Hpre); reflexivity.
Qed.

(** C10: a find call with a present filter, and an aggregate call, hand the
    backend the result of [EJSON.parse(JSON.stringify(value))] and nothing
    else; a find call without a filter hands it the absent filter unchanged.
    The backend operation is issued exactly when the session helpers and the
    parse succeed. *)
Theorem ejson_round_trip (lib : Library) (raw : Value) (s : Session) :
  (forall args : FindToolArgs,
     FindToolArgs_shape raw = Some args ->
     ops_of (trace_of (FindTool_execute lib args s)) =
     match outcome_of (prelude (database (find_db args)) s) with
     | inl _ => []
     | inr (_, db) =>
         match find_filter (find_args args) with
         | None =>
             [OpFind db (collection (find_db args)) None (find_rest (find_args args))]
         | Some f =>
             match EJSON_parse lib (JSON_stringify lib f) with
             | inr parsed =>
                 [OpFind db (collection (find_db args)) (Some parsed)
                    (find_rest (find_args args))]
             | inl _ => []
             end
         end
     end) /\
  (forall args : AggregateToolArgs,
     AggregateToolArgs_shape raw = Some args ->
     ops_of (trace_of (AggregateTool_execute lib args s)) =
     match outcome_of (prelude (database (aggregate_db args)) s) with
     | inl _ => []
     | inr (_, db) =>
         match EJSON_parse lib (JSON_stringify lib (VArr (aggregate_pipeline args))) with
         | inr parsed => [OpAggregate db (collection (aggregate_db args)) parsed]
         | inl _ => []
         end
     end).
Proof.
  split; intros args Hshape.
  - rewrite find_ops.
    destruct (outcome_of (prelude (database (find_db args)) s)) as [e | [p db]];
      [reflexivity|].
    destruct (find_filter (find_args args)) as [f|] eqn:Hf; [|reflexivity].
    unfold parse_filter. rewrite (validated_filter_truthy raw Hshape Hf).
    run_monad. destruct (EJSON_parse lib (JSON_stringify lib f)); reflexivity.
  - rewrite aggregate_ops.
    destruct (outcome_of (prelude (database (aggregate_db args)) s)) as [e | [p db]];
      reflexivity.
Qed.

Lemma ejson_round_trip_witness :
  ops_of (trace_of (FindTool_execute sample_library
            (mkFindToolArgs (mkDbOperationArgs None "users")
               (mkFindArgs (Some oid_filter) None 0%Z None))
            (sample_session (Some "app")))) =
    [OpFind "app" "users" (Some (VStr "{}")) (mkFindOptions None 0%Z None)] /\
  ops_of (trace_of (AggregateTool_execute sample_library
            (mkAggregateToolArgs (mkDbOperationArgs None "users")
               [VObj [("$match", oid_filter)]])
            (sample_session (Some "app")))) =
    [OpAggregate "app" "users" (VStr "{}")].
Proof.
  split.
  - exact (proj1 (ejson_round_trip sample_library find_users_raw
                    (sample_session (Some "app"))) _ eq_refl).
  - exact (proj2 (ejson_round_trip sample_library find_users_raw
                    (sample_session (Some "app"))) _ eq_refl).
Defined.

(** ** The pipeline after its gate *)

Lemma connect_and_resolve_run (raw : Value) (s : Session) :
  connect_and_resolve raw s =
  match prelude (requested_database raw) s with
  | (s1, t1, inl e) => (s1, t1, inl e)
  | (s1, t1, inr (_, db)) => (s1, t1, inr db)
  end.
Proof.
  destruct s as [p c d].
  unfold connect_and_resolve, prelude, ensureConnected, getEffectiveDatabase,
    await_connect.
  destruct c, (connect p) eqn:Hc, (requested_database raw) as [[|a r]|], d;
    run_monad; rewrite ?Hc; run_monad; reflexivity.
Qed.

Lemma proceed_run (t : Tool) (raw : Value) (args : argT t) (s : Session) :
  proceed t raw args s =
  match connect_and_resolve raw s with
  | (s1, t1, inl e) => (s1, t1, inr (step_failed e))
  | (s1, t1, inr _) =>
      match run_tool t args s1 with
      | (s2, t2, r) => (s2, t1 ++ t2, r)
      end
  end.
Proof.
  unfold proceed, bind, try_catch, ret.
  destruct (connect_and_resolve raw s) as [[s1 t1] [e | db]]; cbn;
    rewrite ?app_nil_r; reflexivity.
Qed.

Lemma run_tool_trace (t : Tool) (args : argT t) (s : Session) :
  exists rest, trace_of (run_tool t args s) = EvInvoke (name t) :: rest.
Proof.
  rewrite run_tool_run.
  destruct (execute t args s) as [[s1 t1] [e | r]];
    try destruct (handleError t e args s1) as [[s2 t2] [e' | pr]];
    eexists; reflexivity.
Qed.

Lemma connected_resolve_run (raw : Value) (s : Session) (db : string) :
  connState s = Connected ->
  getEffectiveDatabase (requested_database raw) s = (s, [], inr db) ->
  connect_and_resolve raw s = (s, [], inr db).
Proof.
  intros Hc Hdb. unfold connect_and_resolve, ensureConnected.
  unfold bind at 1. unfold bind at 1. unfold get_session at 1. rewrite Hc.
  unfold ret at 1. rewrite Hdb. reflexivity.
Qed.

(** ** The read-only gate *)

(** C1: in read-only mode a call of a registered tool of category create,
    update or delete, with valid arguments, returns [OperationNotPermitted]
    with an empty trace and an untouched session: execute is not invoked, no
    connection is made and no backend operation is issued.  A tool of category
    read or metadata goes on through the rest of the pipeline as if the mode
    were off: once the connection is ensured and the database resolved, its
    execute function is invoked, and on a connected session the call is the
    run of the tool.  insert-many, rename-collection and drop-database are of
    the gated categories. *)
Theorem read_only_gate (cfg : UserConfig) (tools : list Tool) (toolName : string)
  (raw : Value) (t : Tool) (args : argT t) (s : Session) :
  readOnly cfg = true ->
  resolve (registry cfg tools) toolName = Some t ->
  argsShape t raw = Some args ->
  (operationType t = create \/ operationType t = update \/ operationType t = delete ->
   exists text,
     callTool cfg tools toolName raw s =
       (s, [], inr (error_result OperationNotPermitted text))) /\
  (operationType t = read \/ operationType t = metadata ->
   callTool cfg tools toolName raw s = callTool (read_write cfg) tools toolName raw s /\
   callTool cfg tools toolName raw s = proceed t raw args s /\
   (forall s1 t1 db,
      connect_and_resolve raw s = (s1, t1, inr db) ->
      exists rest,
        trace_of (callTool cfg tools toolName raw s) = t1 ++ EvInvoke (name t) :: rest) /\
   (forall db,
      connState s = Connected ->
      getEffectiveDatabase (requested_database raw) s = (s, [], inr db) ->
      callTool cfg tools toolName raw s = run_tool t args s)) /\
  (operationType InsertManyTool = create /\
   operationType RenameCollectionTool = update /\
   operationType DropDatabaseTool = delete).
Proof.
  intros Hro Hres Hargs.
  assert (Hoff : callTool (read_write cfg) tools toolName raw s = proceed t raw args s).
  { unfold callTool.
    change (registry (read_write cfg) tools) with (registry cfg tools).
    now rewrite Hres, Hargs. }
  rewrite Hoff. clear Hoff.
  unfold callTool. rewrite Hres, Hargs, Hro. cbn [andb].
  split; [|split].
  - intros [H | [H | H]]; rewrite H; cbn; eexists; reflexivity.
  - intros Hcat.
    assert (Hw : is_write (operationType t) = false)
      by (destruct Hcat as [H | H]; rewrite H; reflexivity).
    rewrite Hw. split; [reflexivity|]. split; [reflexivity|]. split.
    + intros s1 t1 db Hrun. rewrite proceed_run, Hrun.
      destruct (run_tool_trace t args s1) as [rest Hrest].
      destruct (run_tool t args s1) as [[s2 t2] r]. unfold trace_of in *.
      cbn [fst snd] in *. subst t2. eexists. reflexivity.
    + intros db Hc Hdb. rewrite proceed_run, (@connected_resolve_run raw s db Hc Hdb).
      destruct (run_tool t args s) as [[s2 t2] r]. reflexivity.
  - repeat split.
Qed.

Lemma read_only_gate_witness :
  (exists text,
     callTool (sample_config true) (SourceTools sample_library sample_count_shape) "insert-many" insert_raw
       (sample_session None) =
     (sample_session None, [], inr (error_result OperationNotPermitted text))) /\
  callTool (sample_config true) (SourceTools sample_library sample_count_shape) "list-collections"
    insert_raw (sample_session None) =
  proceed ListCollectionsTool insert_raw (Some "shop") (sample_session None).
Proof.
  split.
  - exact (proj1 (@read_only_gate (sample_config true) (SourceTools sample_library sample_count_shape)
                    "insert-many" insert_raw InsertManyTool
                    (mkInsertManyArgs (mkDbOperationArgs (Some "shop") "orders")
                       [VObj [("sku", VStr "a1")]])
                    (sample_session None) eq_refl eq_refl eq_refl)
             (or_introl eq_refl)).
  - exact (proj1 (proj2 (proj1 (proj2 (@read_only_gate (sample_config true)
                    (SourceTools sample_library sample_count_shape)
                    "list-collections" insert_raw ListCollectionsTool
                    (Some "shop")
                    (sample_session None) eq_refl eq_refl eq_refl))
             (or_intror eq_refl)))).
Defined.

(** ** Effective-database resolution *)

Lemma prelude_unspecified (s : Session) :
  defaultDatabase s = None ->
  connect (serviceProvider s) = None ->
  exists t msg,
    prelude None s =
      (mkSession (serviceProvider s) Connected None, t,
       inl (PipelineError DatabaseNotSpecified msg)) /\
    ops_of t = [] /\ invoked t = [].
Proof.
  destruct s as [p c d]. cbn. intros -> Hc.
  unfold prelude, ensureConnected, getEffectiveDatabase, await_connect.
  destruct c; run_monad; rewrite ?Hc; run_monad; do 2 eexists;
    (split; [reflexivity | split; reflexivity]).
Qed.

Lemma prelude_connected_unspecified (s : Session) :
  defaultDatabase s = None ->
  connState s = Connected ->
  exists msg,
    prelude None s = (s, [], inl (PipelineError DatabaseNotSpecified msg)).
Proof.
  destruct s as [p c d]. cbn. intros -> ->.
  unfold prelude, ensureConnected, getEffectiveDatabase.
  run_monad. eexists. reflexivity.
Qed.

(** Without a database in the call or in the session, steps 4 and 5 never
    hand a database on. *)
Lemma prelude_never_resolves (s : Session) :
  defaultDatabase s = None ->
  exists s1 t e,
    prelude None s = (s1, t, inl e) /\ ops_of t = [] /\ invoked t = [].
Proof.
  intros Hd.
  destruct (prelude_cases None s) as (s1 & t & r & Hrun & Hpre & _).
  destruct r as [e | [p db]].
  - exists s1, t, e. split; [assumption|].
    split; [exact (Prelude_ops Hpre) | exact (Prelude_invoked Hpre)].
  - exfalso. inversion Hpre as [| |db' s1' t' Hs1 Hget]; subst.
    unfold getEffectiveDatabase in Hget. run_monad. rewrite Hd in Hget.
    discriminate Hget.
Qed.

Lemma field_database_requested (raw : Value) (d : option string) :
  field "database" DbOperationArgs_database raw = Some d ->
  d = requested_database raw.
Proof.
  unfold field, requested_database, prop, DbOperationArgs_database, z_optional, z_string.
  destruct raw; try discriminate.
  destruct (assoc "database" fields) as [[]|]; cbn; congruence.
Qed.

Lemma DbOperationArgs_shape_requested (raw : Value) (d : DbOperationArgs) :
  DbOperationArgs_shape raw = Some d ->
  database d = requested_database raw /\
  prop "collection" raw = Some (VStr (collection d)).
Proof.
  unfold DbOperationArgs_shape, obind. intros H.
  destruct (field "database" DbOperationArgs_database raw) as [db|] eqn:Hdb;
    [|discriminate].
  apply field_database_requested in Hdb.
  destruct raw; try discriminate. unfold field, DbOperationArgs_collection, z_string in H.
  unfold prop.
  destruct (assoc "collection" fields) as [[]|]; try discriminate.
  injection H as <-. cbn. split; [assumption | reflexivity].
Qed.

(** An execute function that begins with the two session helpers, run on a
    call and a session without a database, raises [DatabaseNotSpecified]
    itself, having issued no operation. *)
Lemma unspecified_run (t : Tool) (args : argT t) (s : Session)
  (k : Provider -> string -> M CallToolResult) :
  defaultDatabase s = None ->
  connect (serviceProvider s) = None ->
  (forall s', execute t args s' =
     (provider <- ensureConnected ;;
      effectiveDatabase <- getEffectiveDatabase None ;;
      k provider effectiveDatabase) s') ->
  (exists msg,
     outcome_of (execute t args s) = inl (PipelineError DatabaseNotSpecified msg)) /\
  ops_of (trace_of (execute t args s)) = [].
Proof.
  intros Hd Hc Hexec.
  rewrite Hexec, execute_prelude.
  destruct (prelude_unspecified s Hd Hc) as (t0 & msg & Hrun & Hops & Hinv).
  rewrite Hrun.
  unfold trace_of, outcome_of; cbn.
  split; [eexists; reflexivity | assumption].
Qed.

Lemma source_execute_unspecified (lib : Library)
  (countArgs : Value -> option (option Value)) (t : Tool) (raw : Value)
  (args : argT t) (s : Session) :
  In t (SourceTools lib countArgs) ->
  argsShape t raw = Some args ->
  requested_database raw = None ->
  defaultDatabase s = None ->
  connect (serviceProvider s) = None ->
  (exists msg,
     outcome_of (execute t args s) = inl (PipelineError DatabaseNotSpecified msg)) /\
  ops_of (trace_of (execute t args s)) = [].
Proof.
  intros Hin Hshape Hraw Hd Hc.
  unfold SourceTools in Hin. cbn [In] in Hin.
  repeat (destruct Hin as [<- | Hin]); [..|contradiction];
    unfold ListCollectionsTool, DbStatsTool, ExplainTool, CollectionIndexesTool,
      FindTool, AggregateTool, InsertManyTool, CreateCollectionTool,
      RenameCollectionTool, DropCollectionTool, DropDatabaseTool in *;
    cbn [argT argsShape] in *.
  all: try (apply field_database_requested in Hshape; rewrite Hraw in Hshape;
            subst args).
  all: try (unfold ExplainArgs_shape, FindToolArgs_shape, AggregateToolArgs_shape,
              InsertManyArgs_shape, RenameCollectionArgs_shape, obind in Hshape;
            destruct (DbOperationArgs_shape raw) as [d|] eqn:Hdb; [|discriminate];
            pose proof (proj1 (DbOperationArgs_shape_requested _ Hdb)) as Hnone;
            rewrite Hraw in Hnone;
            repeat match type of Hshape with
              | context [match ?x with _ => _ end] => destruct x; try discriminate
              end;
            injection Hshape as <-).
  all: try (pose proof (proj1 (DbOperationArgs_shape_requested _ Hshape)) as Hnone;
            rewrite Hraw in Hnone).
  all: eapply unspecified_run; try assumption.
  all: intros s'; cbn [execute];
    unfold ExplainTool_execute, CollectionIndexesTool_execute, FindTool_execute,
      AggregateTool_execute, InsertManyTool_execute, CreateCollectionTool_execute,
      RenameCollectionTool_execute, DropCollectionTool_execute;
    cbn [explain_db find_db aggregate_db insert_db rename_db];
    rewrite ?Hnone; reflexivity.
Qed.

(** C4: a call that names no database, on a session without a default
    database, never has its execute function invoked and issues no backend
    operation, whatever the earlier steps of the pipeline do with it; when the
    tool is registered, the arguments are valid, the gate lets the call pass
    and the connection is ensured, the pipeline returns an error result of
    kind [DatabaseNotSpecified].  For any call at all, an invocation of
    execute comes after steps 4 and 5 have handed a database on.  The execute
    functions at hand call the two session helpers again themselves: run on
    such a call they raise [DatabaseNotSpecified] before any backend
    operation. *)
Theorem database_resolved_before_execute (lib : Library)
  (countArgs : Value -> option (option Value)) (cfg : UserConfig)
  (tools : list Tool) (toolName : string) (raw : Value) (s : Session) :
  (requested_database raw = None ->
   defaultDatabase s = None ->
   invoked (trace_of (callTool cfg tools toolName raw s)) = [] /\
   ops_of (trace_of (callTool cfg tools toolName raw s)) = [] /\
   (forall (t : Tool) (args : argT t),
      resolve (registry cfg tools) toolName = Some t ->
      argsShape t raw = Some args ->
      readOnly cfg && is_write (operationType t) = false ->
      connState s = Connected \/ connect (serviceProvider s) = None ->
      resolves_before_execute cfg tools toolName raw s) /\
   (forall (t : Tool) (args : argT t),
      In t (SourceTools lib countArgs) ->
      argsShape t raw = Some args ->
      connect (serviceProvider s) = None ->
      (exists msg,
         outcome_of (execute t args s) =
           inl (PipelineError DatabaseNotSpecified msg)) /\
      ops_of (trace_of (execute t args s)) = [])) /\
  (invoked (trace_of (callTool cfg tools toolName raw s)) <> [] ->
   exists (t : Tool) (pre post : list Event) (db : string) (s1 : Session),
     resolve (registry cfg tools) toolName = Some t /\
     connect_and_resolve raw s = (s1, pre, inr db) /\
     invoked pre = [] /\
     trace_of (callTool cfg tools toolName raw s) = pre ++ EvInvoke (name t) :: post).
Proof.
  split.
  - intros Hraw Hd.
    assert (Hcall : forall (t : Tool) (args : argT t),
              exists s1 t1 e,
                proceed t raw args s = (s1, t1, inr (step_failed e)) /\
                ops_of t1 = [] /\ invoked t1 = [] /\
                (connState s = Connected \/ connect (serviceProvider s) = None ->
                 exists msg, e = PipelineError DatabaseNotSpecified msg)).
    { intros t args. rewrite proceed_run, connect_and_resolve_run, Hraw.
      destruct (prelude_never_resolves s Hd) as (s1 & t1 & e & Hrun & Hops & Hinv).
      exists s1, t1, e. rewrite Hrun. repeat split; try assumption.
      intros [Hc | Hc].
      - destruct (prelude_connected_unspecified s Hd Hc) as (msg & Hrun').
        rewrite Hrun' in Hrun. injection Hrun as _ _ <-. eauto.
      - destruct (prelude_unspecified s Hd Hc) as (t0 & msg & Hrun' & _).
        rewrite Hrun' in Hrun. injection Hrun as _ _ <-. eauto. }
    split; [|split; [|split]].
    + unfold callTool.
      destruct (resolve (registry cfg tools) toolName) as [t|]; [|reflexivity].
      destruct (argsShape t raw) as [args|]; [|reflexivity].
      destruct (readOnly cfg && is_write (operationType t)); [reflexivity|].
      destruct (Hcall t args) as (s1 & t1 & e & -> & _ & Hinv & _). exact Hinv.
    + unfold callTool.
      destruct (resolve (registry cfg tools) toolName) as [t|]; [|reflexivity].
      destruct (argsShape t raw) as [args|]; [|reflexivity].
      destruct (readOnly cfg && is_write (operationType t)); [reflexivity|].
      destruct (Hcall t args) as (s1 & t1 & e & -> & Hops & _). exact Hops.
    + intros t args Hres Hargs Hgate Hconn.
      unfold resolves_before_execute, callTool. cbn zeta.
      rewrite Hres, Hargs, Hgate.
      destruct (Hcall t args) as (s1 & t1 & e & -> & _ & Hinv & Hkind).
      destruct (Hkind Hconn) as [msg ->].
      split; [eexists; reflexivity | exact Hinv].
    + intros t args Hin Hargs Hc.
      exact (@source_execute_unspecified lib countArgs t raw args s Hin Hargs Hraw Hd Hc).
  - unfold callTool.
    destruct (resolve (registry cfg tools) toolName) as [t|];
      [|intros H; now elim H].
    destruct (argsShape t raw) as [args|]; [|intros H; now elim H].
    destruct (readOnly cfg && is_write (operationType t)); [intros H; now elim H|].
    rewrite proceed_run, connect_and_resolve_run.
    destruct (prelude_cases (requested_database raw) s) as (s1 & t1 & r & Hrun & Hpre & _).
    rewrite Hrun. pose proof (Prelude_invoked Hpre) as Hinv.
    destruct r as [e | [p db]].
    + unfold trace_of. cbn [fst snd]. intros H. now elim H.
    + intros _. destruct (run_tool_trace t args s1) as [rest Hrest].
      destruct (run_tool t args s1) as [[s2 t2] r2]. unfold trace_of in *.
      cbn [fst snd] in *. subst t2.
      exists t, t1, rest, db, s1. repeat split; assumption || reflexivity.
Qed.

Lemma database_resolved_before_execute_witness :
  resolves_before_execute (sample_config false)
    (SourceTools sample_library sample_count_shape) "find"
    find_users_no_database (sample_session None).
Proof.
  exact (proj1 (proj2 (proj2 (proj1
           (@database_resolved_before_execute sample_library sample_count_shape
              (sample_config false) (SourceTools sample_library sample_count_shape)
              "find" find_users_no_database (sample_session None))
           eq_refl eq_refl)))
           (FindTool sample_library)
           (mkFindToolArgs (mkDbOperationArgs None "users")
              (mkFindArgs None None 0%Z None))
           eq_refl eq_refl eq_refl (or_intror eq_refl)).
Defined.

(** ** Error translation *)

Lemma append_empty_r (s : string) : (s ++ EmptyString)%string = s.
Proof. induction s as [|c s IH]; cbn; [reflexivity | now rewrite IH]. Qed.

Lemma append_associative (a b c : string) :
  ((a ++ b) ++ c)%string = (a ++ (b ++ c))%string.
Proof. induction a as [|x a IH]; cbn; [reflexivity | now rewrite IH]. Qed.

Lemma template_cons (x : string) (xs : list string) :
  template (x :: xs) = (x ++ template xs)%string.
Proof.
  unfold template. destruct xs as [|y ys]; cbn.
  - symmetry. apply append_empty_r.
  - reflexivity.
Qed.

Lemma template_app (l1 l2 : list string) :
  template (l1 ++ l2) = (template l1 ++ template l2)%string.
Proof.
  induction l1 as [|x l1 IH].
  - reflexivity.
  - cbn [app]. rewrite !template_cons, IH. symmetry. apply append_associative.
Qed.

Lemma occurs_in_template (pre : list string) (x : string) (post : list string) :
  occurs_in x (template (pre ++ x :: post)).
Proof.
  exists (template pre), (template post).
  now rewrite template_app, template_cons.
Qed.

(** An error thrown by the backend reaches the handler only after the
    database has been resolved, and in a session where it resolves again. *)
Lemma raised_after_prelude {A} (requested : option string)
  (k : Provider -> string -> M A) (s s2 : Session) (t2 : list Event) (e : JsError) :
  (provider <- ensureConnected ;;
   effectiveDatabase <- getEffectiveDatabase requested ;;
   k provider effectiveDatabase) s = (s2, t2, inl (JsThrown e)) ->
  (forall p db s1, session_of (k p db s1) = s1) ->
  exists db, getEffectiveDatabase requested s2 = (s2, [], inr db).
Proof.
  intros Hrun Hk. rewrite execute_prelude in Hrun.
  destruct (prelude_cases requested s) as (s1 & t & r & Hpre & HP & _).
  rewrite Hpre in Hrun. destruct r as [e0 | [p db]].
  - inversion HP; subst; discriminate Hrun.
  - specialize (Hk p db s1).
    destruct (k p db s1) as [[s' t'] r']. cbn in Hk. subst s'.
    injection Hrun as <- _ _.
    inversion HP; subst. eauto.
Qed.

Lemma resolution_stable (requested : option string) (s s2 : Session) (db : string) :
  defaultDatabase s2 = defaultDatabase s ->
  getEffectiveDatabase requested s2 = (s2, [], inr db) ->
  outcome_of (getEffectiveDatabase requested s) = inr db.
Proof.
  unfold getEffectiveDatabase. run_monad. intros ->.
  destruct requested as [[|c r]|], (defaultDatabase s); cbn; intros [=]; subst;
    reflexivity.
Qed.

Lemma rename_raised (args : RenameCollectionArgs) (s : Session) (e : JsError) :
  outcome_of (RenameCollectionTool_execute args s) = inl (JsThrown e) ->
  exists db,
    outcome_of (getEffectiveDatabase (database (rename_db args)) s) = inr db /\
    outcome_of (run_tool RenameCollectionTool args s) =
    inr (match error_codeName (JsThrown e) with
         | Some code =>
             if code =? "NamespaceNotFound" then
               error_result DomainError
                 (template ["Cannot rename "; dq; db; "."; collection (rename_db args);
                            dq; " because it doesn't exist."])
             else if code =? "NamespaceExists" then
               error_result DomainError (rename_exists_text db args)
             else generic_result "rename-collection" e
         | None => generic_result "rename-collection" e
         end).
Proof.
  intros Hraise. rewrite run_tool_run.
  change (execute RenameCollectionTool) with RenameCollectionTool_execute.
  destruct (RenameCollectionTool_execute args s) as [[s2 t2] o] eqn:Hrun.
  cbn in Hraise. subst o.
  assert (Hdefault : defaultDatabase s2 = defaultDatabase s).
  { unfold RenameCollectionTool_execute in Hrun. cbn zeta in Hrun.
    rewrite execute_prelude in Hrun.
    destruct (prelude_cases (database (rename_db args)) s) as (s1 & t & r & Hp & HP & _).
    rewrite Hp in Hrun. destruct r as [e0 | [p db]].
    - inversion HP; subst; discriminate Hrun.
    - inversion HP; subst. run_monad.
      destruct (respond_name _ _); cbn in Hrun; injection Hrun as <- _ _; reflexivity. }
  unfold RenameCollectionTool_execute in Hrun. cbn zeta in Hrun.
  apply raised_after_prelude in Hrun as [db Hdb].
  2:{ intros p db s1. run_monad. destruct (respond_name _ _); reflexivity. }
  exists db. split; [exact (resolution_stable _ s Hdefault Hdb)|].
  cbn [handleError RenameCollectionTool]. unfold RenameCollectionTool_handleError.
  destruct (error_codeName (JsThrown e)) as [code|]; [|reflexivity].
  unfold bind. rewrite Hdb.
  destruct (code =? "NamespaceNotFound"); [reflexivity|].
  destruct (code =? "NamespaceExists"); reflexivity.
Qed.

Lemma indexes_raised (lib : Library) (args : DbOperationArgs) (s : Session)
  (e : JsError) :
  outcome_of (CollectionIndexesTool_execute lib args s) = inl (JsThrown e) ->
  exists db,
    outcome_of (getEffectiveDatabase (database args) s) = inr db /\
    outcome_of (run_tool (CollectionIndexesTool lib) args s) =
    inr (match error_codeName (JsThrown e) with
         | Some code =>
             if code =? "NamespaceNotFound" then
               error_result DomainError
                 (template ["The indexes for "; dq; db; "."; collection args; dq;
                            " cannot be determined because the collection does not exist."])
             else generic_result "collection-indexes" e
         | None => generic_result "collection-indexes" e
         end).
Proof.
  intros Hraise. rewrite run_tool_run.
  change (execute (CollectionIndexesTool lib)) with (CollectionIndexesTool_execute lib).
  destruct (CollectionIndexesTool_execute lib args s) as [[s2 t2] o] eqn:Hrun.
  cbn in Hraise. subst o.
  assert (Hdefault : defaultDatabase s2 = defaultDatabase s).
  { unfold CollectionIndexesTool_execute in Hrun.
    rewrite execute_prelude in Hrun.
    destruct (prelude_cases (database args) s) as (s1 & t & r & Hp & HP & _).
    rewrite Hp in Hrun. destruct r as [e0 | [p db]].
    - inversion HP; subst; discriminate Hrun.
    - inversion HP; subst. run_monad.
      destruct (respond_indexes _ _); cbn in Hrun; injection Hrun as <- _ _;
        reflexivity. }
  unfold CollectionIndexesTool_execute in Hrun.
  apply raised_after_prelude in Hrun as [db Hdb].
  2:{ intros p db s1. run_monad. destruct (respond_indexes _ _); reflexivity. }
  exists db. split; [exact (resolution_stable _ s Hdefault Hdb)|].
  cbn [handleError CollectionIndexesTool]. unfold CollectionIndexesTool_handleError.
  destruct (error_codeName (JsThrown e)) as [code|]; [|reflexivity].
  destruct (code =? "NamespaceNotFound"); [|reflexivity].
  unfold bind. rewrite Hdb. reflexivity.
Qed.

(** A tool without a handler of its own hands every raised error to the
    generic handler. *)
Lemma generic_raised (t : Tool) (args : argT t) (s : Session) (e : JsError) :
  (forall s', handleError t (JsThrown e) args s' =
              super_handleError (name t) (JsThrown e) s') ->
  outcome_of (execute t args s) = inl (JsThrown e) ->
  outcome_of (run_tool t args s) = inr (generic_result (name t) e).
Proof.
  intros Hh Hraise. rewrite run_tool_run.
  destruct (execute t args s) as [[s2 t2] o]. cbn in Hraise. subst o.
  rewrite Hh. reflexivity.
Qed.

Lemma rename_text_names_target (db : string) (args : RenameCollectionArgs) :
  occurs_in (newName args) (rename_exists_text db args) /\
  occurs_in (template ["set the "; dq; "dropTarget"; dq; " argument to true"])
    (rename_exists_text db args).
Proof.
  split.
  - exact (occurs_in_template
             ["Cannot rename "; dq; db; "."; collection (rename_db args); dq; " to "; dq]
             (newName args) _).
  - exists (template ["Cannot rename "; dq; db; "."; collection (rename_db args); dq;
                      " to "; dq; newName args; dq;
                      " because the target collection already exists. If you want to overwrite it, "]),
           ".".
    unfold rename_exists_text.
    rewrite !template_cons. unfold template, dq. cbn [String.concat].
    rewrite ?append_associative. cbn. rewrite ?append_associative. reflexivity.
Qed.

Lemma no_translator (toolName : string) (error : Thrown) :
  claimed_codeNames toolName = [] -> translator_claims toolName error = false.
Proof.
  unfold translator_claims. intros ->. now destruct (error_codeName error).
Qed.

(** C5: when rename-collection's execute raises a backend error with code
    name NamespaceExists, the call yields a [DomainError] result whose one
    text block is built from the effective database and the arguments alone
    (nothing of the raised error enters it), names the target collection and
    advises setting dropTarget to true.  For every tool at hand, a raised
    error its own handler answers yields a [DomainError] result, and one it
    does not answer yields the generic [ExecutionFailed] result, whose text
    embeds the error's message. *)
Theorem error_translation (lib : Library)
  (countArgs : Value -> option (option Value)) (s : Session) (e : JsError) :
  (forall args : RenameCollectionArgs,
     outcome_of (RenameCollectionTool_execute args s) = inl (JsThrown e) ->
     instanceofError e = true ->
     codeName e = Some "NamespaceExists" ->
     exists db,
       outcome_of (getEffectiveDatabase (database (rename_db args)) s) = inr db /\
       outcome_of (run_tool RenameCollectionTool args s) =
         inr (error_result DomainError (rename_exists_text db args)) /\
       occurs_in (newName args) (rename_exists_text db args) /\
       occurs_in (template ["set the "; dq; "dropTarget"; dq; " argument to true"])
         (rename_exists_text db args)) /\
  (forall (t : Tool) (args : argT t),
     In t (SourceTools lib countArgs) ->
     outcome_of (execute t args s) = inl (JsThrown e) ->
     (translator_claims (name t) (JsThrown e) = true ->
      exists text, outcome_of (run_tool t args s) = inr (error_result DomainError text)) /\
     (translator_claims (name t) (JsThrown e) = false ->
      outcome_of (run_tool t args s) = inr (generic_result (name t) e) /\
      occurs_in (message e) (template ["Error running "; name t; ": "; message e]))).
Proof.
  split.
  - intros args Hraise Hinst Hcode.
    destruct (rename_raised args s Hraise) as (db & Hdb & Hout).
    exists db. split; [assumption|]. split; [|apply rename_text_names_target].
    rewrite Hout. cbn [error_codeName]. rewrite Hinst, Hcode. reflexivity.
  - intros t args Hin Hraise.
    assert (Hocc : occurs_in (message e)
                     (template ["Error running "; name t; ": "; message e])).
    { exact (occurs_in_template ["Error running "; name t; ": "] (message e) []). }
    unfold SourceTools in Hin. cbn [In] in Hin.
    repeat (destruct Hin as [<- | Hin]); [..|contradiction].
    all: try (split; [intros H; rewrite no_translator in H by reflexivity;
                       discriminate H
                     | intros _; split; [|exact Hocc];
                       apply generic_raised; [intros; reflexivity | assumption]]).
    + destruct (indexes_raised lib args s Hraise) as (db & _ & Hout).
      rewrite Hout. unfold translator_claims. cbn [name CollectionIndexesTool].
      destruct (error_codeName (JsThrown e)) as [code|];
        [|split; [discriminate | intros _; split; [reflexivity | exact Hocc]]].
      cbn [claimed_codeNames String.eqb Ascii.eqb Bool.eqb existsb].
      destruct (code =? "NamespaceNotFound"); cbn [orb];
        (split; intros H;
         first [discriminate H | eexists; reflexivity
               | split; [reflexivity | exact Hocc]]).
    + destruct (rename_raised args s Hraise) as (db & _ & Hout).
      rewrite Hout. unfold translator_claims. cbn [name RenameCollectionTool].
      destruct (error_codeName (JsThrown e)) as [code|];
        [|split; [discriminate | intros _; split; [reflexivity | exact Hocc]]].
      cbn [claimed_codeNames String.eqb Ascii.eqb Bool.eqb existsb].
      destruct (code =? "NamespaceNotFound"), (code =? "NamespaceExists"); cbn [orb];
        (split; intros H;
         first [discriminate H | eexists; reflexivity
               | split; [reflexivity | exact Hocc]]).
Qed.

Lemma error_translation_witness :
  exists db,
    outcome_of (getEffectiveDatabase (Some "shop") (sample_session None)) = inr db /\
    outcome_of (run_tool RenameCollectionTool rename_onto_taken (sample_session None)) =
      inr (error_result DomainError (rename_exists_text db rename_onto_taken)) /\
    occurs_in "taken" (rename_exists_text db rename_onto_taken) /\
    occurs_in (template ["set the "; dq; "dropTarget"; dq; " argument to true"])
      (rename_exists_text db rename_onto_taken).
Proof.
  exact (proj1 (error_translation sample_library sample_count_shape (sample_session None)
                  exists_error)
           rename_onto_taken eq_refl eq_refl eq_refl).
Defined.

(** * Properties of the HTTP front-ends *)

(** ** The info endpoint *)

Lemma info_config_fields (config : UserConfig) :
  prop "hasAtlasCredentials" (info_config config) =
    Some (VBool (hasAtlasCredentials config)) /\
  prop "hasConnectionString" (info_config config) =
    Some (VBool (hasConnectionString config)) /\
  prop "readOnly" (info_config config) = Some (VBool (readOnly config)) /\
  prop "disabledTools" (info_config config) =
    Some (VArr (map VStr (disabledTools config))).
Proof. repeat split. Qed.

Lemma info_config_agree (c1 c2 : UserConfig) (k : string) :
  same_but_secrets c1 c2 ->
  k <> "hasAtlasCredentials" -> k <> "hasConnectionString" ->
  prop k (info_config c1) = prop k (info_config c2).
Proof.
  intros (_ & Hro & Hdt) H1 H2. unfold info_config, prop, assoc.
  apply String.eqb_neq in H1, H2. rewrite H1, H2, Hro, Hdt. reflexivity.
Qed.

(** C8: each of the three info handlers reports the read-only flag and the
    disabled tools as configured, and the credentials only as the two
    presence booleans.  Two configurations that differ only in apiClientId,
    apiClientSecret and connectionString give payloads that agree on every
    top-level key but [config] and on every key of [config] but the two
    presence booleans; with the same presence they give the same payload. *)
Theorem info_hides_secrets (pkg : PackageInfo) (c1 c2 : UserConfig)
  (respond : PackageInfo -> UserConfig -> Value) :
  In respond info_endpoints ->
  same_but_secrets c1 c2 ->
  prop "config" (respond pkg c1) = Some (info_config c1) /\
  prop "readOnly" (info_config c1) = Some (VBool (readOnly c1)) /\
  prop "disabledTools" (info_config c1) = Some (VArr (map VStr (disabledTools c1))) /\
  prop "hasAtlasCredentials" (info_config c1) =
    Some (VBool (truthy_string (apiClientId c1) && truthy_string (apiClientSecret c1))) /\
  prop "hasConnectionString" (info_config c1) =
    Some (VBool (truthy_string (connectionString c1))) /\
  (forall k, k <> "config" -> prop k (respond pkg c1) = prop k (respond pkg c2)) /\
  (forall k, k <> "hasAtlasCredentials" -> k <> "hasConnectionString" ->
     prop k (info_config c1) = prop k (info_config c2)) /\
  (hasAtlasCredentials c1 = hasAtlasCredentials c2 ->
   hasConnectionString c1 = hasConnectionString c2 ->
   respond pkg c1 = respond pkg c2).
Proof.
  intros Hin Hsame.
  assert (Hcfg : hasAtlasCredentials c1 = hasAtlasCredentials c2 ->
                 hasConnectionString c1 = hasConnectionString c2 ->
                 info_config c1 = info_config c2).
  { destruct Hsame as (_ & Hro & Hdt). unfold info_config.
    intros -> ->. rewrite Hro, Hdt. reflexivity. }
  assert (Hrest : forall k, k <> "config" ->
                            prop k (respond pkg c1) = prop k (respond pkg c2)).
  { intros k Hk. apply String.eqb_neq in Hk.
    unfold info_endpoints in Hin. cbn [In] in Hin.
    destruct Hin as [<- | [<- | [<- | []]]];
      unfold wrapper_info, sse_info, mcp_info, prop, assoc;
      rewrite Hk; reflexivity. }
  assert (Hconfig : prop "config" (respond pkg c1) = Some (info_config c1)).
  { unfold info_endpoints in Hin. cbn [In] in Hin.
    destruct Hin as [<- | [<- | [<- | []]]]; reflexivity. }
  assert (Hsame_payload : info_config c1 = info_config c2 ->
                          respond pkg c1 = respond pkg c2).
  { unfold info_endpoints in Hin. cbn [In] in Hin.
    destruct Hin as [<- | [<- | [<- | []]]];
      unfold wrapper_info, sse_info, mcp_info; intros ->; reflexivity. }
  split; [exact Hconfig|].
  split; [reflexivity|]. split; [reflexivity|].
  split.
  { unfold info_config, prop, assoc, hasAtlasCredentials. cbn.
    destruct (truthy_string (apiClientId c1)); reflexivity. }
  split; [reflexivity|].
  split; [exact Hrest|].
  split.
  { intros k. now apply info_config_agree. }
  intros H1 H2. auto.
Qed.

Lemma info_hides_secrets_witness :
  sse_info sample_package
    (config_with_secrets (Some "id-1") (Some "secret-1") (Some "mongodb://one")) =
  sse_info sample_package
    (config_with_secrets (Some "id-2") (Some "secret-2") (Some "mongodb://two")).
Proof.
  assert (Hin : In sse_info info_endpoints) by (cbn; tauto).
  assert (Hsame : same_but_secrets
            (config_with_secrets (Some "id-1") (Some "secret-1") (Some "mongodb://one"))
            (config_with_secrets (Some "id-2") (Some "secret-2") (Some "mongodb://two")))
    by (repeat split).
  exact (proj2 (proj2 (proj2 (proj2 (proj2 (proj2 (proj2
           (info_hides_secrets sample_package Hin Hsame))))))) eq_refl eq_refl).
Defined.

(** ** Runs of a front-end *)

Lemma hbind_run {A B} (m : H A) (k : A -> H B) (s : HttpState) :
  hbind m k s =
  match m s with
  | (a, s1, t1) =>
      match k a s1 with
      | (b, s2, t2) => (b, s2, t1 ++ t2)
      end
  end.
Proof. reflexivity. Qed.

Lemma serve_exited {I} (handle : I -> H unit) (inputs : list I) (s : HttpState) :
  exited s <> None -> serve handle inputs s = (tt, s, []).
Proof.
  intros Hex. induction inputs as [|i rest IH]; [reflexivity|].
  cbn [serve]. rewrite hbind_run. unfold guarded at 1.
  destruct (exited s) eqn:E; [|contradiction]. rewrite IH. reflexivity.
Qed.

Lemma no_exit_app (t1 t2 : list HttpEvent) :
  no_exit t1 -> no_exit t2 -> no_exit (t1 ++ t2).
Proof.
  intros H1 H2 code Hin. apply in_app_or in Hin as [Hin | Hin]; [eapply H1 | eapply H2]; eauto.
Qed.

(** An invariant of the state and of the trace so far, kept by every handler
    while the process has not exited, holds after any run. *)
Lemma serve_invariant {I} (handle : I -> H unit)
  (Inv : HttpState -> list HttpEvent -> Prop) :
  (forall i s t, Inv s t -> exited s = None ->
     Inv (http_state (handle i s)) (t ++ http_trace (handle i s))) ->
  forall inputs s t, Inv s t ->
    Inv (http_state (serve handle inputs s)) (t ++ http_trace (serve handle inputs s)).
Proof.
  intros Hstep inputs.
  induction inputs as [|i rest IH]; intros s t Hinv.
  - unfold http_state, http_trace, serve, hret. cbn [fst snd].
    now rewrite app_nil_r.
  - cbn [serve]. rewrite hbind_run. unfold guarded.
    destruct (exited s) eqn:Hex.
    + rewrite (@serve_exited _ handle rest s) by congruence.
      unfold http_state, http_trace. cbn [fst snd]. now rewrite app_nil_r.
    + specialize (Hstep i s t Hinv Hex).
      destruct (handle i s) as [[u s1] t1].
      unfold http_state, http_trace in Hstep. cbn [fst snd] in Hstep.
      specialize (IH s1 (t ++ t1) Hstep).
      destruct (serve handle rest s1) as [[u2 s2] t2].
      unfold http_state, http_trace in *. cbn [fst snd] in *.
      now rewrite app_assoc.
Qed.

Lemma precedes_prefix (a b : HttpEvent) (pre t : list HttpEvent) :
  precedes a b t -> precedes a b (pre ++ t).
Proof.
  intros (l1 & l2 & l3 & ->). exists (pre ++ l1), l2, l3. now rewrite app_assoc.
Qed.

Lemma precedes_suffix (a b : HttpEvent) (t post : list HttpEvent) :
  precedes a b t -> precedes a b (t ++ post).
Proof.
  intros (l1 & l2 & l3 & ->). exists l1, l2, (l3 ++ post).
  rewrite <- !app_assoc. cbn. rewrite <- !app_assoc. reflexivity.
Qed.

(** ** Shutdown *)

Lemma shutdown_run (signal : string) (httpClosed : bool) (close : option string)
  (s : HttpState) (g : ServerObj) :
  globalServer s = Some g ->
  shutdown signal httpClosed close s =
  (tt,
   mkHttpState (next_id s) (Some g) (isServerInitialized s) (connections s)
     (Some (exit_code close)),
   shutdown_events
     (Log info serverCloseRequested
        (template [signal; " received - shutting down gracefully"]))
     httpClosed close (server_id g)).
Proof.
  destruct s as [n gs init conns ex]. cbn. intros ->.
  destruct httpClosed, close; reflexivity.
Qed.

Lemma wrapper_signal_run (server : ServerObj) (sig : SignalName) (httpClosed : bool)
  (close : option string) (s : HttpState) :
  wrapper_signal server sig httpClosed close s =
  (tt,
   mkHttpState (next_id s) (globalServer s) (isServerInitialized s) (connections s)
     (Some (exit_code close)),
   shutdown_events
     (Log info serverCloseRequested
        (match sig with
         | SIGINT => "HTTP server close requested"
         | SIGTERM => "HTTP server termination requested"
         end))
     httpClosed close (server_id server)).
Proof.
  destruct s as [n gs init conns ex].
  destruct httpClosed, close; reflexivity.
Qed.

Lemma shutdown_events_order (first : HttpEvent) (httpClosed : bool)
  (close : option string) (g : nat) (code : nat) :
  In (ProcessExit code) (shutdown_events first httpClosed close g) ->
  first <> ProcessExit code ->
  code = exit_code close /\
  precedes HttpServerClose (ServerClose g) (shutdown_events first httpClosed close g) /\
  precedes (ServerClose g) (ProcessExit code)
    (shutdown_events first httpClosed close g).
Proof.
  intros Hin Hfirst.
  assert (Hcode : code = exit_code close).
  { unfold shutdown_events in Hin.
    destruct httpClosed, close; cbn in Hin;
      intuition (try discriminate; try congruence);
      match goal with
      | H : ProcessExit _ = ProcessExit _ |- _ => injection H as <-; reflexivity
      end. }
  subst code. split; [reflexivity|]. split.
  - exists [first], [], (tl (tl (tl (shutdown_events first httpClosed close g)))).
    reflexivity.
  - unfold shutdown_events.
    destruct httpClosed, close; cbn.
    + exists [first; HttpServerClose], [Log info serverClosed "HTTP server closed";
        Log error serverCloseFailure (template ["Error closing MCP server: "; s])], [].
      reflexivity.
    + exists [first; HttpServerClose], [Log info serverClosed "HTTP server closed";
        Log info serverClosed "MCP server closed successfully"], [].
      reflexivity.
    + exists [first; HttpServerClose],
        [Log error serverCloseFailure (template ["Error closing MCP server: "; s])], [].
      reflexivity.
    + exists [first; HttpServerClose],
        [Log info serverClosed "MCP server closed successfully"], [].
      reflexivity.
Qed.

Lemma startHttpServer_run :
  startHttpServer None initial_state =
  (true, mkHttpState 3 (Some startup_server) true [] None, startup_events).
Proof. reflexivity. Qed.

Lemma wrapper_start_run :
  wrapper_start initial_state =
  (startup_server, mkHttpState 3 None false [] None,
   [NewSession 0; NewMcpServer 1; TelemetryCreate 0; NewServer startup_server; Listen]).
Proof. reflexivity. Qed.

Ltac no_exit_tac :=
  let code := fresh "code" in
  let Hin := fresh "Hin" in
  intros code Hin; cbn in Hin; intuition discriminate.

Ltac quiet_tac :=
  unfold http_state, http_trace; cbn;
  repeat split; try lia; try no_exit_tac.

Lemma sse_get_quiet (connect : option string) : quiet (sse_get connect).
Proof.
  intros [n g init conns ex]. unfold sse_get.
  destruct g as [g|], init, connect; quiet_tac.
Qed.

Lemma sse_req_close_quiet (req : nat) (close : option string) :
  quiet (sse_req_close req close).
Proof.
  intros [n g init conns ex]. unfold sse_req_close. rewrite hbind_run. cbn [hget].
  cbn [connections].
  destruct (lookup_connection req conns) as [[r tr [srv|]]|]; destruct close; quiet_tac.
Qed.

Lemma sse_req_error_quiet (req : nat) (err : string) (close : option string) :
  quiet (sse_req_error req err close).
Proof.
  intros [n g init conns ex]. unfold sse_req_error. rewrite hbind_run. cbn [hget].
  cbn [connections].
  destruct (lookup_connection req conns) as [[r tr [srv|]]|]; destruct close; quiet_tac.
Qed.

Lemma mcp_post_quiet (connect handle : option string) (headersSent : bool) :
  quiet (mcp_post connect handle headersSent).
Proof.
  intros [n g init conns ex]. unfold mcp_post.
  destruct connect, handle, headersSent; quiet_tac.
Qed.

Lemma mcp_res_close_quiet (res : nat) : quiet (mcp_res_close res).
Proof.
  intros [n g init conns ex]. unfold mcp_res_close. rewrite hbind_run. cbn [hget].
  cbn [connections].
  destruct (lookup_connection res conns); quiet_tac.
Qed.

Lemma mcp_method_not_allowed_quiet (msg : string) : quiet (mcp_method_not_allowed msg).
Proof. intros [n g init conns ex]. quiet_tac. Qed.

Lemma wrapper_sse_get_quiet (server : ServerObj) (connect : option string) :
  quiet (wrapper_sse_get server connect).
Proof. intros [n g init conns ex]. destruct connect; quiet_tac. Qed.

Lemma ExitInv_quiet (g : nat) (h : H unit) (s : HttpState) (t : list HttpEvent) :
  quiet h -> ExitInv g s t -> exited s = None ->
  ExitInv g (http_state (h s)) (t ++ http_trace (h s)).
Proof.
  intros Hq [Hno Hord] Hex. destruct (Hq s) as (_ & _ & Hex' & _ & Hno').
  split.
  - intros _. apply no_exit_app; auto.
  - intros code Hin. apply in_app_or in Hin as [Hin | Hin].
    + destruct (Hord code Hin). split; now apply precedes_suffix.
    + destruct (Hno' code Hin).
Qed.

Lemma ExitInv_shutdown (g : nat) (s1 : HttpState) (t : list HttpEvent)
  (first : HttpEvent) (httpClosed : bool) (close : option string) :
  no_exit t ->
  (forall code, first <> ProcessExit code) ->
  exited s1 <> None ->
  ExitInv g s1 (t ++ shutdown_events first httpClosed close g).
Proof.
  intros Hno Hfirst Hex. split; [intros H; contradiction|].
  intros code Hin. apply in_app_or in Hin as [Hin | Hin]; [destruct (Hno code Hin)|].
  destruct (shutdown_events_order Hin (Hfirst code))
    as (_ & H1 & H2).
  split; now apply precedes_prefix.
Qed.

Lemma log_not_exit level id msg code : Log level id msg <> ProcessExit code.
Proof. discriminate. Qed.

Lemma sse_handle_GlobalInv (i : SseInput) (s : HttpState) (t : list HttpEvent) :
  GlobalInv s t -> exited s = None ->
  GlobalInv (http_state (sse_handle i s)) (t ++ http_trace (sse_handle i s)).
Proof.
  intros [Hg Hinv] Hex.
  assert (Hquiet : forall h, quiet h ->
            GlobalInv (http_state (h s)) (t ++ http_trace (h s))).
  { intros h Hq. split; [|now apply ExitInv_quiet].
    destruct (Hq s) as (-> & _). assumption. }
  destruct i as [connect | req close | req err close | sig hc close]; cbn [sse_handle].
  - apply Hquiet, sse_get_quiet.
  - apply Hquiet, sse_req_close_quiet.
  - apply Hquiet, sse_req_error_quiet.
  - rewrite (shutdown_run _ hc close s Hg). unfold http_state, http_trace. cbn [fst snd].
    split; [reflexivity|].
    apply ExitInv_shutdown; [now apply Hinv | intros; apply log_not_exit | discriminate].
Qed.

Lemma mcp_handle_GlobalInv (i : McpInput) (s : HttpState) (t : list HttpEvent) :
  GlobalInv s t -> exited s = None ->
  GlobalInv (http_state (mcp_handle i s)) (t ++ http_trace (mcp_handle i s)).
Proof.
  intros [Hg Hinv] Hex.
  assert (Hquiet : forall h, quiet h ->
            GlobalInv (http_state (h s)) (t ++ http_trace (h s))).
  { intros h Hq. split; [|now apply ExitInv_quiet].
    destruct (Hq s) as (-> & _). assumption. }
  destruct i as [connect handle hs | res | | | sig hc close]; cbn [mcp_handle].
  - apply Hquiet, mcp_post_quiet.
  - apply Hquiet, mcp_res_close_quiet.
  - apply Hquiet, mcp_method_not_allowed_quiet.
  - apply Hquiet, mcp_method_not_allowed_quiet.
  - rewrite (shutdown_run _ hc close s Hg). unfold http_state, http_trace. cbn [fst snd].
    split; [reflexivity|].
    apply ExitInv_shutdown; [now apply Hinv | intros; apply log_not_exit | discriminate].
Qed.

Lemma wrapper_handle_ExitInv (i : WrapperInput) (s : HttpState) (t : list HttpEvent) :
  ExitInv 2 s t -> exited s = None ->
  ExitInv 2 (http_state (wrapper_handle startup_server i s))
    (t ++ http_trace (wrapper_handle startup_server i s)).
Proof.
  intros Hinv Hex.
  destruct i as [connect | | sig hc close]; cbn [wrapper_handle].
  - apply ExitInv_quiet; [apply wrapper_sse_get_quiet | assumption..].
  - apply ExitInv_quiet; [|assumption..].
    intros [n g init conns ex]. quiet_tac.
  - rewrite wrapper_signal_run. unfold http_state, http_trace. cbn [fst snd].
    apply ExitInv_shutdown; [now apply Hinv | intros; apply log_not_exit | discriminate].
Qed.

Lemma startup_GlobalInv :
  GlobalInv (mkHttpState 3 (Some startup_server) true [] None) startup_events.
Proof.
  split; [reflexivity|]. split.
  - intros _. no_exit_tac.
  - intros code Hin. cbn in Hin. intuition discriminate.
Qed.

Lemma sse_process_run (inputs : list SseInput) :
  sse_process None inputs initial_state =
  (tt,
   http_state (serve sse_handle inputs (mkHttpState 3 (Some startup_server) true [] None)),
   startup_events ++
   http_trace (serve sse_handle inputs
                 (mkHttpState 3 (Some startup_server) true [] None))).
Proof.
  unfold sse_process. rewrite hbind_run, startHttpServer_run.
  destruct (serve sse_handle inputs _) as [[[] s] t]. reflexivity.
Qed.

Lemma mcp_process_run (inputs : list McpInput) :
  mcp_process None inputs initial_state =
  (tt,
   http_state (serve mcp_handle inputs (mkHttpState 3 (Some startup_server) true [] None)),
   startup_events ++
   http_trace (serve mcp_handle inputs
                 (mkHttpState 3 (Some startup_server) true [] None))).
Proof.
  unfold mcp_process. rewrite hbind_run, startHttpServer_run.
  destruct (serve mcp_handle inputs _) as [[[] s] t]. reflexivity.
Qed.

Lemma wrapper_process_run (inputs : list WrapperInput) :
  wrapper_process inputs initial_state =
  (tt,
   http_state (serve (wrapper_handle startup_server) inputs
                 (mkHttpState 3 None false [] None)),
   [NewSession 0; NewMcpServer 1; TelemetryCreate 0; NewServer startup_server; Listen] ++
   http_trace (serve (wrapper_handle startup_server) inputs
                 (mkHttpState 3 None false [] None))).
Proof.
  unfold wrapper_process. rewrite hbind_run, wrapper_start_run.
  destruct (serve (wrapper_handle startup_server) inputs _) as [[[] s] t]. reflexivity.
Qed.

Lemma serve_app {I} (handle : I -> H unit) (l1 l2 : list I) (s : HttpState) :
  serve handle (l1 ++ l2) s =
  match serve handle l1 s with
  | (_, s1, t1) =>
      match serve handle l2 s1 with
      | (u, s2, t2) => (u, s2, t1 ++ t2)
      end
  end.
Proof.
  revert s. induction l1 as [|i l1 IH]; intros s.
  - cbn [app serve]. unfold hret.
    destruct (serve handle l2 s) as [[u s2] t2]. reflexivity.
  - cbn [app serve]. rewrite !hbind_run.
    destruct (guarded (handle i) s) as [[u0 s0] t0]. rewrite IH.
    destruct (serve handle l1 s0) as [[u1 s1] t1].
    destruct (serve handle l2 s1) as [[u2 s2] t2].
    now rewrite app_assoc.
Qed.

(** The run of a process on further inputs, from the run on the first. *)
Lemma serve_last {I} (handle : I -> H unit) (inputs : list I) (i : I)
  (later : list I) (s : HttpState) :
  exited (http_state (serve handle inputs s)) = None ->
  exited (http_state (handle i (http_state (serve handle inputs s)))) <> None ->
  http_state (serve handle (inputs ++ i :: later) s) =
    http_state (handle i (http_state (serve handle inputs s))) /\
  http_trace (serve handle (inputs ++ i :: later) s) =
    http_trace (serve handle inputs s) ++
    http_trace (handle i (http_state (serve handle inputs s))).
Proof.
  intros Hrun Hexit. rewrite serve_app.
  destruct (serve handle inputs s) as [[u1 s1] t1].
  unfold http_state, http_trace in Hrun, Hexit |- *. cbn [fst snd] in Hrun, Hexit |- *.
  cbn [serve]. rewrite hbind_run.
  assert (Hg : guarded (handle i) s1 = handle i s1)
    by (unfold guarded; now rewrite Hrun).
  rewrite Hg.
  destruct (handle i s1) as [[u2 s2] t2]. cbn [fst snd] in Hexit |- *.
  rewrite (@serve_exited _ handle later s2 Hexit). cbn [fst snd].
  rewrite app_nil_r. split; reflexivity.
Qed.

Lemma failed_startup_exited (err : string) :
  (forall inputs : list SseInput,
     exited (http_state (sse_process (Some err) inputs initial_state)) = Some 1) /\
  (forall inputs : list McpInput,
     exited (http_state (mcp_process (Some err) inputs initial_state)) = Some 1).
Proof.
  split; intros inputs.
  - unfold sse_process. rewrite hbind_run.
    change (startHttpServer (Some err) initial_state)
      with (false, mkHttpState 3 None false [] (Some 1), failed_startup_events err).
    lazy beta iota.
    rewrite (@serve_exited _ sse_handle inputs) by (cbn; discriminate).
    reflexivity.
  - unfold mcp_process. rewrite hbind_run.
    change (startHttpServer (Some err) initial_state)
      with (false, mkHttpState 3 None false [] (Some 1), failed_startup_events err).
    lazy beta iota.
    rewrite (@serve_exited _ mcp_handle inputs) by (cbn; discriminate).
    reflexivity.
Qed.

Lemma sse_signal_served (validate : option string) (inputs : list SseInput)
  (sig : SignalName) (httpClosed : bool) (close : option string)
  (later : list SseInput) :
  exited (http_state (sse_process validate inputs initial_state)) = None ->
  exited (http_state (sse_process validate
                        (inputs ++ SseSignal sig httpClosed close :: later)
                        initial_state)) = Some (exit_code close) /\
  http_trace (sse_process validate (inputs ++ SseSignal sig httpClosed close :: later)
                initial_state) =
  http_trace (sse_process validate inputs initial_state) ++
  shutdown_events
    (Log info serverCloseRequested
       (template [signal_name sig; " received - shutting down gracefully"]))
    httpClosed close (server_id startup_server).
Proof.
  destruct validate as [err|].
  { intros Hrun. rewrite (proj1 (failed_startup_exited err) inputs) in Hrun.
    discriminate Hrun. }
  rewrite !sse_process_run. unfold http_state at 1 3, http_trace at 1 3.
  cbn [fst snd]. intros Hrun.
  pose proof (@serve_invariant _ sse_handle GlobalInv sse_handle_GlobalInv inputs
                _ _ startup_GlobalInv) as [Hg _].
  pose proof (shutdown_run (signal_name sig) httpClosed close _ Hg) as Hshut.
  destruct (@serve_last _ sse_handle inputs (SseSignal sig httpClosed close) later
              (mkHttpState 3 (Some startup_server) true [] None) Hrun) as [Hs Ht].
  { cbn [sse_handle]. rewrite Hshut. discriminate. }
  rewrite Hs, Ht. cbn [sse_handle]. rewrite Hshut.
  unfold http_state, http_trace. cbn [fst snd exited].
  split; [reflexivity | now rewrite app_assoc].
Qed.

Lemma mcp_signal_served (validate : option string) (inputs : list McpInput)
  (sig : SignalName) (httpClosed : bool) (close : option string)
  (later : list McpInput) :
  exited (http_state (mcp_process validate inputs initial_state)) = None ->
  exited (http_state (mcp_process validate
                        (inputs ++ McpSignal sig httpClosed close :: later)
                        initial_state)) = Some (exit_code close) /\
  http_trace (mcp_process validate (inputs ++ McpSignal sig httpClosed close :: later)
                initial_state) =
  http_trace (mcp_process validate inputs initial_state) ++
  shutdown_events
    (Log info serverCloseRequested
       (template [signal_name sig; " received - shutting down gracefully"]))
    httpClosed close (server_id startup_server).
Proof.
  destruct validate as [err|].
  { intros Hrun. rewrite (proj2 (failed_startup_exited err) inputs) in Hrun.
    discriminate Hrun. }
  rewrite !mcp_process_run. unfold http_state at 1 3, http_trace at 1 3.
  cbn [fst snd]. intros Hrun.
  pose proof (@serve_invariant _ mcp_handle GlobalInv mcp_handle_GlobalInv inputs
                _ _ startup_GlobalInv) as [Hg _].
  pose proof (shutdown_run (signal_name sig) httpClosed close _ Hg) as Hshut.
  destruct (@serve_last _ mcp_handle inputs (McpSignal sig httpClosed close) later
              (mkHttpState 3 (Some startup_server) true [] None) Hrun) as [Hs Ht].
  { cbn [mcp_handle]. rewrite Hshut. discriminate. }
  rewrite Hs, Ht. cbn [mcp_handle]. rewrite Hshut.
  unfold http_state, http_trace. cbn [fst snd exited].
  split; [reflexivity | now rewrite app_assoc].
Qed.

Lemma wrapper_signal_served (inputs : list WrapperInput) (sig : SignalName)
  (httpClosed : bool) (close : option string) (later : list WrapperInput) :
  exited (http_state (wrapper_process inputs initial_state)) = None ->
  exited (http_state (wrapper_process
                        (inputs ++ WrapperSignal sig httpClosed close :: later)
                        initial_state)) = Some (exit_code close) /\
  http_trace (wrapper_process (inputs ++ WrapperSignal sig httpClosed close :: later)
                initial_state) =
  http_trace (wrapper_process inputs initial_state) ++
  shutdown_events
    (Log info serverCloseRequested
       (match sig with
        | SIGINT => "HTTP server close requested"
        | SIGTERM => "HTTP server termination requested"
        end))
    httpClosed close (server_id startup_server).
Proof.
  rewrite !wrapper_process_run. unfold http_state at 1 3, http_trace at 1 3.
  cbn [fst snd]. intros Hrun.
  destruct (@serve_last _ (wrapper_handle startup_server) inputs
              (WrapperSignal sig httpClosed close) later
              (mkHttpState 3 None false [] None) Hrun) as [Hs Ht].
  { cbn [wrapper_handle]. rewrite wrapper_signal_run. discriminate. }
  rewrite Hs, Ht. cbn [wrapper_handle]. rewrite wrapper_signal_run.
  unfold http_state, http_trace. cbn [fst snd exited].
  split; [reflexivity | now rewrite app_assoc].
Qed.

(** C7: in each of the three front-ends, a signal delivered to the running
    process is never ignored: whatever the close of the server will answer,
    the handler logs the request, tells the HTTP server to stop accepting
    connections, asks the server built at start-up to close, and then exits,
    with code 0 when the close succeeded and, after logging the failure, with
    code 1 when it failed; nothing is served after that.  Conversely, once
    start-up has succeeded, every exit of the process is the last step of such
    a handler, so the process never exits before the server built at start-up
    has been asked to close.  The handlers are installed by the last
    statements of [startHttpServer], once the server listens: the signals are
    those delivered from then on, to a process that has not exited. *)
Theorem exit_only_after_close :
  (forall (validate : option string) (inputs later : list SseInput)
          (sig : SignalName) (httpClosed : bool) (close : option string),
     exited (http_state (sse_process validate inputs initial_state)) = None ->
     exited (http_state (sse_process validate
                           (inputs ++ SseSignal sig httpClosed close :: later)
                           initial_state)) = Some (exit_code close) /\
     http_trace (sse_process validate
                   (inputs ++ SseSignal sig httpClosed close :: later)
                   initial_state) =
     http_trace (sse_process validate inputs initial_state) ++
     shutdown_events
       (Log info serverCloseRequested
          (template [signal_name sig; " received - shutting down gracefully"]))
       httpClosed close (server_id startup_server)) /\
  (forall (validate : option string) (inputs later : list McpInput)
          (sig : SignalName) (httpClosed : bool) (close : option string),
     exited (http_state (mcp_process validate inputs initial_state)) = None ->
     exited (http_state (mcp_process validate
                           (inputs ++ McpSignal sig httpClosed close :: later)
                           initial_state)) = Some (exit_code close) /\
     http_trace (mcp_process validate
                   (inputs ++ McpSignal sig httpClosed close :: later)
                   initial_state) =
     http_trace (mcp_process validate inputs initial_state) ++
     shutdown_events
       (Log info serverCloseRequested
          (template [signal_name sig; " received - shutting down gracefully"]))
       httpClosed close (server_id startup_server)) /\
  (forall (inputs later : list WrapperInput) (sig : SignalName) (httpClosed : bool)
          (close : option string),
     exited (http_state (wrapper_process inputs initial_state)) = None ->
     exited (http_state (wrapper_process
                           (inputs ++ WrapperSignal sig httpClosed close :: later)
                           initial_state)) = Some (exit_code close) /\
     http_trace (wrapper_process (inputs ++ WrapperSignal sig httpClosed close :: later)
                   initial_state) =
     http_trace (wrapper_process inputs initial_state) ++
     shutdown_events
       (Log info serverCloseRequested
          (match sig with
           | SIGINT => "HTTP server close requested"
           | SIGTERM => "HTTP server termination requested"
           end))
       httpClosed close (server_id startup_server)) /\
  (forall (inputs : list SseInput) (code : nat),
     In (ProcessExit code) (http_trace (sse_process None inputs initial_state)) ->
     precedes HttpServerClose (ServerClose (server_id startup_server))
       (http_trace (sse_process None inputs initial_state)) /\
     precedes (ServerClose (server_id startup_server)) (ProcessExit code)
       (http_trace (sse_process None inputs initial_state))) /\
  (forall (inputs : list McpInput) (code : nat),
     In (ProcessExit code) (http_trace (mcp_process None inputs initial_state)) ->
     precedes HttpServerClose (ServerClose (server_id startup_server))
       (http_trace (mcp_process None inputs initial_state)) /\
     precedes (ServerClose (server_id startup_server)) (ProcessExit code)
       (http_trace (mcp_process None inputs initial_state))) /\
  (forall (inputs : list WrapperInput) (code : nat),
     In (ProcessExit code) (http_trace (wrapper_process inputs initial_state)) ->
     precedes HttpServerClose (ServerClose (server_id startup_server))
       (http_trace (wrapper_process inputs initial_state)) /\
     precedes (ServerClose (server_id startup_server)) (ProcessExit code)
       (http_trace (wrapper_process inputs initial_state))).
Proof.
  split; [|split; [|split; [|split; [|split]]]].
  - intros validate inputs later sig hc close. apply sse_signal_served.
  - intros validate inputs later sig hc close. apply mcp_signal_served.
  - intros inputs later sig hc close. apply wrapper_signal_served.
  - intros inputs code. rewrite sse_process_run. unfold http_trace at 1 3 5.
    cbn [snd].
    pose proof (@serve_invariant _ sse_handle GlobalInv sse_handle_GlobalInv inputs
                  _ _ startup_GlobalInv) as [_ [_ Hord]].
    exact (Hord code).
  - intros inputs code. rewrite mcp_process_run. unfold http_trace at 1 3 5.
    cbn [snd].
    pose proof (@serve_invariant _ mcp_handle GlobalInv mcp_handle_GlobalInv inputs
                  _ _ startup_GlobalInv) as [_ [_ Hord]].
    exact (Hord code).
  - intros inputs code. rewrite wrapper_process_run. unfold http_trace at 1 3 5.
    cbn [snd].
    assert (H0 : ExitInv 2 (mkHttpState 3 None false [] None)
                   [NewSession 0; NewMcpServer 1; TelemetryCreate 0;
                    NewServer startup_server; Listen]).
    { split; [intros _; no_exit_tac | intros c Hin; cbn in Hin; intuition discriminate]. }
    pose proof (@serve_invariant _ (wrapper_handle startup_server) (ExitInv 2)
                  wrapper_handle_ExitInv inputs _ _ H0) as [_ Hord].
    exact (Hord code).
Qed.

Lemma exit_only_after_close_witness :
  http_trace (sse_process None
                [GetSse (Some "connect rejected"); SseSignal SIGTERM false None]
                initial_state) =
  http_trace (sse_process None [GetSse (Some "connect rejected")] initial_state) ++
  [Log info serverCloseRequested
     (template ["SIGTERM"; " received - shutting down gracefully"]);
   HttpServerClose; ServerClose 2;
   Log info serverClosed "MCP server closed successfully"; ProcessExit 0] /\
  precedes (ServerClose 2) (ProcessExit 1)
    (http_trace (mcp_process None
                   [PostMcp None None false; McpSignal SIGINT true (Some "socket hang up")]
                   initial_state)).
Proof.
  split.
  - exact (proj2 (proj1 exit_only_after_close None [GetSse (Some "connect rejected")] []
                    SIGTERM false None eq_refl)).
  - apply (proj1 (proj2 (proj2 (proj2 (proj2 exit_only_after_close))))
             [PostMcp None None false; McpSignal SIGINT true (Some "socket hang up")] 1).
    vm_compute. intuition reflexivity.
Defined.

(** ** The SSE variant: one session per request *)

Lemma sse_get_run (connect : option string) (s : HttpState) (g : ServerObj) :
  globalServer s = Some g ->
  isServerInitialized s = true ->
  let n := next_id s in
  let server := mkServerObj (4 + n) (2 + n) (3 + n) in
  sse_get connect s =
  (tt,
   mkHttpState (5 + n) (Some g) true
     (match connect with
      | None => connections s ++ [mkConnection n (1 + n) (Some server)]
      | Some _ => connections s
      end)
     (exited s),
   [Log info serverInitialized "New SSE client connecting..."; WriteHead 200;
    NewSSEServerTransport (1 + n); NewSession (2 + n); NewMcpServer (3 + n);
    TelemetryCreate (2 + n); NewServer server; ServerConnect (4 + n) (1 + n);
    match connect with
    | None => Log info serverInitialized "MCP server connected via SSE for client"
    | Some err =>
        Log error serverStartFailure (template ["Failed to setup SSE connection: "; err])
    end]).
Proof.
  destruct s as [n g0 init conns ex]. cbn. intros -> ->.
  destruct connect; reflexivity.
Qed.

Lemma sse_req_close_run (req : nat) (close : option string) (s : HttpState)
  (c : Connection) (srv : ServerObj) :
  lookup_connection req (connections s) = Some c ->
  conn_server c = Some srv ->
  sse_req_close req close s =
  (tt, s,
   [Log info serverClosed "SSE client disconnected"; ServerClose (server_id srv)] ++
   match close with
   | None => []
   | Some err =>
       [Log error serverCloseFailure
          (template ["Error closing server for SSE client: "; err])]
   end).
Proof.
  destruct s as [n g init conns ex]. cbn [connections]. intros Hl Hs.
  unfold sse_req_close. rewrite hbind_run. cbn [hget connections]. rewrite Hl.
  destruct c as [r tr sv]. cbn in Hs. subst sv.
  destruct close; reflexivity.
Qed.

Lemma sse_req_error_run (req : nat) (err : string) (close : option string)
  (s : HttpState) (c : Connection) (srv : ServerObj) :
  lookup_connection req (connections s) = Some c ->
  conn_server c = Some srv ->
  sse_req_error req err close s =
  (tt, s,
   [Log error serverStartFailure (template ["SSE client error: "; err]);
    ServerClose (server_id srv)] ++
   match close with
   | None => []
   | Some e =>
       [Log error serverCloseFailure
          (template ["Error closing server for SSE client: "; e])]
   end).
Proof.
  destruct s as [n g init conns ex]. cbn [connections]. intros Hl Hs.
  unfold sse_req_error. rewrite hbind_run. cbn [hget connections]. rewrite Hl.
  destruct c as [r tr sv]. cbn in Hs. subst sv.
  destruct close; reflexivity.
Qed.

(** A request without a registered listener: its events run nothing. *)
Lemma sse_req_unregistered (req : nat) (s : HttpState) :
  lookup_connection req (connections s) = None ->
  (forall close, sse_req_close req close s = (tt, s, [])) /\
  (forall err close, sse_req_error req err close s = (tt, s, [])).
Proof.
  destruct s as [n g init conns ex]. cbn [connections]. intros Hl.
  split; intros; [unfold sse_req_close | unfold sse_req_error];
    rewrite hbind_run; cbn [hget connections]; rewrite Hl; reflexivity.
Qed.

Lemma NoDup_snoc {A} (l : list A) (x : A) : NoDup l -> ~ In x l -> NoDup (l ++ [x]).
Proof.
  intros Hl Hx. apply NoDup_app; [assumption | repeat constructor; intros [] | ].
  intros a Ha [<- | []]. contradiction.
Qed.

Lemma sessions_created_app (t1 t2 : list HttpEvent) :
  sessions_created (t1 ++ t2) = sessions_created t1 ++ sessions_created t2.
Proof. unfold sessions_created. apply flat_map_app. Qed.

Lemma protocol_servers_created_app (t1 t2 : list HttpEvent) :
  protocol_servers_created (t1 ++ t2) =
  protocol_servers_created t1 ++ protocol_servers_created t2.
Proof. unfold protocol_servers_created. apply flat_map_app. Qed.

Lemma servers_created_app (t1 t2 : list HttpEvent) :
  servers_created (t1 ++ t2) = servers_created t1 ++ servers_created t2.
Proof. unfold servers_created. apply flat_map_app. Qed.

Lemma servers_connected_app (t1 t2 : list HttpEvent) :
  servers_connected (t1 ++ t2) = servers_connected t1 ++ servers_connected t2.
Proof. unfold servers_connected. apply flat_map_app. Qed.

Lemma servers_closed_app (t1 t2 : list HttpEvent) :
  servers_closed (t1 ++ t2) = servers_closed t1 ++ servers_closed t2.
Proof. unfold servers_closed. apply flat_map_app. Qed.

Lemma transports_closed_app (t1 t2 : list HttpEvent) :
  transports_closed (t1 ++ t2) = transports_closed t1 ++ transports_closed t2.
Proof. unfold transports_closed. apply flat_map_app. Qed.

Lemma servers_closed_close (first : HttpEvent) (srv : nat) (close : option string) :
  servers_closed [first] = [] ->
  servers_closed
    ([first; ServerClose srv] ++
     match close with
     | None => []
     | Some err =>
         [Log error serverCloseFailure
            (template ["Error closing server for SSE client: "; err])]
     end) = [srv].
Proof.
  intros H. change ([first; ServerClose srv] ++ ?l) with ([first] ++ ServerClose srv :: l).
  rewrite servers_closed_app, H. destruct close; reflexivity.
Qed.

Lemma shutdown_events_silent (first : HttpEvent) (httpClosed : bool)
  (close : option string) (g : nat) :
  sessions_created [first] = [] -> protocol_servers_created [first] = [] ->
  servers_created [first] = [] -> servers_connected [first] = [] ->
  transports_closed [first] = [] ->
  sessions_created (shutdown_events first httpClosed close g) = [] /\
  protocol_servers_created (shutdown_events first httpClosed close g) = [] /\
  servers_created (shutdown_events first httpClosed close g) = [] /\
  servers_connected (shutdown_events first httpClosed close g) = [] /\
  transports_closed (shutdown_events first httpClosed close g) = [].
Proof.
  intros H1 H2 H3 H4 H5. unfold shutdown_events.
  change ([first; HttpServerClose; ServerClose g] ++ ?l)
    with ([first] ++ [HttpServerClose; ServerClose g] ++ l).
  rewrite sessions_created_app, protocol_servers_created_app, servers_created_app,
    servers_connected_app, transports_closed_app, H1, H2, H3, H4, H5.
  destruct httpClosed, close; repeat split; reflexivity.
Qed.

Lemma own_server_mono (s s' : HttpState) (t t' : list HttpEvent) (c : Connection) :
  next_id s <= next_id s' ->
  own_server s t c -> own_server s' (t ++ t') c.
Proof.
  intros Hn (Hr & srv & Hs & (H1 & H2 & H3) & H4 & H5).
  split; [lia|]. exists srv. split; [assumption|]. split.
  - unfold built_after_startup. lia.
  - rewrite servers_created_app. split; apply in_or_app; now left.
Qed.

Lemma separate_servers_mono (n m : nat) (l : list ServerObj) :
  n <= m -> separate_servers n l -> separate_servers m l.
Proof.
  intros Hnm (Hb & H1 & H2 & H3). split; [|now repeat split].
  eapply Forall_impl; [|exact Hb]. intros srv. cbn. lia.
Qed.

Lemma separate_servers_snoc (n : nat) (l : list ServerObj) (srv : ServerObj) :
  separate_servers n l ->
  n <= server_session srv -> n <= server_mcpServer srv -> n <= server_id srv ->
  separate_servers (S (Nat.max (server_session srv)
                         (Nat.max (server_mcpServer srv) (server_id srv))))
    (l ++ [srv]).
Proof.
  intros (Hb & H1 & H2 & H3) Hs Hm Hi.
  assert (Hfresh : forall f : ServerObj -> nat,
            (forall x, In x l -> f x < n) -> n <= f srv -> NoDup (map f l) ->
            NoDup (map f (l ++ [srv]))).
  { intros f Hf Hn Hnd. rewrite map_app. apply NoDup_snoc; [assumption|].
    intros Hin. apply in_map_iff in Hin as (x & Hx & Hin).
    specialize (Hf x Hin). lia. }
  rewrite Forall_forall in Hb.
  split; [|split; [|split]].
  - apply Forall_app. split.
    + apply Forall_forall. intros x Hx. specialize (Hb x Hx). cbn in Hb. lia.
    + constructor; [lia | constructor].
  - apply Hfresh; [intros x Hx; apply (Hb x Hx) | assumption..].
  - apply Hfresh; [intros x Hx; apply (Hb x Hx) | assumption..].
  - apply Hfresh; [intros x Hx; apply (Hb x Hx) | assumption..].
Qed.

(** A handler that builds and connects nothing, registers nothing and does
    not close the global server keeps the invariant. *)
Lemma SseInv_silent (s s' : HttpState) (t t1 : list HttpEvent) :
  SseInv s t -> exited s = None ->
  globalServer s' = globalServer s ->
  isServerInitialized s' = isServerInitialized s ->
  connections s' = connections s ->
  next_id s <= next_id s' ->
  sessions_created t1 = [] -> protocol_servers_created t1 = [] ->
  servers_created t1 = [] -> servers_connected t1 = [] ->
  (exited s' = None -> ~ In (server_id startup_server) (servers_closed t1)) ->
  SseInv s' (t ++ t1).
Proof.
  intros (Hg & Hinit & Hthree & (later & Hsc & Hss & Hps & Hcn & Hsep) & Hown & Hreq
          & Hses & Hmcp & Hsid & Hglob) Hex Hg' Hi' Hc' Hn H1 H2 H3 H4 H5.
  unfold SseInv. rewrite Hg', Hi', Hc'.
  split; [assumption|]. split; [assumption|]. split; [lia|]. split.
  { exists later.
    rewrite servers_created_app, sessions_created_app, protocol_servers_created_app,
      servers_connected_app, H1, H2, H3, H4, !app_nil_r.
    repeat split; try assumption.
    all: destruct (separate_servers_mono Hn Hsep) as (Hb & N1 & N2 & N3); assumption. }
  split.
  { eapply Forall_impl; [|exact Hown]. intros c Hc.
    now apply (own_server_mono (s := s)). }
  repeat split; try assumption.
  intros Hex' Hin. rewrite servers_closed_app in Hin.
  apply in_app_or in Hin as [Hin | Hin]; [now apply (Hglob Hex) | now apply (H5 Hex')].
Qed.

Lemma sse_handle_SseInv (i : SseInput) (s : HttpState) (t : list HttpEvent) :
  SseInv s t -> exited s = None ->
  SseInv (http_state (sse_handle i s)) (t ++ http_trace (sse_handle i s)).
Proof.
  intros Hinv Hex.
  pose proof Hinv as (Hg & Hinit & Hthree & (later & Hsc & Hss & Hps & Hcn & Hsep)
                      & Hown & Hreq & Hses & Hmcp & Hsid & Hglob).
  destruct i as [connect | req close | req err close | sig hc close]; cbn [sse_handle].
  - rewrite (sse_get_run connect s Hg Hinit).
    unfold http_state, http_trace. cbn [fst snd].
    set (n := next_id s) in *.
    set (server := mkServerObj (4 + n) (2 + n) (3 + n)).
    set (t1 := Log _ _ _ :: _).
    assert (Ht1 : sessions_created t1 = [2 + n] /\
                  protocol_servers_created t1 = [3 + n] /\
                  servers_created t1 = [server] /\
                  servers_connected t1 = [4 + n] /\
                  servers_closed t1 = [] /\
                  In (ServerConnect (4 + n) (1 + n)) t1)
      by (subst t1; destruct connect; cbn; tauto).
    destruct Ht1 as (T1 & T2 & T3 & T4 & T5 & T6).
    assert (Hold : forall conns,
              Forall (own_server (mkHttpState (5 + n) (Some startup_server) true conns
                                    (exited s)) (t ++ t1)) (connections s)).
    { intros conns. eapply Forall_impl; [|exact Hown]. intros c Hc.
      apply (own_server_mono (s := s)); [cbn; lia | assumption]. }
    assert (Hlater : exists later',
              servers_created (t ++ t1) = startup_server :: later' /\
              sessions_created (t ++ t1) = map server_session (startup_server :: later') /\
              protocol_servers_created (t ++ t1) =
                map server_mcpServer (startup_server :: later') /\
              servers_connected (t ++ t1) = map server_id later' /\
              separate_servers (5 + n) (startup_server :: later')).
    { exists (later ++ [server]).
      rewrite servers_created_app, sessions_created_app, protocol_servers_created_app,
        servers_connected_app, T1, T2, T3, T4, Hsc, Hss, Hps, Hcn.
      cbn [map app]. rewrite !map_app. cbn [map server_session server_mcpServer server_id server].
      do 4 (split; [reflexivity|]).
      change (startup_server :: later ++ [server])
        with ((startup_server :: later) ++ [server]).
      apply (@separate_servers_mono
               (S (Nat.max (server_session server)
                     (Nat.max (server_mcpServer server) (server_id server))))).
      - cbn [server_session server_mcpServer server_id server]. lia.
      - apply (@separate_servers_snoc n); [assumption | cbn; lia..]. }
    assert (Hclosed : exited s = None ->
              ~ In (server_id startup_server) (servers_closed (t ++ t1))).
    { intros _. rewrite servers_closed_app, T5, app_nil_r. now apply Hglob. }
    rewrite Forall_forall in Hown.
    destruct connect as [err|].
    + unfold SseInv. cbn [globalServer isServerInitialized connections next_id exited].
      repeat split; try assumption; try (cbn; lia); try apply Hold.
    + unfold SseInv. cbn [globalServer isServerInitialized connections next_id exited].
      split; [reflexivity|]. split; [reflexivity|]. split; [cbn; lia|].
      split; [assumption|].
      assert (Hnew : forall f : Connection -> option nat,
                (forall c, In c (connections s) ->
                   exists k, f c = Some k /\ k < n) ->
                (exists k, f (mkConnection n (1 + n) (Some server)) = Some k /\ n <= k) ->
                NoDup (map f (connections s)) ->
                NoDup (map f (connections s ++ [mkConnection n (1 + n) (Some server)]))).
      { intros f Hf (k & Hk & Hge) Hnd. rewrite map_app. apply NoDup_snoc; [assumption|].
        cbn [map]. intros Hin. apply in_map_iff in Hin as (c & Hc & Hin).
        destruct (Hf c Hin) as (k' & Hk' & Hlt). rewrite Hk in Hc. rewrite Hc in Hk'.
        injection Hk' as <-. lia. }
      assert (Hsrv : forall c, In c (connections s) ->
                exists srv, conn_server c = Some srv /\ built_after_startup n srv).
      { intros c Hc. destruct (Hown c Hc) as (_ & srv & Hs & Hb & _). eauto. }
      split; [|split; [|split; [|split; [|split]]]].
      * apply Forall_app. split; [apply Hold|]. constructor; [|constructor].
        split; [cbn; lia|]. exists server. cbn [conn_server conn_transport next_id].
        split; [reflexivity|]. split; [unfold built_after_startup; cbn; lia|].
        rewrite servers_created_app, T3. split; apply in_or_app; right;
          [now left | exact T6].
      * rewrite map_app. apply NoDup_snoc; [assumption|]. cbn [map conn_req].
        intros Hin. apply in_map_iff in Hin as (c & Hc & Hin).
        destruct (Hown c Hin) as [Hlt _]. fold n in Hlt. lia.
      * apply Hnew; [|exists (2 + n); split; [reflexivity | lia] | assumption].
        intros c Hc. destruct (Hsrv c Hc) as (srv & Hs & Hb1 & _).
        exists (server_session srv). unfold conn_session. rewrite Hs.
        split; [reflexivity | lia].
      * apply Hnew; [|exists (3 + n); split; [reflexivity | lia] | assumption].
        intros c Hc. destruct (Hsrv c Hc) as (srv & Hs & _ & Hb2 & _).
        exists (server_mcpServer srv). unfold conn_mcpServer. rewrite Hs.
        split; [reflexivity | lia].
      * apply Hnew; [|exists (4 + n); split; [reflexivity | lia] | assumption].
        intros c Hc. destruct (Hsrv c Hc) as (srv & Hs & _ & _ & Hb3).
        exists (server_id srv). unfold conn_server_id. rewrite Hs.
        split; [reflexivity | lia].
      * assumption.
  - destruct (lookup_connection req (connections s)) as [[r tr [srv|]]|] eqn:Hl.
    + rewrite (sse_req_close_run req close s Hl eq_refl).
      unfold http_state, http_trace. cbn [fst snd].
      apply (@SseInv_silent s _ t _ Hinv Hex); try reflexivity;
        try (destruct close; reflexivity).
      intros _. rewrite servers_closed_close by reflexivity.
      apply find_some in Hl as [Hc _]. rewrite Forall_forall in Hown.
      destruct (Hown _ Hc) as (_ & srv' & Hs' & (_ & _ & Hid) & _).
      cbn in Hs'. injection Hs' as <-. cbn. lia.
    + unfold sse_req_close. rewrite hbind_run. cbn [hget]. rewrite Hl.
      unfold http_state, http_trace, hret. cbn [fst snd].
      apply (@SseInv_silent s _ t _ Hinv Hex); try reflexivity. intros _ [].
    + unfold sse_req_close. rewrite hbind_run. cbn [hget]. rewrite Hl.
      unfold http_state, http_trace, hret. cbn [fst snd].
      apply (@SseInv_silent s _ t _ Hinv Hex); try reflexivity. intros _ [].
  - destruct (lookup_connection req (connections s)) as [[r tr [srv|]]|] eqn:Hl.
    + rewrite (sse_req_error_run req err close s Hl eq_refl).
      unfold http_state, http_trace. cbn [fst snd].
      apply (@SseInv_silent s _ t _ Hinv Hex); try reflexivity;
        try (destruct close; reflexivity).
      intros _. rewrite servers_closed_close by reflexivity.
      apply find_some in Hl as [Hc _]. rewrite Forall_forall in Hown.
      destruct (Hown _ Hc) as (_ & srv' & Hs' & (_ & _ & Hid) & _).
      cbn in Hs'. injection Hs' as <-. cbn. lia.
    + unfold sse_req_error. rewrite hbind_run. cbn [hget]. rewrite Hl.
      unfold http_state, http_trace, hret. cbn [fst snd].
      apply (@SseInv_silent s _ t _ Hinv Hex); try reflexivity. intros _ [].
    + unfold sse_req_error. rewrite hbind_run. cbn [hget]. rewrite Hl.
      unfold http_state, http_trace, hret. cbn [fst snd].
      apply (@SseInv_silent s _ t _ Hinv Hex); try reflexivity. intros _ [].
  - rewrite (shutdown_run _ hc close s Hg). unfold http_state, http_trace. cbn [fst snd].
    destruct (@shutdown_events_silent
                (Log info serverCloseRequested
                   (template [signal_name sig; " received - shutting down gracefully"]))
                hc close (server_id startup_server))
      as (S1 & S2 & S3 & S4 & _); try reflexivity.
    apply (@SseInv_silent s _ t _ Hinv Hex); try reflexivity; try assumption.
    + cbn [globalServer]. now rewrite Hg.
    + cbn [exited]. discriminate.
Qed.

Lemma startup_SseInv :
  SseInv (mkHttpState 3 (Some startup_server) true [] None) startup_events.
Proof.
  unfold SseInv. cbn [globalServer isServerInitialized next_id connections exited].
  split; [reflexivity|]. split; [reflexivity|]. split; [lia|]. split.
  { exists []. repeat split; try reflexivity.
    - repeat constructor; cbn; lia.
    - repeat constructor; intros [].
    - repeat constructor; intros [].
    - repeat constructor; intros []. }
  repeat split; try constructor.
  intros _ Hin. cbn in Hin. exact Hin.
Qed.

Lemma sse_reachable (inputs : list SseInput) :
  SseInv (http_state (sse_process None inputs initial_state))
    (http_trace (sse_process None inputs initial_state)).
Proof.
  rewrite sse_process_run. unfold http_state at 1, http_trace at 1. cbn [fst snd].
  exact (@serve_invariant _ sse_handle SseInv sse_handle_SseInv inputs _ _
           startup_SseInv).
Qed.





(** ** The Streamable HTTP variant: one session per request *)

Lemma mcp_post_run (connect handle : option string) (headersSent : bool)
  (s : HttpState) :
  let n := next_id s in
  mcp_post connect handle headersSent s =
  (tt,
   mkHttpState (5 + n) (globalServer s) (isServerInitialized s)
     (connections s ++ [mkConnection n (4 + n) None]) (exited s),
   [ConsoleLog "Received MCP request:"; NewSession (1 + n); NewMcpServer (2 + n);
    TelemetryCreate (1 + n); NewServer (mkServerObj (3 + n) (1 + n) (2 + n));
    NewStreamableHTTPServerTransport (4 + n) None; ServerConnect (3 + n) (4 + n)] ++
   mcp_post_tail connect handle headersSent (4 + n)).
Proof.
  destruct s as [n g init conns ex]. destruct connect, handle, headersSent; reflexivity.
Qed.

Lemma mcp_post_tail_sessions connect handle headersSent transport :
  sessions_created (mcp_post_tail connect handle headersSent transport) = [].
Proof. destruct connect, handle, headersSent; reflexivity. Qed.

Lemma lookup_connection_new (l : list Connection) (c : Connection) :
  Forall (fun c' => conn_req c' < conn_req c) l ->
  lookup_connection (conn_req c) (l ++ [c]) = Some c /\
  remove_connection (conn_req c) (l ++ [c]) = l.
Proof.
  unfold lookup_connection, remove_connection.
  induction 1 as [|c' l Hlt Hl [IH1 IH2]]; cbn.
  - rewrite Nat.eqb_refl. split; reflexivity.
  - assert (E : Nat.eqb (conn_req c') (conn_req c) = false) by (apply Nat.eqb_neq; lia).
    rewrite E. cbn. rewrite IH1, IH2. split; reflexivity.
Qed.

Lemma McpInv_quiet_silent (h : H unit) (s : HttpState) (t : list HttpEvent) :
  quiet h ->
  sessions_created (http_trace (h s)) = [] ->
  (forall c, In c (connections (http_state (h s))) -> In c (connections s)) ->
  McpInv s t -> McpInv (http_state (h s)) (t ++ http_trace (h s)).
Proof.
  intros Hq Hs Hc (Hconn & Hlt & Hnd). destruct (Hq s) as (_ & _ & _ & Hn & _).
  unfold McpInv. rewrite sessions_created_app, Hs, app_nil_r.
  repeat split; try assumption.
  - apply Forall_forall. intros c Hin. rewrite Forall_forall in Hconn.
    specialize (Hconn c (Hc c Hin)). lia.
  - eapply Forall_impl; [|exact Hlt]. cbn. intros. lia.
Qed.

Lemma mcp_handle_McpInv (i : McpInput) (s : HttpState) (t : list HttpEvent) :
  McpInv s t -> exited s = None ->
  McpInv (http_state (mcp_handle i s)) (t ++ http_trace (mcp_handle i s)).
Proof.
  intros Hinv Hex.
  destruct i as [connect handle hs | res | | | sig hc close]; cbn [mcp_handle].
  - destruct Hinv as (Hconn & Hlt & Hnd).
    rewrite mcp_post_run. unfold http_state, http_trace. cbn [fst snd].
    unfold McpInv. cbn [connections next_id].
    rewrite !sessions_created_app, mcp_post_tail_sessions, app_nil_r.
    change (sessions_created (_ :: _)) with [1 + next_id s].
    split; [|split].
    + apply Forall_app. split.
      * eapply Forall_impl; [|exact Hconn]. cbn. intros. lia.
      * constructor; [cbn; lia | constructor].
    + apply Forall_app. split.
      * eapply Forall_impl; [|exact Hlt]. cbn. intros. lia.
      * constructor; [cbn; lia | constructor].
    + apply NoDup_snoc; [assumption|]. intros Hin.
      rewrite Forall_forall in Hlt. specialize (Hlt _ Hin). lia.
  - apply McpInv_quiet_silent; [apply mcp_res_close_quiet | | | assumption].
    + destruct s as [n g init conns ex]. unfold mcp_res_close. rewrite hbind_run.
      cbn [hget connections]. destruct (lookup_connection res conns); reflexivity.
    + destruct s as [n g init conns ex]. unfold mcp_res_close. rewrite hbind_run.
      cbn [hget connections]. destruct (lookup_connection res conns);
        unfold http_state; cbn; [|tauto].
      intros c' Hin. apply filter_In in Hin. tauto.
  - apply McpInv_quiet_silent; [apply mcp_method_not_allowed_quiet | | | assumption].
    + reflexivity.
    + destruct s; cbn; tauto.
  - apply McpInv_quiet_silent; [apply mcp_method_not_allowed_quiet | | | assumption].
    + reflexivity.
    + destruct s; cbn; tauto.
  - destruct Hinv as (Hconn & Hlt & Hnd).
    destruct s as [n [g|] init conns ex]; destruct hc, close;
      unfold McpInv, http_state, http_trace; cbn [fst snd shutdown];
      rewrite sessions_created_app; cbn; rewrite app_nil_r; repeat split; assumption.
Qed.

Lemma mcp_reachable (inputs : list McpInput) :
  McpInv (http_state (mcp_process None inputs initial_state))
    (http_trace (mcp_process None inputs initial_state)).
Proof.
  rewrite mcp_process_run. unfold http_state at 1, http_trace at 1. cbn [fst snd].
  apply (@serve_invariant _ mcp_handle McpInv mcp_handle_McpInv inputs).
  repeat split; cbn; repeat constructor. intros [].
Qed.

(** C3: in the Streamable HTTP variant every POST on [/mcp], whatever came
    before, is served by a session, a protocol server and a [Server] that are
    allocated for it and were never seen before, behind a transport made
    without a session-id generator; no two requests of a run share a session.
    The handler leaves the globals as they are and registers nothing but the
    close handler of its response; when the response closes the transport is
    closed and that registration is gone, so that the state is the one before
    the request, but for the allocation counter. *)
Theorem per_request_isolation (inputs : list McpInput) (connect handle : option string)
  (headersSent : bool) :
  let before := mcp_process None inputs initial_state in
  let s := http_state before in
  let n := next_id s in
  let r := mcp_post connect handle headersSent s in
  http_trace r =
    [ConsoleLog "Received MCP request:"; NewSession (1 + n); NewMcpServer (2 + n);
     TelemetryCreate (1 + n); NewServer (mkServerObj (3 + n) (1 + n) (2 + n));
     NewStreamableHTTPServerTransport (4 + n) None; ServerConnect (3 + n) (4 + n)] ++
    mcp_post_tail connect handle headersSent (4 + n) /\
  sessions_created (http_trace r) = [1 + n] /\
  ~ In (1 + n) (sessions_created (http_trace before)) /\
  NoDup (sessions_created (http_trace before)) /\
  http_state r =
    mkHttpState (5 + n) (globalServer s) (isServerInitialized s)
      (connections s ++ [mkConnection n (4 + n) None]) (exited s) /\
  mcp_res_close n (http_state r) =
    (tt,
     mkHttpState (5 + n) (globalServer s) (isServerInitialized s) (connections s)
       (exited s),
     [TransportClose (4 + n)]).
Proof.
  intros before s n r.
  pose proof (mcp_reachable inputs) as (Hconn & Hlt & Hnd).
  fold before in Hconn, Hlt, Hnd. fold s in Hconn, Hlt. fold n in Hconn, Hlt.
  assert (Hr : r = (tt,
                    mkHttpState (5 + n) (globalServer s) (isServerInitialized s)
                      (connections s ++ [mkConnection n (4 + n) None]) (exited s),
                    [ConsoleLog "Received MCP request:"; NewSession (1 + n);
                     NewMcpServer (2 + n); TelemetryCreate (1 + n);
                     NewServer (mkServerObj (3 + n) (1 + n) (2 + n));
                     NewStreamableHTTPServerTransport (4 + n) None;
                     ServerConnect (3 + n) (4 + n)] ++
                    mcp_post_tail connect handle headersSent (4 + n)))
    by apply mcp_post_run.
  rewrite Hr. unfold http_state at 1 2, http_trace at 1 2. cbn [fst snd].
  split; [reflexivity|].
  split.
  { rewrite sessions_created_app, mcp_post_tail_sessions. reflexivity. }
  split.
  { intros Hin. rewrite Forall_forall in Hlt. specialize (Hlt _ Hin). lia. }
  split; [assumption|]. split; [reflexivity|].
  destruct (@lookup_connection_new (connections s) (mkConnection n (4 + n) None))
    as [Hlook Hrem].
  { exact Hconn. }
  cbn [conn_req] in Hlook, Hrem.
  unfold mcp_res_close. rewrite hbind_run. cbn [hget connections].
  rewrite Hlook. cbn -[remove_connection Nat.add].
  rewrite Hrem. reflexivity.
Qed.

Lemma per_request_isolation_witness :
  sessions_created
    (http_trace (mcp_post None None false
                   (http_state (mcp_process None [PostMcp None None false]
                                  initial_state)))) = [9] /\
  ~ In 9 (sessions_created
            (http_trace (mcp_process None [PostMcp None None false] initial_state))).
Proof.
  pose proof (per_request_isolation [PostMcp None None false] None None false)
    as (_ & H1 & H2 & _).
  exact (conj H1 H2).
Defined.

(** * Properties of the connect memoization *)

Lemma Forall_set_nth {A} (P : A -> Prop) (i : nat) (x : A) (l : list A) :
  Forall P l -> P x -> Forall P (set_nth i x l).
Proof.
  intros Hl Hx. revert i.
  induction Hl as [|y l Hy Hl IH]; intros [|i]; cbn; constructor; auto.
Qed.

Lemma set_nth_length {A} (i : nat) (x : A) (l : list A) :
  length (set_nth i x l) = length l.
Proof.
  revert i. induction l as [|y l IH]; intros [|i]; cbn; auto.
Qed.

Lemma caller_in_phase_mono (a a' c c' : bool) (k : Caller) :
  (a = true -> a' = true) -> (c = true -> c' = true) ->
  caller_in_phase a c k -> caller_in_phase a' c' k.
Proof. destruct k; cbn; intuition. Qed.

Lemma Forall_nth_error {A} (P : A -> Prop) (l : list A) (i : nat) (x : A) :
  Forall P l -> nth_error l i = Some x -> P x.
Proof.
  intros Hl Hn. rewrite Forall_forall in Hl. apply Hl. eapply nth_error_In; eauto.
Qed.

Lemma memo_step_phase (s : MemoState) (a : Action) :
  connect_succeeds a = true -> MemoPhase s -> MemoPhase (memo_step s a).
Proof.
  intros Hok Hphase.
  destruct a as [i | ok | i]; cbn [memo_step].
  - destruct (nth_error (memo_callers s) i) as [[| | |]|] eqn:Hnth; try assumption.
    destruct Hphase as [Hp Hi Ha Hs Hc | Hp Hi Ha Hs Hc | Hp Hi Ha Hs Hc];
      rewrite ?Hp, ?Hi.
    + apply Phase_connecting; cbn; rewrite ?Ha; try reflexivity; try assumption.
      apply Forall_set_nth; [|cbn; auto].
      eapply Forall_impl; [|exact Hc]. intros k. now apply caller_in_phase_mono.
    + apply Phase_connecting; cbn; try assumption.
      apply Forall_set_nth; [assumption | cbn; auto].
    + apply Phase_connected; cbn; try assumption.
      apply Forall_set_nth; [assumption | cbn; auto].
  - destruct ok; [|discriminate Hok].
    destruct Hphase as [Hp Hi Ha Hs Hc | Hp Hi Ha Hs Hc | Hp Hi Ha Hs Hc];
      rewrite Hi.
    + now apply Phase_idle.
    + apply Phase_connected; cbn; rewrite ?Hs; try reflexivity; try assumption.
      eapply Forall_impl; [|exact Hc]. intros k. now apply caller_in_phase_mono.
    + now apply Phase_connected.
  - destruct (nth_error (memo_callers s) i) as [[|att| |]|] eqn:Hnth; try assumption.
    destruct Hphase as [Hp Hi Ha Hs Hc | Hp Hi Ha Hs Hc | Hp Hi Ha Hs Hc];
      rewrite Hs; pose proof (Forall_nth_error _ Hc Hnth) as Hk; cbn in Hk.
    + destruct Hk as [_ Hk]. discriminate Hk.
    + cbn. now apply Phase_connecting.
    + destruct Hk as [-> _]. cbn.
      apply Phase_connected; cbn; try assumption.
      apply Forall_set_nth; [assumption | cbn; auto].
Qed.

Lemma memo_run_phase (schedule : list Action) (s : MemoState) :
  forallb connect_succeeds schedule = true -> MemoPhase s ->
  MemoPhase (memo_run schedule s).
Proof.
  revert s. induction schedule as [|a rest IH]; intros s Hok Hs; [assumption|].
  cbn in Hok. apply andb_prop in Hok as [Ha Hrest].
  cbn. apply IH; [assumption|]. now apply memo_step_phase.
Qed.

Lemma memo_step_length (s : MemoState) (a : Action) :
  length (memo_callers (memo_step s a)) = length (memo_callers s).
Proof.
  destruct a as [i | ok | i]; cbn [memo_step].
  - destruct (nth_error (memo_callers s) i) as [[| | |]|]; try reflexivity.
    destruct (memo_provider s), (memo_inflight s); cbn; apply set_nth_length.
  - destruct (memo_inflight s); [destruct ok|]; reflexivity.
  - destruct (nth_error (memo_callers s) i) as [[|att| |]|]; try reflexivity.
    destruct (outcome_of_attempt att (memo_settled s)) as [[p|]|]; cbn;
      try reflexivity; apply set_nth_length.
Qed.

Lemma memo_run_length (schedule : list Action) (s : MemoState) :
  length (memo_callers (memo_run schedule s)) = length (memo_callers s).
Proof.
  revert s. induction schedule as [|a rest IH]; intros s; [reflexivity|].
  cbn. rewrite IH. apply memo_step_length.
Qed.

Lemma memo_init_phase (n : nat) : MemoPhase (memo_init n).
Proof.
  apply Phase_idle; try reflexivity. cbn.
  induction n; cbn; constructor; cbn; auto.
Qed.

(** C6: on a disconnected session, however the calls of any number of
    concurrent callers, the settling of the connect and their resumptions
    interleave, while connects succeed the provider is asked to connect at most
    once, and exactly once as soon as one caller has asked; a caller that finds
    a connect in flight awaits that same attempt; every caller that has its
    provider has the same instance, the one the session holds.  Two callers
    that both call before the connect settles both end with that instance
    after one attempt. *)
Theorem connect_memoized (n : nat) (schedule : list Action) :
  forallb connect_succeeds schedule = true ->
  let s := memo_run schedule (memo_init n) in
  length (memo_callers s) = n /\
  memo_attempts s <= 1 /\
  (forall i c, nth_error (memo_callers s) i = Some c -> c <> Ready ->
     memo_attempts s = 1) /\
  (forall i a, nth_error (memo_callers s) i = Some (Awaiting a) ->
     a = 0 /\ (memo_inflight s = Some a \/ memo_provider s = Some a)) /\
  (forall i p, nth_error (memo_callers s) i = Some (Got p) ->
     memo_provider s = Some p) /\
  (forall i j p q,
     nth_error (memo_callers s) i = Some (Got p) ->
     nth_error (memo_callers s) j = Some (Got q) -> p = q) /\
  ~ In Failed (memo_callers s) /\
  memo_run [Call 0; Call 1; Settle true; Resume 0; Resume 1] (memo_init 2) =
    mkMemoState (Some 0) None 1 [(0, Some 0)] [Got 0; Got 0].
Proof.
  intros Hok s.
  pose proof (memo_run_phase schedule Hok (memo_init_phase n)) as Hphase.
  fold s in Hphase.
  split.
  { unfold s. rewrite memo_run_length. cbn. apply repeat_length. }
  assert (Hcallers : forall i c, nth_error (memo_callers s) i = Some c ->
            exists a b, caller_in_phase a b c /\
              (a = true -> memo_attempts s = 1 /\
                           (memo_inflight s = Some 0 \/ memo_provider s = Some 0)) /\
              (b = true -> memo_attempts s = 1 /\ memo_provider s = Some 0)).
  { intros i c Hnth.
    destruct Hphase as [Hp Hi Ha Hs Hc | Hp Hi Ha Hs Hc | Hp Hi Ha Hs Hc];
      pose proof (Forall_nth_error _ Hc Hnth) as Hk;
      do 2 eexists; (split; [exact Hk|]); split; intros; try discriminate; auto. }
  split.
  { destruct Hphase as [? ? Ha | ? ? Ha | ? ? Ha]; rewrite Ha; lia. }
  split.
  { intros i c Hnth Hc. destruct (Hcallers i c Hnth) as (a & b & Hk & Ha & Hb).
    destruct c; cbn in Hk; try contradiction; try congruence.
    - destruct Hk as [_ ->]. now apply Ha.
    - destruct Hk as [_ ->]. now apply Hb. }
  split.
  { intros i a Hnth. destruct (Hcallers i _ Hnth) as (x & b & Hk & Ha & _).
    cbn in Hk. destruct Hk as [-> ->]. split; [reflexivity|]. now apply Ha. }
  split.
  { intros i p Hnth. destruct (Hcallers i _ Hnth) as (x & b & Hk & _ & Hb).
    cbn in Hk. destruct Hk as [-> ->]. now apply Hb. }
  split.
  { intros i j p q Hi Hj.
    destruct (Hcallers i _ Hi) as (x & b & Hk & _). cbn in Hk.
    destruct (Hcallers j _ Hj) as (x' & b' & Hk' & _). cbn in Hk'.
    destruct Hk, Hk'. congruence. }
  split; [|reflexivity].
  intros Hin. apply In_nth_error in Hin as [i Hnth].
  destruct (Hcallers i _ Hnth) as (x & b & Hk & _). exact Hk.
Qed.

Lemma connect_memoized_witness :
  memo_attempts (memo_run [Call 0; Call 1; Settle true; Resume 1; Resume 0]
                   (memo_init 2)) <= 1 /\
  memo_callers (memo_run [Call 0; Call 1; Settle true; Resume 1; Resume 0]
                  (memo_init 2)) = [Got 0; Got 0].
Proof.
  split.
  - exact (proj1 (proj2 (connect_memoized 2
                           [Call 0; Call 1; Settle true; Resume 1; Resume 0] eq_refl))).
  - reflexivity.
Defined.

(** * Further properties of the tools *)

Lemma connects_of_app (t1 t2 : list Event) :
  connects_of (t1 ++ t2) = connects_of t1 + connects_of t2.
Proof. unfold connects_of. now rewrite filter_app, length_app. Qed.

Lemma prelude_session (requested : option string) (s : Session) :
  serviceProvider (session_of (prelude requested s)) = serviceProvider s /\
  defaultDatabase (session_of (prelude requested s)) = defaultDatabase s /\
  connects_of (trace_of (prelude requested s)) <= 1 /\
  (connState s = Connected -> connects_of (trace_of (prelude requested s)) = 0) /\
  (forall x, outcome_of (prelude requested s) = inr x ->
     connState (session_of (prelude requested s)) = Connected).
Proof.
  destruct s as [p c d].
  unfold prelude, ensureConnected, getEffectiveDatabase, await_connect.
  destruct c, (connect p) eqn:Hc, requested as [[|a r]|], d;
    run_monad; rewrite ?Hc; run_monad;
    unfold session_of, trace_of, outcome_of, connects_of; cbn;
    repeat split; try lia; try discriminate; reflexivity.
Qed.

(** An execute function made of the two session helpers and a one-shot rest. *)
Lemma one_shot_run {A} (requested : option string) (k : Provider -> string -> M A)
  (run : M A) (s : Session) :
  (forall s', run s' =
     (provider <- ensureConnected ;;
      effectiveDatabase <- getEffectiveDatabase requested ;;
      k provider effectiveDatabase) s') ->
  one_shot k ->
  length (ops_of (trace_of (run s))) <= 1 /\
  connects_of (trace_of (run s)) <= 1 /\
  (connState s = Connected -> connects_of (trace_of (run s)) = 0) /\
  (ops_of (trace_of (run s)) <> [] -> connState (session_of (run s)) = Connected) /\
  serviceProvider (session_of (run s)) = serviceProvider s /\
  defaultDatabase (session_of (run s)) = defaultDatabase s.
Proof.
  intros Hrun Hk. rewrite Hrun, execute_prelude.
  destruct (prelude_session requested s) as (Hp & Hd & Hc & Hc0 & Hconn).
  destruct (prelude_cases requested s) as (s1 & t & r & Hpre & HP & _).
  rewrite Hpre in *. unfold session_of, trace_of, outcome_of in *. cbn [fst snd] in *.
  pose proof (Prelude_ops HP) as Hops.
  destruct r as [e | [p db]].
  - cbn [fst snd]. rewrite Hops. repeat split; auto. intros H. now elim H.
  - destruct (Hk p db s1) as (Hs & Ho & Hn).
    destruct (k p db s1) as [[s2 t2] r2].
    unfold session_of, trace_of in *. cbn [fst snd] in *. subst s2.
    rewrite ops_of_app, connects_of_app, Hops, Hn. cbn [app].
    repeat split; auto; try lia.
    + intros H. specialize (Hc0 H). lia.
    + intros _. eapply Hconn. reflexivity.
Qed.

Ltac destruct_matches :=
  repeat (match goal with
          | |- context [match ?x with _ => _ end] =>
              lazymatch x with
              | context [match _ with _ => _ end] => fail
              | _ => destruct x eqn:?
              end
          end; cbn).

Ltac one_shot_tac :=
  let p := fresh "p" in
  let db := fresh "db" in
  let s1 := fresh "s1" in
  intros p db s1;
  unfold parse_filter, parse_pipeline;
  run_monad; destruct_matches;
  unfold session_of, trace_of, ops_of, connects_of; cbn;
  repeat split; first [reflexivity | lia].

(** X1: every tool call issues at most one backend operation and at most
    one connect attempt, none at all on a connected session; an operation is
    issued only on a connected session; and the call leaves the session's
    provider and default database as they were. *)
Theorem tools_issue_at_most_one_operation (lib : Library)
  (countArgs : Value -> option (option Value)) (t : Tool) (args : argT t)
  (s : Session) :
  In t (SourceTools lib countArgs) ->
  length (ops_of (trace_of (execute t args s))) <= 1 /\
  connects_of (trace_of (execute t args s)) <= 1 /\
  (connState s = Connected -> connects_of (trace_of (execute t args s)) = 0) /\
  (ops_of (trace_of (execute t args s)) <> [] ->
   connState (session_of (execute t args s)) = Connected) /\
  serviceProvider (session_of (execute t args s)) = serviceProvider s /\
  defaultDatabase (session_of (execute t args s)) = defaultDatabase s.
Proof.
  intros Hin. unfold SourceTools in Hin. cbn [In] in Hin.
  repeat (destruct Hin as [<- | Hin]); [..|contradiction];
    (eapply one_shot_run; [intros s'; reflexivity | one_shot_tac]).
Qed.

Lemma tools_issue_at_most_one_operation_witness :
  length (ops_of (trace_of (FindTool_execute sample_library
            (mkFindToolArgs (mkDbOperationArgs (Some "shop") "orders")
               (mkFindArgs None None 0%Z None))
            (sample_session None)))) <= 1.
Proof.
  assert (Hin : In (FindTool sample_library)
                  (SourceTools sample_library sample_count_shape)) by (cbn; tauto).
  exact (proj1 (@tools_issue_at_most_one_operation sample_library sample_count_shape
                  (FindTool sample_library)
                  (mkFindToolArgs (mkDbOperationArgs (Some "shop") "orders")
                     (mkFindArgs None None 0%Z None))
                  (sample_session None) Hin)).
Defined.

(** ** Where operations are sent *)

Lemma aimed_run {A} (requested : option string) (coll : option string)
  (k : Provider -> string -> M A) (run : M A) (s : Session) (op : BackendOp) :
  (forall s', run s' =
     (provider <- ensureConnected ;;
      effectiveDatabase <- getEffectiveDatabase requested ;;
      k provider effectiveDatabase) s') ->
  aimed_at coll k ->
  In op (ops_of (trace_of (run s))) ->
  outcome_of (getEffectiveDatabase requested s) = inr (op_database op) /\
  op_collection op = coll.
Proof.
  intros Hrun Hk. rewrite Hrun, execute_prelude.
  destruct (prelude_cases requested s) as (s1 & t & r & Hpre & HP & _).
  rewrite Hpre. pose proof (Prelude_ops HP) as Hops.
  destruct r as [e | [p db]].
  - unfold trace_of. cbn [fst snd]. rewrite Hops. intros [].
  - specialize (Hk p db s1 op).
    destruct (k p db s1) as [[s2 t2] r2]. unfold trace_of in *. cbn [fst snd] in *.
    rewrite ops_of_app, Hops. cbn [app]. intros Hin.
    destruct (Hk Hin) as [Hdb Hcoll]. split; [|assumption].
    inversion HP as [| |db' s1' t' Hs1 Hget]; subst.
    eapply resolution_stable; [|exact Hget]. reflexivity.
Qed.

Ltac aimed_tac :=
  let p := fresh "p" in
  let db := fresh "db" in
  let s1 := fresh "s1" in
  let op := fresh "op" in
  intros p db s1 op;
  unfold parse_filter, parse_pipeline;
  run_monad; destruct_matches;
  unfold trace_of, ops_of; cbn;
  intros Hin;
  repeat (destruct Hin as [Hin | Hin]; [subst op; split; reflexivity|]);
  contradiction.

(** X2: whatever tool is called, the operation it issues names the database
    that [getEffectiveDatabase] gives for the call's [database] argument, and
    the collection of the call's [collection] argument. *)
Theorem operations_target_effective_database (lib : Library)
  (countArgs : Value -> option (option Value)) (t : Tool) (raw : Value)
  (args : argT t) (s : Session) (op : BackendOp) :
  In t (SourceTools lib countArgs) ->
  argsShape t raw = Some args ->
  In op (ops_of (trace_of (execute t args s))) ->
  outcome_of (getEffectiveDatabase (requested_database raw) s) = inr (op_database op) /\
  (forall c, op_collection op = Some c -> prop "collection" raw = Some (VStr c)).
Proof.
  intros Hin Hshape Hop.
  unfold SourceTools in Hin. cbn [In] in Hin.
  repeat (destruct Hin as [<- | Hin]); [..|contradiction];
    unfold ListCollectionsTool, DbStatsTool, ExplainTool, CollectionIndexesTool,
      FindTool, AggregateTool, InsertManyTool, CreateCollectionTool,
      RenameCollectionTool, DropCollectionTool, DropDatabaseTool in *;
    cbn [argT argsShape execute] in *.
  all: try (apply field_database_requested in Hshape; rewrite <- Hshape;
            assert (Haim : outcome_of (getEffectiveDatabase args s) =
                             inr (op_database op) /\ op_collection op = None)
              by (eapply aimed_run; [ | | exact Hop]; [intros s'; reflexivity | aimed_tac]);
            destruct Haim as [Hdb Hcoll]; split; [exact Hdb|];
            intros c Hc; congruence).
  all: try (unfold ExplainArgs_shape, FindToolArgs_shape, AggregateToolArgs_shape,
              InsertManyArgs_shape, RenameCollectionArgs_shape, obind in Hshape;
            destruct (DbOperationArgs_shape raw) as [d|] eqn:Hdb'; [|discriminate];
            repeat match type of Hshape with
              | context [match ?x with _ => _ end] => destruct x; try discriminate
              end;
            injection Hshape as <-;
            cbn [explain_db find_db aggregate_db insert_db rename_db] in * ).
  all: try rename Hshape into Hdb'.
  all: try rename d into args.
  all: destruct (DbOperationArgs_shape_requested _ Hdb') as [Hd Hc'];
    rewrite <- Hd;
    assert (Haim : outcome_of (getEffectiveDatabase (database args) s) =
                     inr (op_database op) /\
                   op_collection op = Some (collection args))
      by (eapply aimed_run; [ | | exact Hop]; [intros s'; reflexivity | aimed_tac]);
    destruct Haim as [Hdb Hcoll]; split; [exact Hdb|];
    intros c Hcc; rewrite Hcoll in Hcc; injection Hcc as <-; exact Hc'.
Qed.

Lemma operations_target_effective_database_witness :
  outcome_of (getEffectiveDatabase
                (requested_database (VObj [("collection", VStr "logs")]))
                (sample_session (Some "app"))) = inr "app".
Proof.
  assert (Hin : In CreateCollectionTool (SourceTools sample_library sample_count_shape))
    by (cbn; tauto).
  assert (Hop : In (OpCreateCollection "app" "logs")
                  (ops_of (trace_of (execute CreateCollectionTool
                                       (mkDbOperationArgs None "logs")
                                       (sample_session (Some "app"))))))
    by (vm_compute; tauto).
  exact (proj1 (@operations_target_effective_database sample_library sample_count_shape
                  CreateCollectionTool (VObj [("collection", VStr "logs")])
                  (mkDbOperationArgs None "logs") (sample_session (Some "app"))
                  (OpCreateCollection "app" "logs") Hin eq_refl Hop)).
Defined.

(** ** Arguments as they reach the backend *)

Lemma optional_record_as_given (fields : list (string * Value)) (k : string)
  (v : option Value) :
  field k (z_optional z_record) (VObj fields) = Some v -> v = assoc k fields.
Proof.
  unfold field, z_optional, z_record.
  destruct (assoc k fields) as [[]|]; cbn; congruence.
Qed.

Lemma FindArgs_shape_as_given (raw : Value) (a : FindArgs) :
  FindArgs_shape raw = Some a ->
  find_filter a = prop "filter" raw /\
  find_rest a =
    mkFindOptions (prop "projection" raw)
      (match prop "limit" raw with Some (VNum n) => n | _ => 0%Z end)
      (prop "sort" raw).
Proof.
  unfold FindArgs_shape, obind. intros H.
  destruct raw; try discriminate.
  destruct (field "filter" (z_optional z_record) (VObj fields)) as [f|] eqn:Hf;
    [|discriminate].
  destruct (field "projection" (z_optional z_record) (VObj fields)) as [p|] eqn:Hp;
    [|discriminate].
  destruct (field "limit" (z_default z_number 0%Z) (VObj fields)) as [l|] eqn:Hl;
    [|discriminate].
  destruct (field "sort" (z_optional z_record) (VObj fields)) as [so|] eqn:Hs;
    [|discriminate].
  injection H as <-.
  apply optional_record_as_given in Hf, Hp, Hs. subst f p so.
  unfold find_rest. cbn [find_filter find_projection find_limit find_sort prop].
  split; [reflexivity|]. f_equal.
  unfold field, z_default, z_number in Hl.
  destruct (assoc "limit" fields) as [[]|]; congruence.
Qed.

(** X3: a find call hands projection, limit and sort to the backend exactly
    as the caller gave them, and an omitted limit as 0. *)
Theorem find_options_as_given (lib : Library) (raw : Value) (args : FindToolArgs)
  (s : Session) (op : BackendOp) :
  FindToolArgs_shape raw = Some args ->
  In op (ops_of (trace_of (FindTool_execute lib args s))) ->
  exists db parsedFilter,
    op = OpFind db (collection (find_db args)) parsedFilter
           (mkFindOptions (prop "projection" raw)
              (match prop "limit" raw with Some (VNum n) => n | _ => 0%Z end)
              (prop "sort" raw)).
Proof.
  intros Hshape Hop. rewrite find_ops in Hop.
  unfold FindToolArgs_shape, obind in Hshape.
  destruct (DbOperationArgs_shape raw) as [d|]; [|discriminate].
  destruct (FindArgs_shape raw) as [a|] eqn:Ha; [|discriminate].
  injection Hshape as <-. cbn [find_db find_args] in *.
  destruct (FindArgs_shape_as_given _ Ha) as [_ Hrest]. rewrite Hrest in Hop.
  destruct (outcome_of (prelude (database d) s)) as [e | [p db]]; [destruct Hop|].
  destruct (outcome_of (parse_filter lib (find_filter a) s)) as [e | pf];
    [destruct Hop|].
  destruct Hop as [<- | []]. eauto.
Qed.

Lemma find_options_as_given_witness :
  exists db parsedFilter,
    OpFind "shop" "orders" None (mkFindOptions None 0%Z None) =
    OpFind db "orders" parsedFilter (mkFindOptions None 0%Z None).
Proof.
  assert (Hop : In (OpFind "shop" "orders" None (mkFindOptions None 0%Z None))
                  (ops_of (trace_of (FindTool_execute sample_library
                     (mkFindToolArgs (mkDbOperationArgs (Some "shop") "orders")
                        (mkFindArgs None None 0%Z None))
                     (sample_session None)))))
    by (vm_compute; tauto).
  exact (@find_options_as_given sample_library
           (VObj [("database", VStr "shop"); ("collection", VStr "orders")])
           (mkFindToolArgs (mkDbOperationArgs (Some "shop") "orders")
              (mkFindArgs None None 0%Z None))
           (sample_session None) _ eq_refl Hop).
Defined.

Lemma rename_ops (args : RenameCollectionArgs) (s : Session) :
  ops_of (trace_of (RenameCollectionTool_execute args s)) =
  match outcome_of (prelude (database (rename_db args)) s) with
  | inr (_, db) =>
      [OpRenameCollection db (collection (rename_db args)) (newName args)
         (dropTarget args)]
  | inl _ => []
  end.
Proof.
  unfold RenameCollectionTool_execute. cbn zeta.
  split_prelude (database (rename_db args)) s; unfold trace_of, outcome_of;
    cbn [fst snd].
  - exact (Prelude_ops Hpre).
  - run_monad. destruct (respond_name _ _); cbn;
      rewrite ?ops_of_app, (Prelude_ops Hpre); reflexivity.
Qed.

(** X4: a rename call asks the backend to drop an existing target only when
    the caller passed [dropTarget: true]; left out, it is sent as false.  The
    new name is sent as given. *)
Theorem rename_drop_target_defaults_false (raw : Value) (args : RenameCollectionArgs)
  (s : Session) (op : BackendOp) :
  RenameCollectionArgs_shape raw = Some args ->
  In op (ops_of (trace_of (RenameCollectionTool_execute args s))) ->
  prop "newName" raw = Some (VStr (newName args)) /\
  exists db,
    op = OpRenameCollection db (collection (rename_db args)) (newName args)
           (match prop "dropTarget" raw with Some (VBool b) => b | _ => false end).
Proof.
  intros Hshape Hop. rewrite rename_ops in Hop.
  unfold RenameCollectionArgs_shape, obind in Hshape.
  destruct (DbOperationArgs_shape raw) as [d|]; [|discriminate].
  destruct raw; try discriminate. unfold field, z_string, z_default, z_boolean in Hshape.
  unfold prop.
  destruct (assoc "newName" fields) as [[]|]; try discriminate.
  destruct (assoc "dropTarget" fields) as [[]|]; try discriminate;
    injection Hshape as <-; cbn [rename_db newName dropTarget] in *;
    (split; [reflexivity|]);
    (destruct (outcome_of (prelude (database d) s)) as [e | [p db]];
     [destruct Hop | destruct Hop as [<- | []]; eauto]).
Qed.

Lemma rename_drop_target_defaults_false_witness :
  exists db,
    OpRenameCollection "shop" "orders" "archive" false =
    OpRenameCollection db "orders" "archive" false.
Proof.
  assert (Hop : In (OpRenameCollection "shop" "orders" "archive" false)
                  (ops_of (trace_of (RenameCollectionTool_execute
                     (mkRenameCollectionArgs (mkDbOperationArgs (Some "shop") "orders")
                        "archive" false)
                     (sample_session None)))))
    by (vm_compute; tauto).
  exact (proj2 (@rename_drop_target_defaults_false
           (VObj [("database", VStr "shop"); ("collection", VStr "orders");
                  ("newName", VStr "archive")])
           (mkRenameCollectionArgs (mkDbOperationArgs (Some "shop") "orders")
              "archive" false)
           (sample_session None) _ eq_refl Hop)).
Defined.





(** ** Results of successful calls *)

(** A call that returns has connected, resolved its database, and returns
    what the rest of the execute function returns on the session's provider. *)
Lemma returned_after_prelude {A} (requested : option string)
  (k : Provider -> string -> M A) (run : M A) (s : Session) (r : A) :
  (forall s', run s' =
     (provider <- ensureConnected ;;
      effectiveDatabase <- getEffectiveDatabase requested ;;
      k provider effectiveDatabase) s') ->
  outcome_of (run s) = inr r ->
  exists db s1,
    outcome_of (getEffectiveDatabase requested s) = inr db /\
    outcome_of (k (serviceProvider s) db s1) = inr r.
Proof.
  intros Hrun. rewrite Hrun, execute_prelude.
  destruct (prelude_cases requested s) as (s1 & t & o & Hpre & HP & Hprov).
  rewrite Hpre. destruct o as [e | [p db]]; [discriminate|].
  rewrite (Hprov p db eq_refl).
  destruct (k (serviceProvider s) db s1) as [[s2 t2] r2] eqn:Hk.
  unfold outcome_of. cbn [snd]. intros ->.
  exists db, s1. rewrite Hk. split; [|reflexivity].
  inversion HP as [| |db' s1' t' Hs1 Hget]; subst.
  eapply resolution_stable; [|exact Hget]. reflexivity.
Qed.



(** X7: a find or aggregate call that returns answers with a first block
    stating how many documents the backend returned, followed by one block per
    document, in the backend's order. *)
Theorem documents_result_blocks (lib : Library) (s : Session) (r : CallToolResult) :
  (forall args : FindToolArgs,
     outcome_of (FindTool_execute lib args s) = inr r ->
     exists op docs,
       respond_documents (serviceProvider s) op = inr docs /\
       content r =
         template ["Found "; string_of_nat (length docs);
                   " documents in the collection "; dq; collection (find_db args); dq;
                   ":"]
         :: map (EJSON_stringify lib) docs) /\
  (forall args : AggregateToolArgs,
     outcome_of (AggregateTool_execute lib args s) = inr r ->
     exists op docs,
       respond_documents (serviceProvider s) op = inr docs /\
       content r =
         template ["Found "; string_of_nat (length docs);
                   " documents in the collection "; dq; collection (aggregate_db args);
                   dq; ":"]
         :: map (EJSON_stringify lib) docs).
Proof.
  split; intros args Hret;
    (eapply returned_after_prelude in Hret as (db & s1 & Hdb & Hk);
     [|intros s'; reflexivity]);
    revert Hk; unfold parse_filter, parse_pipeline; run_monad; destruct_matches;
    try discriminate;
    intros Hk; injection Hk as <-; do 2 eexists; (split; [eassumption | reflexivity]).
Qed.

Lemma documents_result_blocks_witness :
  exists op docs,
    respond_documents sample_provider op = inr docs /\
    [template ["Found "; "0"; " documents in the collection "; dq; "orders"; dq; ":"]] =
    template ["Found "; string_of_nat (length docs);
              " documents in the collection "; dq; "orders"; dq; ":"]
    :: map (fun _ : Value => "{}") docs.
Proof.
  exact (proj1 (documents_result_blocks sample_library (sample_session None)
                  (mkResult [template ["Found "; "0"; " documents in the collection ";
                                       dq; "orders"; dq; ":"]]))
           (mkFindToolArgs (mkDbOperationArgs (Some "shop") "orders")
              (mkFindArgs None None 0%Z None))
           eq_refl).
Defined.

(** The two session helpers on a session that is connected, or connects,
    and resolves the database: they hand on the session's provider and that
    database, having issued nothing. *)
Lemma prelude_resolves (requested : option string) (s : Session) (db : string) :
  connState s = Connected \/ connect (serviceProvider s) = None ->
  outcome_of (getEffectiveDatabase requested s) = inr db ->
  exists s1 t,
    prelude requested s = (s1, t, inr (serviceProvider s, db)) /\
    ops_of t = [] /\ invoked t = [].
Proof.
  destruct s as [p c d]. cbn [connState serviceProvider].
  unfold prelude, ensureConnected, getEffectiveDatabase, await_connect, outcome_of.
  intros Hconn Hdb.
  destruct c, (connect p) eqn:Hc, requested as [[|a r]|], d;
    run_monad; rewrite ?Hc; run_monad;
    try discriminate; try (destruct Hconn; discriminate);
    injection Hdb as <-; do 2 eexists; repeat split; reflexivity.
Qed.

(** X8: a drop that the backend reports as not done is not an error.  On a
    session that is connected or connects, and for a database that resolves,
    drop-collection and drop-database then return a result of one block that
    begins with Failed to drop, having issued the one drop operation, and the
    pipeline passes that result on as a success. *)
Theorem failed_drop_is_a_result (s : Session) (db : string) :
  connState s = Connected \/ connect (serviceProvider s) = None ->
  (forall args : DbOperationArgs,
     outcome_of (getEffectiveDatabase (database args) s) = inr db ->
     respond_bool (serviceProvider s) (OpDropCollection db (collection args)) =
       inr false ->
     let r := mkResult [template ["Failed to drop"; " collection "; dq;
                                  collection args; dq; " from database "; dq;
                                  db; dq]] in
     outcome_of (DropCollectionTool_execute args s) = inr r /\
     ops_of (trace_of (DropCollectionTool_execute args s)) =
       [OpDropCollection db (collection args)] /\
     outcome_of (run_tool DropCollectionTool args s) = inr (Success r)) /\
  (forall database : option string,
     outcome_of (getEffectiveDatabase database s) = inr db ->
     respond_bool (serviceProvider s) (OpDropDatabase db) = inr false ->
     let r := mkResult [template ["Failed to drop"; " database "; dq; db; dq]] in
     outcome_of (DropDatabaseTool_execute database s) = inr r /\
     ops_of (trace_of (DropDatabaseTool_execute database s)) = [OpDropDatabase db] /\
     outcome_of (run_tool DropDatabaseTool database s) = inr (Success r)).
Proof.
  intros Hconn. split.
  - intros args Hdb Hresp r.
    destruct (prelude_resolves (database args) s Hconn Hdb) as (s1 & t & Hrun & Hops & _).
    assert (Hexec : DropCollectionTool_execute args s =
                    (s1, t ++ [EvOp (OpDropCollection db (collection args))], inr r)).
    { unfold DropCollectionTool_execute. rewrite execute_prelude, Hrun.
      unfold backend_call. rewrite Hresp. reflexivity. }
    rewrite run_tool_run. cbn [execute DropCollectionTool]. rewrite Hexec.
    unfold outcome_of, trace_of. cbn [fst snd].
    rewrite ops_of_app, Hops. repeat split.
  - intros database Hdb Hresp r.
    destruct (prelude_resolves database s Hconn Hdb) as (s1 & t & Hrun & Hops & _).
    assert (Hexec : DropDatabaseTool_execute database s =
                    (s1, t ++ [EvOp (OpDropDatabase db)], inr r)).
    { unfold DropDatabaseTool_execute. rewrite execute_prelude, Hrun.
      unfold backend_call. rewrite Hresp. reflexivity. }
    rewrite run_tool_run. cbn [execute DropDatabaseTool]. rewrite Hexec.
    unfold outcome_of, trace_of. cbn [fst snd].
    rewrite ops_of_app, Hops. repeat split.
Qed.

Lemma failed_drop_is_a_result_witness :
  outcome_of (DropDatabaseTool_execute (Some "shop")
                (mkSession refusing_provider Disconnected None)) =
    inr (mkResult [template ["Failed to drop"; " database "; dq; "shop"; dq]]) /\
  outcome_of (run_tool DropCollectionTool (mkDbOperationArgs None "orders")
                (mkSession refusing_provider Disconnected (Some "shop"))) =
    inr (Success
           (mkResult [template ["Failed to drop"; " collection "; dq; "orders"; dq;
                                " from database "; dq; "shop"; dq]])).
Proof.
  split.
  - exact (proj1 (proj2 (@failed_drop_is_a_result
                           (mkSession refusing_provider Disconnected None) "shop"
                           (or_intror eq_refl))
                    (Some "shop") eq_refl eq_refl)).
  - exact (proj2 (proj2 (proj1 (@failed_drop_is_a_result
                           (mkSession refusing_provider Disconnected (Some "shop")) "shop"
                           (or_intror eq_refl))
                    (mkDbOperationArgs None "orders") eq_refl eq_refl))).
Defined.

(** ** Error translation, further cases *)

(** X9: when the backend reports NamespaceNotFound, rename-collection and
    collection-indexes answer with one block naming the effective database
    and the collection of the call; when the thrown value is not an Error
    instance, neither translates it, whatever code name it carries, and the
    generic result embeds its message. *)
Theorem namespace_not_found_translation (lib : Library) (s : Session) (e : JsError) :
  (forall args : RenameCollectionArgs,
     outcome_of (RenameCollectionTool_execute args s) = inl (JsThrown e) ->
     exists db,
       outcome_of (getEffectiveDatabase (database (rename_db args)) s) = inr db /\
       (instanceofError e = true -> codeName e = Some "NamespaceNotFound" ->
        outcome_of (run_tool RenameCollectionTool args s) =
          inr (error_result DomainError
                 (template ["Cannot rename "; dq; db; "."; collection (rename_db args);
                            dq; " because it doesn't exist."]))) /\
       (instanceofError e = false ->
        outcome_of (run_tool RenameCollectionTool args s) =
          inr (generic_result "rename-collection" e))) /\
  (forall args : DbOperationArgs,
     outcome_of (CollectionIndexesTool_execute lib args s) = inl (JsThrown e) ->
     exists db,
       outcome_of (getEffectiveDatabase (database args) s) = inr db /\
       (instanceofError e = true -> codeName e = Some "NamespaceNotFound" ->
        outcome_of (run_tool (CollectionIndexesTool lib) args s) =
          inr (error_result DomainError
                 (template ["The indexes for "; dq; db; "."; collection args; dq;
                            " cannot be determined because the collection does not exist."]))) /\
       (instanceofError e = false ->
        outcome_of (run_tool (CollectionIndexesTool lib) args s) =
          inr (generic_result "collection-indexes" e))).
Proof.
  split; intros args Hraise.
  - destruct (rename_raised args s Hraise) as (db & Hdb & Hout).
    exists db. split; [assumption|]. rewrite Hout. cbn [error_codeName].
    split; [intros -> ->; reflexivity | intros ->; reflexivity].
  - destruct (indexes_raised lib args s Hraise) as (db & Hdb & Hout).
    exists db. split; [assumption|]. rewrite Hout. cbn [error_codeName].
    split; [intros -> ->; reflexivity | intros ->; reflexivity].
Qed.

Lemma namespace_not_found_translation_witness :
  exists db,
    outcome_of (getEffectiveDatabase (Some "shop")
                  (mkSession missing_provider Connected None)) = inr db /\
    outcome_of (run_tool (CollectionIndexesTool sample_library)
                  (mkDbOperationArgs (Some "shop") "orders")
                  (mkSession missing_provider Connected None)) =
      inr (error_result DomainError
             (template ["The indexes for "; dq; db; "."; "orders"; dq;
                        " cannot be determined because the collection does not exist."])).
Proof.
  destruct (proj2 (namespace_not_found_translation sample_library
                     (mkSession missing_provider Connected None) missing_error)
              (mkDbOperationArgs (Some "shop") "orders") eq_refl)
    as (db & Hdb & Hfound & _).
  exists db. split; [exact Hdb | exact (Hfound eq_refl eq_refl)].
Defined.

(** ** The explain tool, further *)

Lemma explain_ops (lib : Library) (args : ExplainArgs) (s : Session) :
  ops_of (trace_of (ExplainTool_execute lib args s)) =
  match outcome_of (prelude (database (explain_db args)) s),
        nth_error (explain_method args) 0 with
  | inr (_, db), Some m => [explain_op db (collection (explain_db args)) m]
  | _, _ => []
  end.
Proof.
  unfold ExplainTool_execute. cbn zeta.
  split_prelude (database (explain_db args)) s; unfold trace_of, outcome_of;
    cbn [fst snd].
  - exact (Prelude_ops Hpre).
  - destruct (nth_error (explain_method args) 0) as [[pl | a | q]|];
      run_monad; try destruct (respond_document _ _); cbn;
      rewrite ?ops_of_app, (Prelude_ops Hpre); reflexivity.
Qed.

(** X10: explain hands the backend the filter, the pipeline or the query of
    its first method as validated, always with verbosity queryPlanner, and
    never calls [EJSON.parse]: what it does to the session and to the backend
    is the same whatever the EJSON library does, whereas find sends the parsed
    filter. *)
Theorem explain_sends_arguments_unparsed (lib lib' : Library) (args : ExplainArgs)
  (s : Session) :
  trace_of (ExplainTool_execute lib args s) = trace_of (ExplainTool_execute lib' args s) /\
  session_of (ExplainTool_execute lib args s) =
    session_of (ExplainTool_execute lib' args s) /\
  ops_of (trace_of (ExplainTool_execute lib args s)) =
    match outcome_of (prelude (database (explain_db args)) s),
          nth_error (explain_method args) 0 with
    | inr (_, db), Some m => [explain_op db (collection (explain_db args)) m]
    | _, _ => []
    end.
Proof.
  split; [|split; [|apply explain_ops]].
  - unfold ExplainTool_execute. cbn zeta. rewrite !execute_prelude.
    destruct (prelude (database (explain_db args)) s) as [[s1 t] [e | [p db]]];
      [reflexivity|].
    destruct (nth_error (explain_method args) 0) as [[pl | a | q]|];
      run_monad; try destruct (respond_document _ _); reflexivity.
  - unfold ExplainTool_execute. cbn zeta. rewrite !execute_prelude.
    destruct (prelude (database (explain_db args)) s) as [[s1 t] [e | [p db]]];
      [reflexivity|].
    destruct (nth_error (explain_method args) 0) as [[pl | a | q]|];
      run_monad; try destruct (respond_document _ _); reflexivity.
Qed.

Lemma Method_variant_name {A} (lit : string) (inner : Value -> option A)
  (wrap : A -> Method) (v : Value) (m : Method) :
  Method_variant lit inner wrap (Some v) = Some m ->
  prop "name" v = Some (VStr lit) /\ exists a, m = wrap a.
Proof.
  unfold Method_variant, obind, z_literal, prop.
  destruct v; try discriminate.
  destruct (assoc "name" fields) as [[]|]; try discriminate.
  destruct (s =? lit) eqn:E; [|discriminate].
  apply String.eqb_eq in E. subst s.
  destruct (assoc "arguments" fields) as [[]|]; try discriminate.
  destruct (inner (VObj fields0)) as [a|]; [|discriminate].
  cbn. intros [= <-]. eauto.
Qed.

(** X11: an element of explain's method array is accepted only under one of
    the names aggregate, find and count, and the validated method is of the
    kind its name says. *)
Theorem method_shape_keeps_name (countArgs : Value -> option (option Value))
  (v : Value) (m : Method) :
  Method_shape countArgs (Some v) = Some m ->
  prop "name" v = Some (VStr (method_name m)) /\
  In (method_name m) ["aggregate"; "find"; "count"].
Proof.
  unfold Method_shape, z_union. intros H.
  destruct (Method_variant "aggregate" AggregateArgs_shape MethodAggregate (Some v))
    as [m1|] eqn:H1.
  { injection H as <-. apply Method_variant_name in H1 as [Hn [a ->]].
    split; [exact Hn | cbn; tauto]. }
  destruct (Method_variant "find" FindArgs_shape MethodFind (Some v)) as [m2|] eqn:H2.
  { injection H as <-. apply Method_variant_name in H2 as [Hn [a ->]].
    split; [exact Hn | cbn; tauto]. }
  apply Method_variant_name in H as [Hn [a ->]].
  split; [exact Hn | cbn; tauto].
Qed.

Lemma method_shape_keeps_name_witness :
  prop "name" (VObj [("name", VStr "count"); ("arguments", VObj [])]) =
    Some (VStr "count") /\
  In "count" ["aggregate"; "find"; "count"].
Proof.
  exact (@method_shape_keeps_name sample_count_shape
           (VObj [("name", VStr "count"); ("arguments", VObj [])])
           (MethodCount None) eq_refl).
Defined.

Lemma optional_record_object (fields : list (string * Value)) (k : string)
  (o : option Value) (v : Value) :
  field k (z_optional z_record) (VObj fields) = Some o ->
  assoc k fields = Some v -> is_object v = true.
Proof.
  unfold field, z_optional, z_record. intros H Hv. rewrite Hv in H.
  destruct v; try discriminate H. reflexivity.
Qed.

(** X20: the schema of find takes a filter, a projection and a sort only as
    plain objects, and a limit only as a number: a call giving any of them as
    something else (a string, an array, null) is not accepted. *)
Theorem find_schema_accepts_objects_only (raw : Value) (args : FindToolArgs) :
  FindToolArgs_shape raw = Some args ->
  (forall v, prop "filter" raw = Some v -> is_object v = true) /\
  (forall v, prop "projection" raw = Some v -> is_object v = true) /\
  (forall v, prop "sort" raw = Some v -> is_object v = true) /\
  (forall v, prop "limit" raw = Some v -> exists n, v = VNum n).
Proof.
  unfold FindToolArgs_shape, FindArgs_shape, obind. intros H.
  destruct (DbOperationArgs_shape raw); [|discriminate].
  destruct raw; try discriminate.
  destruct (field "filter" (z_optional z_record) (VObj fields)) as [f|] eqn:Hf;
    [|discriminate].
  destruct (field "projection" (z_optional z_record) (VObj fields)) as [p|] eqn:Hp;
    [|discriminate].
  destruct (field "limit" (z_default z_number 0%Z) (VObj fields)) as [l|] eqn:Hl;
    [|discriminate].
  destruct (field "sort" (z_optional z_record) (VObj fields)) as [so|] eqn:Hs;
    [|discriminate].
  unfold prop. repeat split; intros v Hv.
  - exact (optional_record_object _ _ Hf Hv).
  - exact (optional_record_object _ _ Hp Hv).
  - exact (optional_record_object _ _ Hs Hv).
  - unfold field, z_default, z_number in Hl. rewrite Hv in Hl.
    destruct v; try discriminate Hl. eauto.
Qed.

Lemma find_schema_accepts_objects_only_witness : is_object oid_filter = true.
Proof.
  exact (proj1 (@find_schema_accepts_objects_only find_users_raw
                  (mkFindToolArgs (mkDbOperationArgs None "users")
                     (mkFindArgs (Some oid_filter) None 0%Z None))
                  eq_refl) oid_filter eq_refl).
Defined.

(** * Further properties of the HTTP front-ends *)

Lemma sse_handle_keeps_globals (i : SseInput) (s : HttpState) (g : ServerObj) :
  globalServer s = Some g -> isServerInitialized s = true ->
  globalServer (http_state (sse_handle i s)) = Some g /\
  isServerInitialized (http_state (sse_handle i s)) = true.
Proof.
  intros Hg Hi.
  assert (Hq : forall h, quiet h ->
            globalServer (http_state (h s)) = Some g /\
            isServerInitialized (http_state (h s)) = true).
  { intros h Hh. destruct (Hh s) as (-> & -> & _). now split. }
  destruct i as [connect | req close | req err close | sig hc close]; cbn [sse_handle].
  - apply Hq, sse_get_quiet.
  - apply Hq, sse_req_close_quiet.
  - apply Hq, sse_req_error_quiet.
  - rewrite (shutdown_run _ hc close s Hg). unfold http_state. cbn. now split.
Qed.

Lemma mcp_handle_keeps_globals (i : McpInput) (s : HttpState) (g : ServerObj) :
  globalServer s = Some g -> isServerInitialized s = true ->
  globalServer (http_state (mcp_handle i s)) = Some g /\
  isServerInitialized (http_state (mcp_handle i s)) = true.
Proof.
  intros Hg Hi.
  assert (Hq : forall h, quiet h ->
            globalServer (http_state (h s)) = Some g /\
            isServerInitialized (http_state (h s)) = true).
  { intros h Hh. destruct (Hh s) as (-> & -> & _). now split. }
  destruct i as [connect handle hs | res | | | sig hc close]; cbn [mcp_handle].
  - apply Hq, mcp_post_quiet.
  - apply Hq, mcp_res_close_quiet.
  - apply Hq, mcp_method_not_allowed_quiet.
  - apply Hq, mcp_method_not_allowed_quiet.
  - rewrite (shutdown_run _ hc close s Hg). unfold http_state. cbn. now split.
Qed.

Lemma shutdown_events_no_json first httpClosed close g code body :
  first <> StatusJson code body ->
  ~ In (StatusJson code body) (shutdown_events first httpClosed close g).
Proof.
  intros Hf Hin. unfold shutdown_events in Hin.
  destruct httpClosed, close; cbn in Hin; intuition (try discriminate; congruence).
Qed.

Lemma sse_handle_ReadyInv (i : SseInput) (s : HttpState) (t : list HttpEvent) :
  ReadyInv s t -> exited s = None ->
  ReadyInv (http_state (sse_handle i s)) (t ++ http_trace (sse_handle i s)).
Proof.
  intros (Hg & Hi & Hno) _.
  destruct (sse_handle_keeps_globals i s Hg Hi) as [Hg' Hi'].
  split; [assumption|]. split; [assumption|].
  intros code body Hin. apply in_app_or in Hin as [Hin | Hin]; [now apply (Hno code body)|].
  destruct i as [connect | req close | req err close | sig hc close];
    cbn [sse_handle] in Hin.
  - rewrite (sse_get_run connect s Hg Hi) in Hin. unfold http_trace in Hin.
    cbn [snd] in Hin. destruct connect; cbn in Hin; intuition discriminate.
  - destruct s as [n g init conns ex]. unfold sse_req_close in Hin.
    rewrite hbind_run in Hin. cbn [hget connections] in Hin.
    destruct (lookup_connection req conns) as [[r tr [srv|]]|]; destruct close;
      cbn in Hin; intuition discriminate.
  - destruct s as [n g init conns ex]. unfold sse_req_error in Hin.
    rewrite hbind_run in Hin. cbn [hget connections] in Hin.
    destruct (lookup_connection req conns) as [[r tr [srv|]]|]; destruct close;
      cbn in Hin; intuition discriminate.
  - rewrite (shutdown_run _ hc close s Hg) in Hin. unfold http_trace in Hin.
    cbn [snd] in Hin. revert Hin. apply shutdown_events_no_json. discriminate.
Qed.

Lemma startup_ReadyInv :
  ReadyInv (mkHttpState 3 (Some startup_server) true [] None) startup_events.
Proof.
  split; [reflexivity|]. split; [reflexivity|].
  intros code body Hin. cbn in Hin. intuition discriminate.
Qed.

Lemma json_responses_none (t : list HttpEvent) :
  (forall code body, ~ In (StatusJson code body) t) -> json_responses t = [].
Proof.
  induction t as [|ev t IH]; intros H; [reflexivity|].
  unfold json_responses in *. cbn [flat_map].
  rewrite IH by (intros code body Hin; apply (H code body); now right).
  destruct ev; try reflexivity. elim (H status body). now left.
Qed.

(** X12: once the SSE variant has started, [/sse] never answers with a JSON
    error: the not-initialized guard cannot fail, and a connection whose
    set-up fails gets no error response, its 200 headers having been written
    before. *)
Theorem sse_never_answers_json_error (inputs : list SseInput) :
  json_responses (http_trace (sse_process None inputs initial_state)) = [].
Proof.
  apply json_responses_none. intros code body.
  rewrite sse_process_run. unfold http_trace at 1. cbn [snd].
  exact (proj2 (proj2 (@serve_invariant _ sse_handle ReadyInv sse_handle_ReadyInv inputs
                         _ _ startup_ReadyInv)) code body).
Qed.

(** X13: in the SSE and in the Streamable HTTP variant, whatever has been
    served, [/health] reports [mcpServerReady: true]: the flag is set before
    the server listens and nothing resets it. *)
Theorem health_always_ready (timestamp : string) :
  (forall inputs : list SseInput,
     prop "mcpServerReady"
       (health timestamp (http_state (sse_process None inputs initial_state))) =
     Some (VBool true)) /\
  (forall inputs : list McpInput,
     prop "mcpServerReady"
       (health timestamp (http_state (mcp_process None inputs initial_state))) =
     Some (VBool true)).
Proof.
  split; intros inputs.
  - rewrite sse_process_run. unfold http_state at 1. cbn [fst snd].
    destruct (@serve_invariant _ sse_handle ReadyInv sse_handle_ReadyInv inputs
                _ _ startup_ReadyInv) as (_ & Hi & _).
    unfold health, prop. cbn. now rewrite Hi.
  - rewrite mcp_process_run. unfold http_state at 1. cbn [fst snd].
    pose (Inv := fun (s : HttpState) (_ : list HttpEvent) =>
                   globalServer s = Some startup_server /\
                   isServerInitialized s = true).
    assert (Hstep : forall i s t, Inv s t -> exited s = None ->
              Inv (http_state (mcp_handle i s)) (t ++ http_trace (mcp_handle i s)))
      by (intros i s t [Hg Hi] _; now apply mcp_handle_keeps_globals).
    destruct (@serve_invariant _ mcp_handle Inv Hstep inputs
                (mkHttpState 3 (Some startup_server) true [] None) []
                (conj eq_refl eq_refl)) as [_ Hi].
    unfold health, prop. cbn. now rewrite Hi.
Qed.

Lemma mcp_serve_counts (inputs : list McpInput) (s : HttpState) (g : ServerObj) :
  exited s = None -> globalServer s = Some g ->
  length (sessions_created (http_trace (serve mcp_handle inputs s))) =
    posts_served inputs /\
  Forall (fun id => id = server_id g)
    (servers_closed (http_trace (serve mcp_handle inputs s))).
Proof.
  revert s. induction inputs as [|i rest IH]; intros s Hex Hg.
  - split; [reflexivity | constructor].
  - cbn [serve]. rewrite hbind_run. unfold guarded. rewrite Hex.
    assert (Hquiet : forall h, quiet h ->
              sessions_created (http_trace (h s)) = [] ->
              servers_closed (http_trace (h s)) = [] ->
              mcp_handle i = h ->
              length (sessions_created
                        (http_trace (let '(a, s1, t1) := h s in
                                     let '(b, s2, t2) := serve mcp_handle rest s1 in
                                     (b, s2, t1 ++ t2)))) = posts_served rest /\
              Forall (fun id => id = server_id g)
                (servers_closed
                   (http_trace (let '(a, s1, t1) := h s in
                                let '(b, s2, t2) := serve mcp_handle rest s1 in
                                (b, s2, t1 ++ t2))))).
    { intros h Hq Hs Hc _. destruct (Hq s) as (Hg' & _ & Hex' & _).
      destruct (h s) as [[u s1] t1]. unfold http_state, http_trace in *.
      cbn [fst snd] in *.
      destruct (IH s1) as [IH1 IH2]; [congruence | congruence |].
      destruct (serve mcp_handle rest s1) as [[u2 s2] t2]. cbn [fst snd] in *.
      rewrite sessions_created_app, servers_closed_app, Hs, Hc. cbn [app].
      split; assumption. }
    destruct i as [connect handle hs | res | | | sig hc close];
      cbn [mcp_handle posts_served].
    + rewrite mcp_post_run.
      destruct (IH (mkHttpState (5 + next_id s) (globalServer s) (isServerInitialized s)
                      (connections s ++ [mkConnection (next_id s) (4 + next_id s) None])
                      (exited s))) as [IH1 IH2]; [assumption | assumption |].
      destruct (serve mcp_handle rest _) as [[u2 s2] t2].
      unfold http_trace in *. cbn [fst snd] in *.
      rewrite !sessions_created_app, !servers_closed_app, mcp_post_tail_sessions.
      cbn [app]. change (sessions_created (_ :: _)) with [1 + next_id s].
      split; [cbn; now rewrite IH1|].
      replace (servers_closed (_ :: _)) with (@nil nat) by reflexivity.
      replace (servers_closed (mcp_post_tail connect handle hs (4 + next_id s)))
        with (@nil nat) by (destruct connect, handle, hs; reflexivity).
      exact IH2.
    + apply (Hquiet _ (mcp_res_close_quiet res)); [| |reflexivity];
        destruct s as [n g0 init conns ex]; unfold mcp_res_close; rewrite hbind_run;
        cbn [hget connections]; destruct (lookup_connection res conns); reflexivity.
    + apply (Hquiet _ (mcp_method_not_allowed_quiet _)); reflexivity.
    + apply (Hquiet _ (mcp_method_not_allowed_quiet _)); reflexivity.
    + rewrite (shutdown_run _ hc close s Hg).
      rewrite (@serve_exited _ mcp_handle rest) by (cbn; discriminate).
      unfold http_trace. cbn [fst snd]. rewrite app_nil_r.
      unfold shutdown_events. destruct hc, close; cbn;
        (split; [reflexivity | repeat constructor]).
Qed.

(** X14: in the Streamable HTTP variant the only server ever asked to close
    is the one built at start-up: the server and the session built for a
    request are never closed, whatever is served afterwards. *)
Theorem mcp_closes_only_startup_server (inputs : list McpInput) :
  Forall (fun id => id = server_id startup_server)
    (servers_closed (http_trace (mcp_process None inputs initial_state))).
Proof.
  rewrite mcp_process_run. unfold http_trace at 1. cbn [snd].
  rewrite servers_closed_app. apply Forall_app. split; [constructor|].
  now apply (proj2 (@mcp_serve_counts inputs
                      (mkHttpState 3 (Some startup_server) true [] None)
                      startup_server eq_refl eq_refl)).
Qed.

(** X15: the Streamable HTTP variant builds one session at start-up and one
    more for every POST on [/mcp] it serves, successful or not; GET, DELETE
    and closed responses build none. *)
Theorem mcp_sessions_grow_with_posts (inputs : list McpInput) :
  length (sessions_created (http_trace (mcp_process None inputs initial_state))) =
  1 + posts_served inputs.
Proof.
  rewrite mcp_process_run. unfold http_trace at 1. cbn [snd].
  rewrite sessions_created_app, length_app.
  now rewrite (proj1 (@mcp_serve_counts inputs
                      (mkHttpState 3 (Some startup_server) true [] None)
                      startup_server eq_refl eq_refl)).
Qed.

(** X16: when the validation of the configuration fails at start-up, the SSE
    and the Streamable HTTP variant log the failure and exit with code 1
    without ever listening; no input is served and the globals stay unset. *)
Theorem failed_startup_serves_nothing (err : string) :
  (forall inputs : list SseInput,
     sse_process (Some err) inputs initial_state =
     (tt, mkHttpState 3 None false [] (Some 1), failed_startup_events err)) /\
  (forall inputs : list McpInput,
     mcp_process (Some err) inputs initial_state =
     (tt, mkHttpState 3 None false [] (Some 1), failed_startup_events err)).
Proof.
  split; intros inputs.
  - unfold sse_process. rewrite hbind_run.
    change (startHttpServer (Some err) initial_state)
      with (false, mkHttpState 3 None false [] (Some 1), failed_startup_events err).
    lazy beta iota.
    rewrite (@serve_exited _ sse_handle inputs) by (cbn; discriminate).
    now rewrite app_nil_r.
  - unfold mcp_process. rewrite hbind_run.
    change (startHttpServer (Some err) initial_state)
      with (false, mkHttpState 3 None false [] (Some 1), failed_startup_events err).
    lazy beta iota.
    rewrite (@serve_exited _ mcp_handle inputs) by (cbn; discriminate).
    now rewrite app_nil_r.
Qed.

(** X17: [initializeGlobalServer] builds the global server at most once: a
    call after a successful one returns the same server, builds nothing and
    validates nothing.  A call whose validation fails leaves the globals as
    they were, so that the server counts as not initialized. *)
Theorem initializeGlobalServer_once (s : HttpState) (validate : option string)
  (err : string) :
  initializeGlobalServer validate (http_state (initializeGlobalServer None s)) =
    (fst (fst (initializeGlobalServer None s)),
     http_state (initializeGlobalServer None s), []) /\
  globalServer (http_state (initializeGlobalServer (Some err) s)) = globalServer s /\
  isServerInitialized (http_state (initializeGlobalServer (Some err) s)) =
    isServerInitialized s.
Proof.
  destruct s as [n [g|] [|] conns ex]; repeat split; reflexivity.
Qed.

Lemma lookup_connection_fresh (req : nat) (l : list Connection) :
  Forall (fun c => conn_req c < req) l -> lookup_connection req l = None.
Proof.
  unfold lookup_connection. induction 1 as [|c l Hlt Hl IH]; [reflexivity|].
  cbn. assert (E : Nat.eqb (conn_req c) req = false) by (apply Nat.eqb_neq; lia).
  now rewrite E.
Qed.

Lemma serve_cons_run {I} (handle : I -> H unit) (i : I) (l : list I)
  (s s1 s2 : HttpState) (t1 t2 : list HttpEvent) :
  exited s = None ->
  handle i s = (tt, s1, t1) ->
  serve handle l s1 = (tt, s2, t2) ->
  serve handle (i :: l) s = (tt, s2, t1 ++ t2).
Proof.
  intros Hex Hi Hl.
  change (serve handle (i :: l) s)
    with (hbind (guarded (handle i)) (fun _ => serve handle l) s).
  rewrite hbind_run. unfold guarded. rewrite Hex, Hi, Hl. reflexivity.
Qed.

(** The events of one request, served in a state that they leave as it is. *)
Lemma serve_request_events (req : nat) (events : list (option string * option string))
  (s : HttpState) :
  exited s = None ->
  match lookup_connection req (connections s) with
  | Some (mkConnection _ _ (Some srv)) =>
      exists t,
        serve sse_handle (map (request_event req) events) s = (tt, s, t) /\
        servers_closed t = repeat (server_id srv) (length events)
  | _ => serve sse_handle (map (request_event req) events) s = (tt, s, [])
  end.
Proof.
  intros Hex.
  destruct (lookup_connection req (connections s)) as [[r tr [srv|]]|] eqn:Hl.
  - induction events as [|[[err|] close] events (t & IHs & IHt)].
    + exists []. split; reflexivity.
    + eexists. split.
      * cbn [map request_event].
        eapply serve_cons_run; [exact Hex | | exact IHs].
        cbn [sse_handle]. apply (sse_req_error_run req err close s Hl eq_refl).
      * rewrite servers_closed_app, IHt, servers_closed_close by reflexivity.
        reflexivity.
    + eexists. split.
      * cbn [map request_event].
        eapply serve_cons_run; [exact Hex | | exact IHs].
        cbn [sse_handle]. apply (sse_req_close_run req close s Hl eq_refl).
      * rewrite servers_closed_app, IHt, servers_closed_close by reflexivity.
        reflexivity.
  - assert (Hclose : forall close, sse_req_close req close s = (tt, s, [])).
    { intros close. destruct s as [n g init conns ex]. cbn [connections] in Hl.
      unfold sse_req_close. rewrite hbind_run. cbn [hget connections]. now rewrite Hl. }
    assert (Herror : forall err close, sse_req_error req err close s = (tt, s, [])).
    { intros err close. destruct s as [n g init conns ex]. cbn [connections] in Hl.
      unfold sse_req_error. rewrite hbind_run. cbn [hget connections]. now rewrite Hl. }
    induction events as [|[[err|] close] events IH]; [reflexivity|..];
      cbn [map request_event];
      change (@nil HttpEvent) with (@nil HttpEvent ++ []);
      (eapply serve_cons_run; [exact Hex | | exact IH]); cbn [sse_handle]; auto.
  - destruct (sse_req_unregistered req s Hl) as [Hclose Herror].
    induction events as [|[[err|] close] events IH]; [reflexivity|..];
      cbn [map request_event];
      change (@nil HttpEvent) with (@nil HttpEvent ++ []);
      (eapply serve_cons_run; [exact Hex | | exact IH]); cbn [sse_handle]; auto.
Qed.

(** X18: in the SSE variant the close and error listeners of a request are
    registered only once its connect has resolved, and neither has a guard:
    every close or error event delivered on such a request asks the server
    built for it to close once more, so as many closes as events.  When the
    connect is rejected no listener is registered and those events close
    nothing.  Nothing but that server is closed by them. *)
Theorem sse_close_events (inputs : list SseInput) (connect : option string)
  (events : list (option string * option string)) :
  let before := sse_process None inputs initial_state in
  let req := next_id (http_state before) in
  exited (http_state before) = None ->
  servers_closed
    (http_trace (sse_process None
                   (inputs ++ GetSse connect :: map (request_event req) events)
                   initial_state)) =
  servers_closed (http_trace before) ++
  match connect with
  | None => repeat (4 + req) (length events)
  | Some _ => []
  end.
Proof.
  intros before req. subst before req.
  pose proof (sse_reachable inputs) as (Hg & Hinit & _ & _ & Hown & _).
  revert Hg Hinit Hown.
  rewrite !sse_process_run, serve_app.
  destruct (serve sse_handle inputs (mkHttpState 3 (Some startup_server) true [] None))
    as [[u1 s1] t1].
  unfold http_state, http_trace. cbn [fst snd].
  intros Hg Hinit Hown Hex.
  assert (Hfresh : Forall (fun c => conn_req c < next_id s1) (connections s1)).
  { eapply Forall_impl; [|exact Hown]. intros c [Hlt _]. exact Hlt. }
  pose proof (sse_get_run connect s1 Hg Hinit) as Hget. cbn zeta in Hget.
  set (n := next_id s1) in *.
  match type of Hget with
  | _ = (_, ?s2, _) =>
      pose proof (@serve_request_events n events s2 Hex) as Hserve
  end.
  cbn [connections] in Hserve.
  assert (Hrun : exists t2,
            serve sse_handle (map (request_event n) events)
              (mkHttpState (5 + n) (Some startup_server) true
                 match connect with
                 | Some _ => connections s1
                 | None =>
                     connections s1 ++
                     [mkConnection n (1 + n) (Some (mkServerObj (4 + n) (2 + n) (3 + n)))]
                 end (exited s1)) =
            (tt,
             mkHttpState (5 + n) (Some startup_server) true
                 match connect with
                 | Some _ => connections s1
                 | None =>
                     connections s1 ++
                     [mkConnection n (1 + n) (Some (mkServerObj (4 + n) (2 + n) (3 + n)))]
                 end (exited s1), t2) /\
            servers_closed t2 =
              match connect with
              | None => repeat (4 + n) (length events)
              | Some _ => []
              end).
  { destruct connect as [err|].
    - rewrite (lookup_connection_fresh Hfresh) in Hserve. exists []. now split.
    - destruct (@lookup_connection_new (connections s1)
                  (mkConnection n (1 + n) (Some (mkServerObj (4 + n) (2 + n) (3 + n)))))
        as [Hl _]; [exact Hfresh|].
      cbn [conn_req] in Hl. rewrite Hl in Hserve. exact Hserve. }
  destruct Hrun as (t2 & Hrun & Hclosed).
  rewrite (@serve_cons_run _ sse_handle (GetSse connect) _ _ _ _ _ _ Hex Hget Hrun).
  cbn [fst snd]. rewrite !servers_closed_app, Hclosed.
  destruct connect; reflexivity.
Qed.

Lemma sse_close_events_witness :
  servers_closed
    (http_trace (sse_process None
                   (GetSse (Some "connect rejected")
                    :: map (request_event 3) [(None, None); (Some "reset", None)])
                   initial_state)) = [].
Proof.
  exact (@sse_close_events [] (Some "connect rejected")
           [(None, None); (Some "reset", None)] eq_refl).
Defined.

(** X19: in the SSE variant a signal asks the global server to close and no
    other: the connections then registered stay registered, and the servers
    built for them, none of which is the global one, are not asked to close. *)
Theorem sse_shutdown_closes_global_only (inputs : list SseInput) (sig : SignalName)
  (httpClosed : bool) (close : option string) :
  let s := http_state (sse_process None inputs initial_state) in
  let r := shutdown (signal_name sig) httpClosed close s in
  servers_closed (http_trace r) = [server_id startup_server] /\
  connections (http_state r) = connections s /\
  Forall (fun c => exists srv,
            conn_server c = Some srv /\ server_id srv <> server_id startup_server)
    (connections s).
Proof.
  intros s r.
  pose proof (sse_reachable inputs) as (Hg & Hinit & Hthree & _ & Hown & _).
  fold s in Hg, Hown. subst r. rewrite (shutdown_run _ httpClosed close s Hg).
  unfold http_state at 1, http_trace. cbn [fst snd connections].
  split; [destruct httpClosed, close; reflexivity|]. split; [reflexivity|].
  eapply Forall_impl; [|exact Hown].
  intros c (_ & srv & Hs & (_ & _ & Hid) & _). exists srv. split; [assumption|].
  cbn. lia.
Qed.
